(** * corepoint-ingest: extraction and aggregation of board cards

    A shallow embedding of [src/app.py]: the field parsers ([DATE_PAT],
    [PRICE_PAT], [parse_date]), the card extractor ([extract_cards]) and the
    aggregator ([avg], [build_report]), followed by the properties the
    specification states about them.

    Conventions.
    - A Python [str] is a [string]; each [ascii] stands for the code point of
      the same number (0..255).  Whitespace, digits and case mapping are the
      ones Python uses on that range.
    - A Python exception is an [exn] carried by [result]; [None] is [None].
    - A Python [int] is a [Z]; a Python [float] is an IEEE binary64 value,
      a [spec_float] with precision 53 and maximal exponent 1024.
    - The document tree is the one BeautifulSoup hands to the code; the
      parser from bytes to that tree is outside the repository. *)

From Stdlib Require Import ZArith List String Ascii Bool Lia Permutation.
From Stdlib Require Import SpecFloat QArith Qabs Qpower Qfield Lqa.
Import ListNotations.
Local Open Scope string_scope.
Local Open Scope Z_scope.

(* ================================================================== *)
(** ** Exceptions *)

Inductive exn :=
| ValueError | OverflowError | ZeroDivisionError
| ParserRejectedMarkup.   (* bs4.exceptions.ParserRejectedMarkup *)

Inductive result (A : Type) :=
| Ok (a : A)
| Raise (e : exn).
Arguments Ok {A} a.
Arguments Raise {A} e.

Definition bind {A B} (m : result A) (k : A -> result B) : result B :=
  match m with
  | Ok a => k a
  | Raise e => Raise e
  end.

Notation "x <- m ;; k" := (bind m (fun x => k))
  (at level 61, m at next level, right associativity).

(** [for x in xs: ...] building a list of rows, stopping at the first
    exception. *)
Fixpoint mapM {A B} (f : A -> result B) (xs : list A) : result (list B) :=
  match xs with
  | [] => Ok []
  | x :: xs' => y <- f x ;; ys <- mapM f xs' ;; Ok (y :: ys)
  end.

(* ================================================================== *)
(** ** Characters and strings *)

Module Str.

Definition code (c : ascii) : N := N_of_ascii c.

Definition between (lo hi : N) (c : ascii) : bool :=
  ((lo <=? code c) && (code c <=? hi))%N.

(** [\d] on the modelled range: the decimal digits. *)
Definition is_digit (c : ascii) : bool := between 48 57 c.

(** [str.isspace] / [\s] on the modelled range: tab, newline, vertical tab,
    form feed, carriage return, the four separators 0x1c..0x1f, space,
    NEL (0x85) and the no-break space (0xa0). *)
Definition is_space (c : ascii) : bool :=
  between 9 13 c || between 28 32 c
  || (code c =? 133)%N || (code c =? 160)%N.

(** [str.lower] on one character. *)
Definition lower (c : ascii) : ascii :=
  if between 65 90 c
     || (between 192 222 c && negb (code c =? 215)%N)
  then ascii_of_N (code c + 32)
  else c.

Fixpoint map (f : ascii -> ascii) (s : string) : string :=
  match s with
  | EmptyString => EmptyString
  | String c s' => String (f c) (map f s')
  end.

Definition to_lower (s : string) : string := map lower s.

Fixpoint forallb (p : ascii -> bool) (s : string) : bool :=
  match s with
  | EmptyString => true
  | String c s' => p c && forallb p s'
  end.

(** [s.replace(c, "")] for a one-character [c]. *)
Fixpoint remove (c : ascii) (s : string) : string :=
  match s with
  | EmptyString => EmptyString
  | String a s' => if Ascii.eqb a c then remove c s' else String a (remove c s')
  end.

Fixpoint lstrip (s : string) : string :=
  match s with
  | String c s' => if is_space c then lstrip s' else s
  | EmptyString => EmptyString
  end.

(** Drops the trailing whitespace: a character is kept when something
    that is kept follows it, or when it is not whitespace. *)
Fixpoint rstrip (s : string) : string :=
  match s with
  | EmptyString => EmptyString
  | String c s' =>
      match rstrip s' with
      | EmptyString => if is_space c then EmptyString else String c EmptyString
      | r => String c r
      end
  end.

(** [s.strip()] *)
Definition strip (s : string) : string := rstrip (lstrip s).

(** [sep.join(xs)] *)
Fixpoint join (sep : string) (xs : list string) : string :=
  match xs with
  | [] => EmptyString
  | [x] => x
  | x :: xs' => x ++ sep ++ join sep xs'
  end.

(** [s.startswith(p)] *)
Definition startswith (p s : string) : bool := String.prefix p s.

(** [p in s] *)
Fixpoint contains (p s : string) : bool :=
  String.prefix p s ||
  match s with
  | EmptyString => false
  | String _ s' => contains p s'
  end.

Definition is_empty (s : string) : bool :=
  match s with EmptyString => true | _ => false end.

End Str.

(** [int(s)] for the strings the program passes to it: a run of decimal
    digits, or the empty string, on which [int] raises [ValueError].
    (Signs, blanks and underscores never reach [int] here: its arguments are
    regex groups made of digits, with the commas removed.)  [int] also
    raises [ValueError] on more than [sys.int_info.default_max_str_digits]
    digits, leading zeros counted. *)
Fixpoint digits_value (acc : Z) (s : string) : option Z :=
  match s with
  | EmptyString => Some acc
  | String c s' =>
      if Str.is_digit c
      then digits_value (10 * acc + (Z.of_N (Str.code c) - 48)) s'
      else None
  end.

Definition max_str_digits : Z := 4300.

Definition py_int (s : string) : result Z :=
  match s with
  | EmptyString => Raise ValueError
  | _ =>
      if max_str_digits <? Z.of_nat (String.length s) then Raise ValueError
      else match digits_value 0 s with
           | Some n => Ok n
           | None => Raise ValueError
           end
  end.

(** The runs of digits [int] refuses: the empty one, and those longer than
    it converts. *)
Definition unconvertible (digits : string) : Prop :=
  digits = EmptyString \/ max_str_digits < Z.of_nat (String.length digits).

(* ================================================================== *)
(** ** Regular expressions

    The fragment of Python's [re] the program and [strptime] use, with its
    backtracking semantics: alternatives are tried left to right, a
    quantifier is greedy and gives characters back one at a time, and
    [search] returns the leftmost match. *)

Module Re.

Inductive regex :=
| Eps
| Chr (c : ascii)                                   (* a literal character *)
| Cls (p : ascii -> bool)                           (* a character class *)
| Seq (r1 r2 : regex)
| Alt (r1 r2 : regex)
| Rep (p : ascii -> bool) (lo : nat) (hi : option nat)  (* class{lo,hi}, greedy *)
| Grp (name : string) (r : regex).                  (* a capturing group *)

Fixpoint lit (s : string) : regex :=
  match s with
  | EmptyString => Eps
  | String c s' => Seq (Chr c) (lit s')
  end.

Definition captures := list (string * string).

Fixpoint group (name : string) (cs : captures) : option string :=
  match cs with
  | [] => None
  | (n, v) :: cs' => if String.eqb n name then Some v else group name cs'
  end.

(** The part of [s] consumed when [rest] is what remains of it. *)
Definition consumed (s rest : string) : string :=
  substring 0 (String.length s - String.length rest) s.

Definition hi_allows (hi : option nat) : bool :=
  match hi with Some O => false | _ => true end.

Definition hi_pred (hi : option nat) : option nat :=
  match hi with Some n => Some (Nat.pred n) | None => None end.

Section Match.
Context {R : Type}.
(** [IGNORECASE] *)
Variable icase : bool.

Definition chr_matches (pat c : ascii) : bool :=
  if icase then Ascii.eqb (Str.lower pat) (Str.lower c) else Ascii.eqb pat c.

(** Greedy repetition: take one more character when allowed, and only if
    the rest of the pattern then fails, stop here. *)
Fixpoint rep (p : ascii -> bool) (lo : nat) (hi : option nat) (s : string)
         (k : string -> option R) : option R :=
  let stop := match lo with O => k s | S _ => None end in
  match s with
  | String c s' =>
      if p c && hi_allows hi
      then match rep p (Nat.pred lo) (hi_pred hi) s' k with
           | Some r => Some r
           | None => stop
           end
      else stop
  | EmptyString => stop
  end.

Fixpoint run (r : regex) (s : string) (cs : captures)
         (k : string -> captures -> option R) : option R :=
  match r with
  | Eps => k s cs
  | Chr a =>
      match s with
      | String c s' => if chr_matches a c then k s' cs else None
      | EmptyString => None
      end
  | Cls p =>
      match s with
      | String c s' => if p c then k s' cs else None
      | EmptyString => None
      end
  | Seq r1 r2 => run r1 s cs (fun s' cs' => run r2 s' cs' k)
  | Alt r1 r2 =>
      match run r1 s cs k with
      | Some x => Some x
      | None => run r2 s cs k
      end
  | Rep p lo hi => rep p lo hi s (fun s' => k s' cs)
  | Grp name r1 =>
      run r1 s cs (fun s' cs' => k s' ((name, consumed s s') :: cs'))
  end.
End Match.

(** [pattern.match(s)]: a match at the start of [s]; the text left over and
    the groups. *)
Definition match_ (icase : bool) (r : regex) (s : string)
  : option (string * captures) :=
  run icase r s [] (fun rest cs => Some (rest, cs)).

(** [pattern.search(s)]: the match at the leftmost position that has one. *)
Fixpoint search (icase : bool) (r : regex) (s : string) : option captures :=
  match match_ icase r s with
  | Some (_, cs) => Some cs
  | None =>
      match s with
      | EmptyString => None
      | String _ s' => search icase r s'
      end
  end.

End Re.

(* ================================================================== *)
(** ** Calendar dates ([datetime.date]) *)

Record date := mkdate { year : Z; month : Z; day : Z }.

Definition is_leap (y : Z) : bool :=
  (y mod 4 =? 0) && (negb (y mod 100 =? 0) || (y mod 400 =? 0)).

Definition days_in_month (y m : Z) : Z :=
  if m =? 2 then (if is_leap y then 29 else 28)
  else if (m =? 4) || (m =? 6) || (m =? 9) || (m =? 11) then 30
  else 31.

Definition days_before_year (y : Z) : Z :=
  let y' := y - 1 in y' * 365 + y' / 4 - y' / 100 + y' / 400.

Definition days_before_month (y m : Z) : Z :=
  nth (Z.to_nat m) [0; 0; 31; 59; 90; 120; 151; 181; 212; 243; 273; 304; 334] 0
  + (if (2 <? m) && is_leap y then 1 else 0).

(** [date.toordinal()] *)
Definition toordinal (d : date) : Z :=
  days_before_year (year d) + days_before_month (year d) (month d) + day d.

(** [(a - b).days] *)
Definition days_between (a b : date) : Z := toordinal a - toordinal b.

(** The checks of the [date] constructor; it raises [ValueError] when one
    fails. *)
Definition valid_date (y m d : Z) : bool :=
  (1 <=? y) && (y <=? 9999) && (1 <=? m) && (m <=? 12)
  && (1 <=? d) && (d <=? days_in_month y m).

Definition make_date (y m d : Z) : result date :=
  if valid_date y m d then Ok (mkdate y m d) else Raise ValueError.

(* ================================================================== *)
(** ** [datetime.strptime], for formats made of [%m], [%d], [%y], [%Y] and
    literal characters *)

Module Strptime.
Import Re.

Inductive directive :=
| Pm                 (* %m *)
| Pd                 (* %d *)
| Py                 (* %y *)
| PY                 (* %Y *)
| Plit (c : ascii).

Definition d_0_2 := Cls (Str.between 48 50).
Definition d_0_1 := Cls (Str.between 48 49).
Definition d_1_2 := Cls (Str.between 49 50).
Definition d_1_9 := Cls (Str.between 49 57).
Definition digit := Cls Str.is_digit.

(** The regular expression the library keeps for each directive. *)
Definition directive_re (d : directive) : regex :=
  match d with
  | Pm => (* (?P<m>1[0-2]|0[1-9]|[1-9]) *)
      Grp "m" (Alt (Seq (Chr "1") d_0_2) (Alt (Seq (Chr "0") d_1_9) d_1_9))
  | Pd => (* (?P<d>3[0-1]|[1-2]\d|0[1-9]|[1-9]| [1-9]) *)
      Grp "d" (Alt (Seq (Chr "3") d_0_1)
              (Alt (Seq d_1_2 digit)
              (Alt (Seq (Chr "0") d_1_9)
              (Alt d_1_9
                   (Seq (Chr " ") d_1_9)))))
  | Py => (* (?P<y>\d\d) *)
      Grp "y" (Seq digit digit)
  | PY => (* (?P<Y>\d\d\d\d) *)
      Grp "Y" (Seq digit (Seq digit (Seq digit digit)))
  | Plit c => Chr c
  end.

Fixpoint pattern (fmt : list directive) : regex :=
  match fmt with
  | [] => Eps
  | d :: fmt' => Seq (directive_re d) (pattern fmt')
  end.

Definition int_group (name : string) (cs : captures) : option Z :=
  match group name cs with
  | Some v => digits_value 0 (Str.lstrip v)
  | None => None
  end.

(** The year: [%Y] as written; [%y] in 2000..2068 for 00..68 and in
    1969..1999 for 69..99; 1900 when the format has neither. *)
Definition year_of (cs : captures) : Z :=
  match int_group "Y" cs, int_group "y" cs with
  | Some y, _ => y
  | None, Some y => if y <=? 68 then y + 2000 else y + 1900
  | None, None => 1900
  end.

Definition field_or (name : string) (cs : captures) (dflt : Z) : Z :=
  match int_group name cs with Some v => v | None => dflt end.

(** [datetime.strptime(s, fmt).date()]: the format's regex must match at
    the start of [s] and leave nothing over, and the fields must make a
    date. *)
Definition strptime_date (s : string) (fmt : list directive) : result date :=
  match match_ true (pattern fmt) s with
  | None => Raise ValueError                       (* does not match format *)
  | Some (rest, cs) =>
      if Str.is_empty rest
      then make_date (year_of cs) (field_or "m" cs 1) (field_or "d" cs 1)
      else Raise ValueError                        (* unconverted data remains *)
  end.

End Strptime.

(* ================================================================== *)
(** ** Field parsers *)

Import Re.

Definition colon_or_space (c : ascii) : bool :=
  Ascii.eqb c ":" || Str.is_space c.
Definition dollar_or_colon (c : ascii) : bool :=
  Ascii.eqb c "$" || Ascii.eqb c ":".
Definition digit_or_comma (c : ascii) : bool :=
  Str.is_digit c || Ascii.eqb c ",".

(** [\d{1,2}/\d{1,2}/\d{2,4}] *)
Definition DATE_TOKEN : regex :=
  Seq (Rep Str.is_digit 1 (Some 2%nat))
 (Seq (Chr "/")
 (Seq (Rep Str.is_digit 1 (Some 2%nat))
 (Seq (Chr "/")
      (Rep Str.is_digit 2 (Some 4%nat))))).

(** [Received[:\s]+(\d{1,2}/\d{1,2}/\d{2,4})], [re.IGNORECASE] *)
Definition DATE_PAT : regex :=
  Seq (lit "Received")
 (Seq (Rep colon_or_space 1 None)
      (Grp "1" DATE_TOKEN)).

(** [Quoted Price\s*[$:]*\s*([\d,]+)], [re.IGNORECASE] *)
Definition PRICE_PAT : regex :=
  Seq (lit "Quoted Price")
 (Seq (Rep Str.is_space 0 None)
 (Seq (Rep dollar_or_colon 0 None)
 (Seq (Rep Str.is_space 0 None)
      (Grp "1" (Rep digit_or_comma 1 None))))).

(** [PAT.search(text)] and, on a match, [m.group(1)] *)
Definition search_group1 (pat : regex) (text : string) : option string :=
  match search true pat text with
  | Some cs => group "1" cs
  | None => None
  end.

Import Strptime.

Definition FMT_mdy : list directive := [Pm; Plit "/"; Pd; Plit "/"; Py].
Definition FMT_mdY : list directive := [Pm; Plit "/"; Pd; Plit "/"; PY].
Definition FMT_iso : list directive := [PY; Plit "-"; Pm; Plit "-"; Pd].

(** The loop of [parse_date] over a tuple of formats: the first format
    that parses wins; every exception is swallowed. *)
Fixpoint parse_with (fmts : list (list directive)) (s : string) : option date :=
  match fmts with
  | [] => None
  | fmt :: fmts' =>
      match strptime_date s fmt with
      | Ok d => Some d
      | Raise _ => parse_with fmts' s
      end
  end.

Definition parse_date (s : string) : option date :=
  parse_with [FMT_mdy; FMT_mdY; FMT_iso] s.

(* ================================================================== *)
(** ** The document tree

    What [BeautifulSoup(html_bytes, "html.parser")] builds: text nodes and
    tags; a tag has a name, the tokens of its [class] attribute (none when
    the attribute is absent) and its children in document order.  A document
    is the list of the top-level nodes. *)

#[local] Set Warnings "-register-all".

Inductive node :=
| Text (s : string)
| Elem (name : string) (classes : list string) (children : list node).

Module Soup.

(** [tag.descendants]: every node below the tag, in document order. *)
Fixpoint descendants (n : node) : list node :=
  match n with
  | Text _ => []
  | Elem _ _ cs => flat_map (fun c => c :: descendants c) cs
  end.

Definition doc_descendants (doc : list node) : list node :=
  flat_map (fun c => c :: descendants c) doc.

Definition is_tag (name : string) (n : node) : bool :=
  match n with
  | Elem nm _ _ => String.eqb nm name
  | Text _ => false
  end.

(** [class_=lambda c: c and c.startswith(p)]: the function is given each
    token of the attribute, then the tokens joined by a space, and [None]
    when the attribute is absent. *)
Definition class_startswith (p : string) (n : node) : bool :=
  match n with
  | Elem _ cls _ =>
      existsb (Str.startswith p) cls || Str.startswith p (Str.join " " cls)
  | Text _ => false
  end.

Definition has_class (c : string) (n : node) : bool :=
  match n with
  | Elem _ cls _ => existsb (String.eqb c) cls
  | Text _ => false
  end.

(** [tag.find_all("div", class_=...)] *)
Definition find_all_div_class (p : string) (below : list node) : list node :=
  filter (fun n => is_tag "div" n && class_startswith p n) below.

(** [tag.find("div", class_=...)]: the first one, or [None]. *)
Definition find_div_class (p : string) (below : list node) : option node :=
  hd_error (find_all_div_class p below).

(** [tag.select("div.card")] *)
Definition select_div_card (below : list node) : list node :=
  filter (fun n => is_tag "div" n && has_class "card" n) below.

(** [tag.find_all("div", recursive=True)] *)
Definition find_all_div (below : list node) : list node :=
  filter (is_tag "div") below.

(** The strings [get_text(..., strip=True)] joins: every text node below,
    stripped, the empty ones dropped.  (Comments and the contents of
    [script] and [style], which [get_text] leaves out, are not nodes of
    this tree.) *)
Fixpoint stripped_strings (n : node) : list string :=
  match n with
  | Text s =>
      let s' := Str.strip s in if Str.is_empty s' then [] else [s']
  | Elem _ _ cs => flat_map stripped_strings cs
  end.

(** [tag.get_text(" ", strip=True)] *)
Definition get_text (n : node) : string :=
  Str.join " " (stripped_strings n).

End Soup.

(* ================================================================== *)
(** ** Card extraction *)

Record card := mkcard {
  column : string;
  text : string;
  date_ : date;
  age : Z;
  price : option Z
}.

(** Lines 72-73: [pm = PRICE_PAT.search(text)];
    [price = int(pm.group(1).replace(",", "")) if pm else None] *)
Definition price_of_text (txt : string) : result (option Z) :=
  match search_group1 PRICE_PAT txt with
  | Some g => p <- py_int (Str.remove "," g) ;; Ok (Some p)
  | None => Ok None
  end.

(** The body of the loop over the candidate cards (lines 61-75): [Ok None]
    is a [continue], [Ok (Some c)] the record appended to [out]. *)
Definition card_of (today : date) (col : string) (cand : node)
  : result (option card) :=
  let txt := Soup.get_text cand in
  if Str.is_empty txt then Ok None
  else match search_group1 DATE_PAT txt with
       | None => Ok None
       | Some g =>
           match parse_date g with
           | None => Ok None
           | Some d =>
               let a := days_between today d in
               p <- price_of_text txt ;;
               Ok (Some (mkcard col txt d a p))
           end
       end.

(** [for card in cards: ...], appending to [out]. *)
Fixpoint scan_cards (today : date) (col : string) (cands : list node)
         (out : list card) : result (list card) :=
  match cands with
  | [] => Ok out
  | cand :: cands' =>
      r <- card_of today col cand ;;
      scan_cards today col cands'
        (match r with Some c => out ++ [c] | None => out end)
  end.

(** Line 58: [outer.select("div.card") or outer.find_all("div", recursive=True)] *)
Definition candidates (outer : node) : list node :=
  match Soup.select_div_card (Soup.descendants outer) with
  | [] => Soup.find_all_div (Soup.descendants outer)
  | cs => cs
  end.

(** The body of the loop over the column containers (lines 53-75). *)
Definition scan_column (today : date) (outer : node) (out : list card)
  : result (list card) :=
  match Soup.find_div_class "_headerName_" (Soup.descendants outer) with
  | None => Ok out
  | Some header =>
      scan_cards today (Soup.get_text header) (candidates outer) out
  end.

Fixpoint scan_columns (today : date) (outers : list node) (out : list card)
  : result (list card) :=
  match outers with
  | [] => Ok out
  | outer :: outers' =>
      out' <- scan_column today outer out ;;
      scan_columns today outers' out'
  end.

(** [extract_cards], on the parsed document; [today] is the one reading of
    the clock made at line 49. *)
Definition extract_cards (today : date) (doc : list node) : result (list card) :=
  scan_columns today
    (Soup.find_all_div_class "_outerWrapper_" (Soup.doc_descendants doc)) [].

(* ================================================================== *)
(** ** Numbers: [int], [float], [statistics.mean] and [round] *)

Inductive pynum :=
| PyInt (n : Z)
| PyFloat (f : spec_float).

Module Num.

Definition prec : Z := 53.
Definition emax : Z := 1024.

(** An integer as an exact (unrounded) operand of a division. *)
Definition operand (n : Z) : spec_float :=
  match n with
  | Z0 => S754_zero false
  | Zpos p => S754_finite false p 0
  | Zneg p => S754_finite true p 0
  end.

(** [a / b] on two [int]s: the quotient correctly rounded to binary64,
    [OverflowError] when it is too large for a float. *)
Definition truediv (a b : Z) : result spec_float :=
  if b =? 0 then Raise ZeroDivisionError
  else match SFdiv prec emax (operand a) (operand b) with
       | S754_infinity _ => Raise OverflowError
       | f => Ok f
       end.

(** [sum(xs)] *)
Definition sum (xs : list Z) : Z := fold_left Z.add xs 0.

(** [len(xs)] *)
Definition len {A} (xs : list A) : Z := Z.of_nat (List.length xs).

(** What [statistics.mean] makes of the exact fraction [total / n] of
    [int] data: the [int] itself when the fraction is whole, else
    [float(fraction)], which is [numerator / denominator]. *)
Definition quotient (total n : Z) : result pynum :=
  if n =? 0 then Raise ZeroDivisionError
  else if total mod n =? 0 then Ok (PyInt (total / n))
  else f <- truediv total n ;; Ok (PyFloat f).

(** [statistics.mean(xs)], for a non-empty [xs]. *)
Definition mean (xs : list Z) : result pynum := quotient (sum xs) (len xs).

(** [a / b] rounded to the nearest integer, ties to even ([a >= 0], [b > 0]). *)
Definition div_half_even (a b : Z) : Z :=
  let q := a / b in
  let r := a mod b in
  match 2 * r ?= b with
  | Lt => q
  | Gt => q + 1
  | Eq => if Z.even q then q else q + 1
  end.

(** [round(x, 2)] on a [float]: the exact value of [x] is rounded to two
    decimals, ties to even, and the decimal is converted back to the
    nearest float. *)
Definition round2_float (f : spec_float) : spec_float :=
  match f with
  | S754_finite s m e =>
      let hundredths :=
        if 0 <=? e then 100 * Zpos m * 2 ^ e
        else div_half_even (100 * Zpos m) (2 ^ (- e)) in
      match hundredths with
      | Zpos k => SFdiv prec emax (S754_finite s k 0) (S754_finite false 100 0)
      | _ => S754_zero s
      end
  | _ => f
  end.

(** [round(x, 2)]: an [int] is returned as it is. *)
Definition round2 (x : pynum) : pynum :=
  match x with
  | PyInt n => PyInt n
  | PyFloat f => PyFloat (round2_float f)
  end.

Definition zero_float : pynum := PyFloat (S754_zero false).

End Num.

(** [avg]: [round(statistics.mean(xs), 2) if xs else 0.0] *)
Definition avg (xs : list Z) : result pynum :=
  match xs with
  | [] => Ok Num.zero_float
  | _ => m <- Num.mean xs ;; Ok (Num.round2 m)
  end.

(* ================================================================== *)
(** ** Configuration (lines 13-32) *)

Definition EXCLUDED_COLUMNS_FOR_AGE : list string :=
  ["Completed"; "Canceled"; "New Parts Request"].

Definition REQUESTED_LANES : list string :=
  ["Receipt Confirmed <7 days"; "Aging >7 Days"; "Stale >14 Days";
   "Assigned to Department"; "Parts Ordered"; "Arrived/In-Hand";
   "Contacted"; "Customer Unreachable"; "Scheduled"].

Definition FOCUSED_LABELS : list string :=
  ["Demand Repair"; "Install"; "Dispatch";
   "NOT COOLING/HEATING"; "Warranty"; "Comfort Shield Warranty"].

Definition ALL_LABELS : list string :=
  ["Backordered"; "Warranty"; "Escalation"; "Prepaid Service"; "COSTCO ESCALATION";
   "Demand Repair"; "1st Year Warranty"; "Install"; "Comfort Shield Warranty"; "Recall";
   "Schedule Return Visit"; "Electrical"; "Duct Cleaning"; "Senior Tech Callback";
   "Commercial"; "Possible Payment Issue"; "Replacement Opp"; "Manager Visit"; "Damage Claim";
   "NOT COOLING/HEATING"; "Multiple Systems"; "Missing Quote"; "READY TO SCHEDULE";
   "Missing Parts"; "URGENT"; "Dispatch"; "ISR - Service"; "Aging Card";
   "In Service Recovery - Stale"; "Call Customer"; "Check Warranty"; "Plumbing";
   "Truck Stock"; "Multiple Parts Request"].

(** [x in s] for a set of strings. *)
Definition mem (x : string) (s : list string) : bool :=
  existsb (String.eqb x) s.

(* ================================================================== *)
(** ** Aggregation ([build_report]) *)

Record scope_row := mk_scope_row {
  Scope : string;
  scope_Count : Z;
  scope_Average_Age : pynum
}.

Record lane_row := mk_lane_row {
  Lane : string;
  lane_Count : Z;
  lane_Average_Age : pynum
}.

Record label_row := mk_label_row {
  Label : string;
  label_Count : Z;
  label_Average_Age : pynum
}.

Record quoted_row := mk_quoted_row {
  Total_Value_Count : Z;
  Total_Value : Z;
  Average_Value : pynum;
  Total_Won_Count : Z;
  Total_Won : Z;
  Average_Won : pynum;
  Total_Lost_Count : Z;
  Total_Lost : Z;
  Average_Lost : pynum
}.

(** The four tables: the rows of the sheets "Scope", "Lane",
    "Quoted Prices" and "All Labels". *)
Record report := mk_report {
  scope_rows : list scope_row;
  lane_rows : list lane_row;
  quoted_stats : quoted_row;
  all_label_rows : list label_row
}.

(** Line 82: [[c for c in cards if c["column"] not in EXCLUDED_COLUMNS_FOR_AGE]] *)
Definition active_cards (cards : list card) : list card :=
  filter (fun c => negb (mem (column c) EXCLUDED_COLUMNS_FOR_AGE)) cards.

(** [[c["age"] for c in active if lbl.lower() in c["text"].lower()]] *)
Definition label_ages (lbl : string) (active : list card) : list Z :=
  map age
    (filter (fun c => Str.contains (Str.to_lower lbl) (Str.to_lower (text c)))
       active).

(** [[c["age"] for c in cards if c["column"] == lane]] *)
Definition lane_ages (lane : string) (cards : list card) : list Z :=
  map age (filter (fun c => String.eqb (column c) lane) cards).

(** [[c["price"] for c in cs if c["price"] is not None]] *)
Definition price_values (cs : list card) : list Z :=
  flat_map (fun c => match price c with Some p => [p] | None => [] end) cs.

(** [avg(xs) if xs else 0] *)
Definition avg_or_0 (xs : list Z) : result pynum :=
  match xs with
  | [] => Ok (PyInt 0)
  | _ => avg xs
  end.

(** [sum(xs) if xs else 0] *)
Definition sum_or_0 (xs : list Z) : Z :=
  match xs with
  | [] => 0
  | _ => Num.sum xs
  end.

(** Lines 90-96, one turn of the loop. *)
Definition focused_row (active : list card) (lbl : string) : result scope_row :=
  let ages := label_ages lbl active in
  a <- avg_or_0 ages ;;
  Ok (mk_scope_row lbl (Num.len ages) a).

(** Lines 98-102. *)
Fixpoint lane_table (cards : list card) (lanes : list string)
  : result (list lane_row) :=
  match lanes with
  | [] => Ok []
  | lane :: lanes' =>
      let ages := lane_ages lane cards in
      match ages with
      | [] => lane_table cards lanes'
      | _ =>
          a <- avg ages ;;
          rows <- lane_table cards lanes' ;;
          Ok (mk_lane_row lane (Num.len ages) a :: rows)
      end
  end.

(** Lines 122-124, one turn of the loop. *)
Definition label_table_row (active : list card) (lbl : string) : result label_row :=
  let ages := label_ages lbl active in
  a <- avg_or_0 ages ;;
  Ok (mk_label_row lbl (Num.len ages) a).

(** Lines 120-124: [if ALL_LABELS: for lbl in ALL_LABELS: ...] *)
Definition label_table (active : list card) (labels : list string)
  : result (list label_row) :=
  match labels with
  | [] => Ok []
  | _ => mapM (label_table_row active) labels
  end.

(** Lines 104-118. *)
Definition quoted_table (cards active : list card) : result quoted_row :=
  let active_prices := price_values active in
  let completed_prices :=
    price_values (filter (fun c => String.eqb (column c) "Completed") cards) in
  let canceled_prices :=
    price_values (filter (fun c => String.eqb (column c) "Canceled") cards) in
  av <- avg_or_0 active_prices ;;
  aw <- avg_or_0 completed_prices ;;
  al <- avg_or_0 canceled_prices ;;
  Ok (mk_quoted_row
        (Num.len active_prices) (sum_or_0 active_prices) av
        (Num.len completed_prices) (sum_or_0 completed_prices) aw
        (Num.len canceled_prices) (sum_or_0 canceled_prices) al).

(** [build_report]: the rows handed to the workbook writer (and, for the
    first three tables, to the page). *)
Definition build_report (cards : list card) : result report :=
  let active := active_cards cards in
  a0 <- avg (map age active) ;;
  let row0 :=
    mk_scope_row "All cards (excluding Completed/Canceled)" (Num.len active) a0 in
  focused <- mapM (focused_row active) FOCUSED_LABELS ;;
  lanes <- lane_table cards REQUESTED_LANES ;;
  quoted <- quoted_table cards active ;;
  labels <- label_table active ALL_LABELS ;;
  Ok (mk_report (row0 :: focused) lanes quoted labels).

(* ================================================================== *)
(** ** The parser: [BeautifulSoup(html_bytes, "html.parser")]

    The library's parser is outside the repository: it is a function of
    the bytes that returns the document tree or raises.  One family of
    inputs on which it raises is modelled here.  Markup that begins with an
    SGML marked section, [<![name[ ...], whose keyword is none of those
    [html.parser] knows makes [html.parser] fail an assertion
    ([_markupbase.parse_marked_section]), and BeautifulSoup raise
    [ParserRejectedMarkup].  The bytes are taken to be ASCII without [=]:
    they hold no declaration of an encoding, and every decoding
    BeautifulSoup tries gives the same characters. *)

Module Markup.

Definition between (lo hi c : N) : bool := ((lo <=? c) && (c <=? hi))%N.

Definition letter (c : N) : bool := between 65 90 c || between 97 122 c.

(** [[-_.a-zA-Z0-9]] *)
Definition name_char (c : N) : bool :=
  letter c || between 48 57 c || (c =? 45)%N || (c =? 95)%N || (c =? 46)%N.

(** [\s] on ASCII *)
Definition space (c : N) : bool := between 9 13 c || between 28 32 c.

Definition lower (c : N) : N := if between 65 90 c then (c + 32)%N else c.

Fixpoint drop_while (p : N -> bool) (cs : list N) : list N :=
  match cs with
  | c :: cs' => if p c then drop_while p cs' else cs
  | [] => []
  end.

Fixpoint take_while (p : N -> bool) (cs : list N) : list N :=
  match cs with
  | c :: cs' => if p c then c :: take_while p cs' else []
  | [] => []
  end.

Definition codes (s : string) : list N := map Byte.to_N (list_byte_of_string s).

(** The keywords [parse_marked_section] accepts. *)
Definition known_keywords : list (list N) :=
  map codes ["temp"; "cdata"; "ignore"; "include"; "rcdata"; "if"; "else"; "endif"].

Fixpoint same (a b : list N) : bool :=
  match a, b with
  | [], [] => true
  | x :: a', y :: b' => (x =? y)%N && same a' b'
  | _, _ => false
  end.

(** [_scan_name] followed by the test of the keyword, at a marked section
    that opens the markup: [None] when the parser does not object here. *)
Definition unknown_marked_section (cs : list N) : bool :=
  match cs with
  | 60 :: 33 :: 91 :: rest =>                       (* <![ *)
      match rest with
      | [] => false                                 (* nothing more: incomplete *)
      | c :: _ =>
          if letter c then
            let name := take_while name_char rest in
            match drop_while space (drop_while name_char rest) with
            | [] => false                           (* end of buffer *)
            | _ => negb (existsb (same (map lower name)) known_keywords)
            end
          else true                                 (* expected name token *)
      end
  | _ => false
  end%N.

Definition rejected (html : list Byte.byte) : bool :=
  let cs := map Byte.to_N html in
  forallb (fun c => (c <? 128)%N && negb (c =? 61)%N) cs
  && unknown_marked_section cs.

End Markup.

(* ================================================================== *)
(** ** One pass: the body of [analyze]

    The process state the handler runs in: the clock, as the date each
    successive reading of it gives, and the workbook kept by the previous
    request ([_last_workbook]): the tables written to it, and whether the
    buffer has been closed. *)

Record workbook := mk_workbook {
  sheets : report;
  closed : bool
}.

Record world := mk_world {
  clock : nat -> date;
  reads : nat;
  last_workbook : option workbook
}.

(** [datetime.now(timezone.utc).date()] *)
Definition now_utc_date (w : world) : date * world :=
  (clock w (reads w), mk_world (clock w) (S (reads w)) (last_workbook w)).

Section Analyze.
(** The library's parser on the markup it is not known to reject. *)
Variable html_parser : list Byte.byte -> result (list node).

(** [BeautifulSoup(html_bytes, "html.parser")] (line 48) *)
Definition BeautifulSoup (html : list Byte.byte) : result (list node) :=
  if Markup.rejected html then Raise ParserRejectedMarkup else html_parser html.

(** [cards = extract_cards(html); xlsx, summary = build_report(cards);
    _last_workbook = xlsx]: the document is parsed, then the clock is
    read (lines 48-49). *)
Definition analyze (w : world) (html : list Byte.byte)
  : result report * world :=
  match BeautifulSoup html with
  | Raise e => (Raise e, w)
  | Ok doc =>
      let (today, w1) := now_utc_date w in
      match extract_cards today doc with
      | Raise e => (Raise e, w1)
      | Ok cards =>
          match build_report cards with
          | Raise e => (Raise e, w1)
          | Ok rep =>
              (Ok rep,
               mk_world (clock w1) (reads w1) (Some (mk_workbook rep false)))
          end
      end
  end.
End Analyze.

(* ================================================================== *)
(** ** The notions the specification names *)

(** "the excluded set (Completed, Canceled, New Parts Request)" *)
Definition column_excluded (col : string) : Prop :=
  col = "Completed" \/ col = "Canceled" \/ col = "New Parts Request".

(** "the Cards whose column is not in the excluded set", as a list. *)
Fixpoint cards_outside_excluded (cards : list card) : list card :=
  match cards with
  | [] => []
  | c :: cs =>
      if String.eqb (column c) "Completed"
         || String.eqb (column c) "Canceled"
         || String.eqb (column c) "New Parts Request"
      then cards_outside_excluded cs
      else c :: cards_outside_excluded cs
  end.

Section Numbers.
Local Open Scope Q_scope.

(** The number a float stands for: its mantissa times a power of two. *)
Definition float_value (f : spec_float) : Q :=
  match f with
  | S754_finite s m e =>
      (if s then - inject_Z (Zpos m) else inject_Z (Zpos m)) * 2 ^ e
  | _ => 0
  end.

Definition is_finite (f : spec_float) : Prop :=
  match f with
  | S754_zero _ | S754_finite _ _ _ => True
  | _ => False
  end.

(** The number a metric of the report is. *)
Definition value (v : pynum) : Q :=
  match v with
  | PyInt n => inject_Z n
  | PyFloat f => float_value f
  end.

(** "[total / count] rounded to 2 decimal places" gives [k] hundredths, by
    a round-half rule: [k] is an integer nearest to [100 * total / count],
    and at a tie it is the even one or the one away from zero. *)
Definition hundredths_rounded (total count k : Z) : Prop :=
  (2 * Z.abs (100 * total - k * count) < count)%Z \/
  ((2 * Z.abs (100 * total - k * count) = count)%Z /\
   (Z.even k = true \/ (Z.abs (100 * total) < Z.abs (k * count))%Z)).

(** "the arithmetic mean of [xs] rounded to 2 decimal places", as the
    specification states it: the metric is that number of hundredths,
    as exactly as a float holds it (to one part in [2^52]). *)
Definition mean_rounded_2 (total count : Z) (v : pynum) : Prop :=
  exists k, hundredths_rounded total count k /\
    Qabs (value v - inject_Z k / 100) <= Qabs (inject_Z k / 100) / 2 ^ 52.

(** The mean rounded to two decimals as far as binary floating point lets
    it be: the mean itself, an [int], when it is a whole number; otherwise
    a float within one part in [2^52] of [k / 100], for an integer [k]
    within a half of [100 * mean] up to the error of the one division that
    computes the mean (one part in [2^52] of it). *)
Definition rounded_mean (total count : Z) (v : pynum) : Prop :=
  let mu := inject_Z total / inject_Z count in
  ((count | total)%Z -> v = PyInt (total / count)) /\
  (~ (count | total)%Z ->
   exists f k,
     v = PyFloat f /\ is_finite f /\
     Qabs (float_value f - inject_Z k / 100) <= Qabs (inject_Z k / 100) / 2 ^ 52 /\
     Qabs (inject_Z k / 100 - mu) <= 1 / 200 + (Qabs mu + 1) / 2 ^ 52).

End Numbers.

(** [round(sum / count, 2)], the expression evaluated as Python does. *)
Definition python_round_div (sum count : Z) : result pynum :=
  f <- Num.truediv sum count ;; Ok (PyFloat (Num.round2_float f)).

Fixpoint total (xs : list Z) : Z :=
  match xs with
  | [] => 0
  | x :: xs' => x + total xs'
  end.

(** The sum of the magnitudes of [xs]. *)
Definition abs_total (xs : list Z) : Z := total (map Z.abs xs).

(** The three populations of the price summary, in the claim's words:
    the cards outside the excluded columns, those of the won column and
    those of the lost column. *)
Definition active_population (c : card) : bool :=
  negb (String.eqb (column c) "Completed"
        || String.eqb (column c) "Canceled"
        || String.eqb (column c) "New Parts Request").
Definition won_population (c : card) : bool := String.eqb (column c) "Completed".
Definition lost_population (c : card) : bool := String.eqb (column c) "Canceled".

(** The cards of a population that have a price, counted. *)
Fixpoint priced_count (pop : card -> bool) (cards : list card) : Z :=
  match cards with
  | [] => 0
  | c :: cs =>
      (if pop c then match price c with Some _ => 1 | None => 0 end else 0)
      + priced_count pop cs
  end.

(** Their prices, added up. *)
Fixpoint priced_sum (pop : card -> bool) (cards : list card) : Z :=
  match cards with
  | [] => 0
  | c :: cs =>
      (if pop c then match price c with Some p => p | None => 0 end else 0)
      + priced_sum pop cs
  end.

(** Count, sum and mean of one population agree with each other. *)
Definition consistent (count sum : Z) (mean : pynum) : Prop :=
  (0 < count -> rounded_mean sum count mean) /\
  (count = 0 -> sum = 0 /\ mean = PyInt 0).

(** The words a regular expression matches. *)
Fixpoint re_lang (icase : bool) (r : regex) (w : string) : Prop :=
  match r with
  | Eps => w = EmptyString
  | Chr a => exists c, w = String c EmptyString /\ chr_matches icase a c = true
  | Cls p => exists c, w = String c EmptyString /\ p c = true
  | Seq r1 r2 =>
      exists w1 w2, w = w1 ++ w2 /\ re_lang icase r1 w1 /\ re_lang icase r2 w2
  | Alt r1 r2 => re_lang icase r1 w \/ re_lang icase r2 w
  | Rep p lo hi =>
      Str.forallb p w = true /\ (lo <= String.length w)%nat /\
      match hi with Some h => (String.length w <= h)%nat | None => True end
  | Grp _ r1 => re_lang icase r1 w
  end.

(** A metric that is zero: the [int] 0 or the [float] 0.0. *)
Definition is_zero (v : pynum) : Prop :=
  v = PyInt 0 \/ v = PyFloat (S754_zero false).

(** "report tables whose counts, sums, and averages are all zero" *)
Definition all_zero (rep : report) : Prop :=
  Forall (fun r => scope_Count r = 0 /\ is_zero (scope_Average_Age r)) (scope_rows rep) /\
  Forall (fun r => lane_Count r = 0 /\ is_zero (lane_Average_Age r)) (lane_rows rep) /\
  quoted_stats rep =
    mk_quoted_row 0 0 (PyInt 0) 0 0 (PyInt 0) 0 0 (PyInt 0) /\
  Forall (fun r => label_Count r = 0 /\ is_zero (label_Average_Age r)) (all_label_rows rep).

(** A candidate without a readable date: no "Received" marker followed by
    a date token, or a token that is not a date. *)
Definition undated (cand : node) : Prop :=
  match search_group1 DATE_PAT (Soup.get_text cand) with
  | Some g => parse_date g = None
  | None => True
  end.

(** "no parseable column/card structure": every column container lacks a
    header, or has no dated candidate. *)
Definition no_cards (doc : list node) : Prop :=
  forall outer,
    In outer (Soup.find_all_div_class "_outerWrapper_" (Soup.doc_descendants doc)) ->
    Soup.find_div_class "_headerName_" (Soup.descendants outer) = None \/
    forall cand, In cand (candidates outer) -> undated cand.

(** "bytes [that] are empty or contain no parseable column/card
    structure": whatever document the parser makes of them has no card. *)
Definition no_structure (html_parser : list Byte.byte -> result (list node))
    (html : list Byte.byte) : Prop :=
  forall doc, BeautifulSoup html_parser html = Ok doc -> no_cards doc.

(** Markup the parser rejects: [<![x[]. *)
Definition markup_unknown_section : list Byte.byte :=
  list_byte_of_string "<![x[".

(** Documents to run the extractor on: a column container with its header
    and the given children. *)
Definition column_div (header : node) (body : list node) : node :=
  Elem "div" ["_outerWrapper_1x2y"] (header :: body).

Definition header_div (name : string) : node :=
  Elem "div" ["_headerName_9z"] [Text name].

Definition card_div (txt : string) : node :=
  Elem "div" ["card"] [Text txt].

(** A card without the [card] class. *)
Definition plain_div (txt : string) : node :=
  Elem "div" [] [Text txt].

(** [n] inside [k] more [div]s. *)
Fixpoint wrap (k : nat) (n : node) : node :=
  match k with
  | O => n
  | S k' => Elem "div" [] [wrap k' n]
  end.

(** [n] and the [k] [div]s around it, outermost first. *)
Fixpoint wraps (k : nat) (n : node) : list node :=
  match k with
  | O => [n]
  | S k' => wrap (S k') n :: wraps k' n
  end.

Definition sample_today : date := mkdate 2023 1 12.

(** One well-formed card. *)
Definition doc_good : list node :=
  [column_div (header_div "Scheduled")
     [card_div "Received: 01/02/23 Quoted Price $1,200"]].

(** The same, followed by a card whose price has no digit. *)
Definition doc_comma_price : list node :=
  [column_div (header_div "Scheduled")
     [card_div "Received: 01/02/23 Quoted Price $1,200";
      card_div "Received: 01/03/23 Quoted Price: , TBD"]].

(** A card dated in the ISO form. *)
Definition doc_iso : list node :=
  [column_div (header_div "Scheduled") [card_div "Received: 2023-01-02"]].


(** Forty cards, 27 aged 3 days and 13 aged 2: their mean age is 2.675. *)
Definition doc_mean_2_675 : list node :=
  [column_div (header_div "Scheduled")
     (repeat (card_div "Received: 01/09/23") 27 ++
      repeat (card_div "Received: 01/10/23") 13)].

Definition cards_mean_2_675 : list card :=
  repeat (mkcard "Scheduled" "Received: 01/09/23" (mkdate 2023 1 9) 3 None) 27 ++
  repeat (mkcard "Scheduled" "Received: 01/10/23" (mkdate 2023 1 10) 2 None) 13.

(** Forty priced cards, 27 at 3 and 13 at 2: their mean price is 2.675. *)
Definition cards_mean_price_2_675 : list card :=
  repeat (mkcard "Scheduled" "Received: 01/09/23 Quoted Price 3"
            (mkdate 2023 1 9) 3 (Some 3)) 27 ++
  repeat (mkcard "Scheduled" "Received: 01/10/23 Quoted Price 2"
            (mkdate 2023 1 10) 2 (Some 2)) 13.

(** One card priced [2^53 + 1], which no float holds. *)
Definition card_priced_2_53_1 : card :=
  mkcard "Scheduled" "Received: 01/09/23 Quoted Price 9007199254740993"
    (mkdate 2023 1 9) 3 (Some 9007199254740993).

(** The report of [doc_good] on [sample_today]. *)
Definition sample_report_good : report :=
  Eval vm_compute in
    match extract_cards sample_today doc_good with
    | Ok cards =>
        match build_report cards with
        | Ok r => r
        | Raise _ =>
            mk_report [] [] (mk_quoted_row 0 0 (PyInt 0) 0 0 (PyInt 0) 0 0 (PyInt 0)) []
        end
    | Raise _ =>
        mk_report [] [] (mk_quoted_row 0 0 (PyInt 0) 0 0 (PyInt 0) 0 0 (PyInt 0)) []
    end.

(** A few cards to run the aggregator on. *)
Definition sample_cards : list card :=
  [ mkcard "Scheduled" "Received: 01/02/23 Install Quoted Price $1,200"
      (mkdate 2023 1 2) 10 (Some 1200);
    mkcard "Scheduled" "Received: 01/05/23 Dispatch"
      (mkdate 2023 1 5) 7 None;
    mkcard "Completed" "Received: 01/03/23 Quoted Price 75"
      (mkdate 2023 1 3) 9 (Some 75);
    mkcard "Contacted" "Received: 01/04/23 warranty Quoted Price: 300"
      (mkdate 2023 1 4) 8 (Some 300) ].

Definition sample_report : report :=
  Eval vm_compute in
    match build_report sample_cards with
    | Ok r => r
    | Raise _ => mk_report [] [] (mk_quoted_row 0 0 (PyInt 0) 0 0 (PyInt 0) 0 0 (PyInt 0)) []
    end.

(* ================================================================== *)
(** ** The request handlers (lines 209-240)

    [_last_workbook] is the [last_workbook] of the [world]; a response is
    what the route returns, [ServerError] standing for the reply the
    framework makes of an uncaught exception. *)

(** An uploaded file part: [request.files.get("file")]. *)
Record upload := mk_upload {
  filename : string;
  content : list Byte.byte
}.

Inductive response :=
| IndexPage
| BadRequest (msg : string)
| ReportPage (scope : list scope_row) (lanes : list lane_row) (quoted : quoted_row)
| Attachment (workbook : report) (download_name : string)
| ServerError (e : exn).

(** [str(d)] for a date: [YYYY-MM-DD]. *)
Definition digit_char (n : Z) : ascii := ascii_of_N (Z.to_N (48 + n mod 10)).

Definition pad2 (n : Z) : string :=
  String (digit_char (n / 10)) (String (digit_char n) EmptyString).

Definition pad4 (n : Z) : string :=
  String (digit_char (n / 1000)) (String (digit_char (n / 100)) (pad2 n)).

Definition isoformat (d : date) : string :=
  (pad4 (year d) ++ "-" ++ pad2 (month d) ++ "-" ++ pad2 (day d))%string.

Inductive request :=
| GetIndex
| PostAnalyze (file : option upload)
| GetDownload (local_today : date).

Section Routes.
Variable html_parser : list Byte.byte -> result (list node).

(** [analyze]: [if not file] holds without a file part and for a part
    without a file name; the page shows the three tables of [summary]. *)
Definition analyze_route (w : world) (file : option upload) : response * world :=
  match file with
  | None => (BadRequest "No file uploaded", w)
  | Some up =>
      if Str.is_empty (filename up) then (BadRequest "No file uploaded", w)
      else match analyze html_parser w (content up) with
           | (Ok rep, w') =>
               (ReportPage (scope_rows rep) (lane_rows rep) (quoted_stats rep), w')
           | (Raise e, w') => (ServerError e, w')
           end
  end.

(** [download]; [local_today] is [datetime.now().date()].  A buffer is
    true whether open or closed, so line 232 only asks whether a workbook
    was ever kept; [seek] raises [ValueError] on a closed buffer (line
    234); [send_file] hands the buffer to the response, which closes it
    once it has been sent. *)
Definition download_route (w : world) (local_today : date) : response * world :=
  match last_workbook w with
  | None => (BadRequest "No report available. Upload a file first.", w)
  | Some wb =>
      if closed wb then (ServerError ValueError, w)
      else
        (Attachment (sheets wb)
           ("planka_report_" ++ isoformat local_today ++ ".xlsx")%string,
         mk_world (clock w) (reads w) (Some (mk_workbook (sheets wb) true)))
  end.

Definition handle (w : world) (r : request) : response * world :=
  match r with
  | GetIndex => (IndexPage, w)
  | PostAnalyze file => analyze_route w file
  | GetDownload local_today => download_route w local_today
  end.

(** The requests of a process, served one after the other. *)
Fixpoint serve (w : world) (rs : list request) : list response * world :=
  match rs with
  | [] => ([], w)
  | r :: rs' =>
      let (resp, w1) := handle w r in
      let (resps, w2) := serve w1 rs' in
      (resp :: resps, w2)
  end.
End Routes.

(* ================================================================== *)
(** ** Further notions for the properties *)

(** A date the [date] constructor accepts. *)
Definition date_ok (d : date) : Prop :=
  valid_date (year d) (month d) (day d) = true.

(** Calendar order. *)
Definition date_lt (a b : date) : Prop :=
  year a < year b \/
  (year a = year b /\
   (month a < month b \/ (month a = month b /\ day a < day b))).

(** The words a regular expression matches, with the groups they fill,
    the group closed last first. *)
Fixpoint re_caps (icase : bool) (r : regex) (w : string) (gs : captures) : Prop :=
  match r with
  | Eps => w = EmptyString /\ gs = []
  | Chr a =>
      (exists c, w = String c EmptyString /\ chr_matches icase a c = true) /\ gs = []
  | Cls p => (exists c, w = String c EmptyString /\ p c = true) /\ gs = []
  | Seq r1 r2 =>
      exists w1 w2 g1 g2,
        w = (w1 ++ w2)%string /\ re_caps icase r1 w1 g1 /\
        re_caps icase r2 w2 g2 /\ gs = (g2 ++ g1)%list
  | Alt r1 r2 => re_caps icase r1 w gs \/ re_caps icase r2 w gs
  | Rep p lo hi =>
      (Str.forallb p w = true /\ (lo <= String.length w)%nat /\
       match hi with Some h => (String.length w <= h)%nat | None => True end) /\
      gs = []
  | Grp name r1 => exists g1, re_caps icase r1 w g1 /\ gs = (name, w) :: g1
  end.

Definition digit_or_space (c : ascii) : bool := Str.is_digit c || Str.is_space c.









(** Dates written out the way the formats of [parse_date] read them:
    [strftime] with month/day/two-digit year and with month/day/four-digit
    year; [isoformat] is the third. *)
Definition render_mdy (d : date) : string :=
  (pad2 (month d) ++ "/" ++ pad2 (day d) ++ "/" ++ pad2 (year d mod 100))%string.
Definition render_mdY (d : date) : string :=
  (pad2 (month d) ++ "/" ++ pad2 (day d) ++ "/" ++ pad4 (year d))%string.

(** Two cards whose prices do not average to a float. *)
Definition huge_price_cards : list card :=
  [ mkcard "Scheduled" "Received: 01/02/23 Quoted Price (too long to print)"
      (mkdate 2023 1 2) 10 (Some (2 ^ 1025));
    mkcard "Scheduled" "Received: 01/02/23 Quoted Price 1"
      (mkdate 2023 1 2) 10 (Some 1) ].

(* ================================================================== *)
(** * Properties *)

(** ** Generic facts: the exception monad and lists *)

Ltac bind_ok H :=
  match type of H with
  | bind ?m _ = Ok _ =>
      let E := fresh "E" in
      destruct m eqn:E; cbn [bind] in H; [ | discriminate H ]
  end.

Lemma mapM_ok_Forall2 {A B} (f : A -> result B) xs ys :
  mapM f xs = Ok ys -> Forall2 (fun x y => f x = Ok y) xs ys.
Proof.
  revert ys; induction xs as [ | x xs IH]; intros ys H; cbn [mapM] in H.
  - injection H as <-. constructor.
  - bind_ok H. bind_ok H. injection H as <-. constructor; auto.
Qed.

Lemma Forall2_map_fst {A B C} (R : A -> B -> Prop) (g : B -> C) (h : A -> C) xs ys :
  Forall2 R xs ys -> (forall x y, R x y -> g y = h x) -> map g ys = map h xs.
Proof.
  induction 1 as [ | x y xs ys Hxy _ IH]; intros Hg; cbn [map].
  - reflexivity.
  - rewrite (Hg _ _ Hxy), IH by assumption. reflexivity.
Qed.

Lemma len_nonneg {A} (xs : list A) : 0 <= Num.len xs.
Proof. unfold Num.len. lia. Qed.

Lemma len_zero_nil {A} (xs : list A) : Num.len xs = 0 -> xs = [].
Proof. unfold Num.len. destruct xs; cbn [List.length]; [reflexivity | lia]. Qed.

(** ** The aggregator, table by table *)

Lemma build_report_inv cards rep :
  build_report cards = Ok rep ->
  exists a0 focused lanes quoted labels,
    avg (map age (active_cards cards)) = Ok a0 /\
    mapM (focused_row (active_cards cards)) FOCUSED_LABELS = Ok focused /\
    lane_table cards REQUESTED_LANES = Ok lanes /\
    quoted_table cards (active_cards cards) = Ok quoted /\
    label_table (active_cards cards) ALL_LABELS = Ok labels /\
    rep = mk_report
            (mk_scope_row "All cards (excluding Completed/Canceled)"
               (Num.len (active_cards cards)) a0 :: focused)
            lanes quoted labels.
Proof.
  unfold build_report. intros H.
  bind_ok H. bind_ok H. bind_ok H. bind_ok H. bind_ok H.
  injection H as <-. do 5 eexists. repeat split; reflexivity.
Qed.

Lemma label_table_mapM active labels :
  label_table active labels = mapM (label_table_row active) labels.
Proof. destruct labels; reflexivity. Qed.

Lemma mem_excluded_spec (col : string) :
  mem col EXCLUDED_COLUMNS_FOR_AGE = true <->
  col = "Completed" \/ col = "Canceled" \/ col = "New Parts Request".
Proof.
  unfold mem, EXCLUDED_COLUMNS_FOR_AGE. cbn [existsb].
  rewrite !Bool.orb_true_iff, !String.eqb_eq. intuition (try discriminate; auto).
Qed.

Lemma sum_total_acc xs acc : fold_left Z.add xs acc = acc + total xs.
Proof.
  revert acc; induction xs as [ | x xs IH]; intros acc; cbn [fold_left total].
  - lia.
  - rewrite IH. lia.
Qed.

Lemma sum_total xs : Num.sum xs = total xs.
Proof. unfold Num.sum. rewrite sum_total_acc. lia. Qed.

Lemma active_cards_spec cards : active_cards cards = cards_outside_excluded cards.
Proof.
  unfold active_cards.
  induction cards as [ | c cs IH]; cbn [filter cards_outside_excluded]; [reflexivity | ].
  rewrite IH. unfold mem, EXCLUDED_COLUMNS_FOR_AGE. cbn [existsb].
  rewrite Bool.orb_false_r, Bool.orb_assoc.
  destruct (_ || _ || _); reflexivity.
Qed.

Lemma In_cards_outside_excluded c cards :
  In c (cards_outside_excluded cards) <->
  In c cards /\ ~ column_excluded (column c).
Proof.
  rewrite <- active_cards_spec. unfold active_cards. rewrite filter_In.
  rewrite Bool.negb_true_iff, <- Bool.not_true_iff_false, mem_excluded_spec.
  reflexivity.
Qed.

Lemma avg_empty a : avg [] = Ok a -> a = Num.zero_float.
Proof. cbn. congruence. Qed.

(* ================================================================== *)
(** ** Division of integers of moderate size does not overflow

    The only exception the aggregator can raise is the [OverflowError] of
    [float(fraction)]; it takes a total of at least [2^1023]. *)

Lemma digits2_pos_gt p : Zpos p < 2 ^ Zpos (digits2_pos p).
Proof.
  induction p as [p IH | p IH | ]; cbn [digits2_pos].
  - rewrite Pos2Z.inj_succ, Z.pow_succ_r by lia. lia.
  - rewrite Pos2Z.inj_succ, Z.pow_succ_r by lia. lia.
  - reflexivity.
Qed.

Lemma digits2_pos_le p : forall k, Zpos p < 2 ^ k -> Zpos (digits2_pos p) <= k.
Proof.
  induction p as [p IH | p IH | ]; intros k H; cbn [digits2_pos].
  - destruct (Z_lt_le_dec k 1) as [Hk | Hk].
    + assert (2 ^ k <= 2 ^ 1) by (destruct (Z_lt_le_dec k 0); [rewrite Z.pow_neg_r by lia; lia | apply Z.pow_le_mono_r; lia]).
      lia.
    + replace k with (Z.succ (k - 1)) in H by lia. rewrite Z.pow_succ_r in H by lia.
      rewrite Pos2Z.inj_succ. specialize (IH (k - 1)). lia.
  - destruct (Z_lt_le_dec k 1) as [Hk | Hk].
    + assert (2 ^ k <= 2 ^ 1) by (destruct (Z_lt_le_dec k 0); [rewrite Z.pow_neg_r by lia; lia | apply Z.pow_le_mono_r; lia]).
      lia.
    + replace k with (Z.succ (k - 1)) in H by lia. rewrite Z.pow_succ_r in H by lia.
      rewrite Pos2Z.inj_succ. specialize (IH (k - 1)). lia.
  - destruct (Z_lt_le_dec k 1) as [Hk | Hk]; [ | lia].
    assert (2 ^ k <= 2 ^ 0) by (destruct (Z_lt_le_dec k 0); [rewrite Z.pow_neg_r by lia; lia | apply Z.pow_le_mono_r; lia]).
    change (2 ^ 0) with 1 in *. lia.
Qed.

Lemma Zdigits2_nonneg m : 0 <= Zdigits2 m.
Proof. destruct m; cbn; lia. Qed.

Lemma Zdigits2_le m k : 0 <= m -> 0 <= k -> m < 2 ^ k -> Zdigits2 m <= k.
Proof.
  intros Hm Hk H. destruct m as [ | p | p]; cbn [Zdigits2]; try lia.
  apply digits2_pos_le. exact H.
Qed.

Lemma Zdigits2_gt m : 0 <= m -> m < 2 ^ Zdigits2 m.
Proof.
  intros Hm. destruct m as [ | p | p]; cbn [Zdigits2]; try lia.
  apply digits2_pos_gt.
Qed.

Lemma shr_1_m r : 0 <= shr_m r -> shr_m (shr_1 r) = shr_m r / 2.
Proof.
  destruct r as [m rb sb]. cbn [shr_m shr_1]. intros Hm.
  destruct m as [ | [p | p | ] | p]; cbn [shr_m]; try lia.
  - reflexivity.
  - rewrite Pos2Z.inj_xI. apply Z.div_unique with (r := 1); lia.
  - rewrite Pos2Z.inj_xO. apply Z.div_unique with (r := 0); lia.
  - reflexivity.
Qed.

Lemma pow2_xO p : 2 ^ Zpos p~0 = 2 ^ Zpos p * 2 ^ Zpos p.
Proof. rewrite Pos2Z.inj_xO, <- Z.pow_add_r by lia. f_equal. lia. Qed.

Lemma pow2_xI p : 2 ^ Zpos p~1 = 2 * (2 ^ Zpos p * 2 ^ Zpos p).
Proof.
  rewrite Pos2Z.inj_xI, <- Z.pow_add_r by lia.
  replace (2 * Zpos p + 1) with (Z.succ (Zpos p + Zpos p)) by lia.
  apply Z.pow_succ_r. lia.
Qed.

Lemma iter_shr_m p : forall r, 0 <= shr_m r ->
  shr_m (SpecFloat.iter_pos shr_1 p r) = shr_m r / 2 ^ Zpos p.
Proof.
  assert (Hpos : forall q, 0 < 2 ^ Zpos q) by (intro q; apply Z.pow_pos_nonneg; lia).
  assert (Hnn : forall r, 0 <= shr_m r -> 0 <= shr_m (shr_1 r)).
  { intros r Hr. rewrite shr_1_m by exact Hr. apply Z.div_pos; lia. }
  induction p as [p IH | p IH | ]; intros r Hr; cbn [SpecFloat.iter_pos].
  - pose proof (Hpos p) as Hp.
    assert (H1 : 0 <= shr_m (SpecFloat.iter_pos shr_1 p (shr_1 r))).
    { rewrite IH by auto. apply Z.div_pos; auto. }
    rewrite IH, IH, shr_1_m by auto.
    rewrite !Z.div_div by lia. rewrite pow2_xI. f_equal; lia.
  - pose proof (Hpos p) as Hp.
    assert (H1 : 0 <= shr_m (SpecFloat.iter_pos shr_1 p r)).
    { rewrite IH by auto. apply Z.div_pos; auto. }
    rewrite IH, IH by auto.
    rewrite !Z.div_div by lia. rewrite pow2_xO. reflexivity.
  - rewrite shr_1_m by exact Hr. reflexivity.
Qed.

Lemma fexp64_eq e : fexp 53 1024 e = Z.max (e - 53) (-1074).
Proof. reflexivity. Qed.

Lemma shr_record_of_loc_m m l : shr_m (shr_record_of_loc m l) = m.
Proof. destruct l as [ | []]; reflexivity. Qed.

Lemma round_nearest_even_bounds m l :
  m <= round_nearest_even m l <= m + 1.
Proof. unfold round_nearest_even. destruct l as [ | []]; try destruct (Z.even m); lia. Qed.

(** Shifting to the exponent [fexp] asks for: the exponent reached and a
    bound on the digits left. *)
Lemma shr_fexp_bounds m e l mrs e1 :
  0 <= m ->
  shr_fexp 53 1024 m e l = (mrs, e1) ->
  0 <= shr_m mrs /\
  e1 = Z.max e (fexp 53 1024 (Zdigits2 m + e)) /\
  Zdigits2 (shr_m mrs) + e1 <= Z.max (Zdigits2 m + e) e1.
Proof.
  intros Hm. unfold shr_fexp, shr.
  pose proof (Zdigits2_nonneg m) as Hd.
  pose proof (Zdigits2_gt m Hm) as Hlt.
  destruct (fexp 53 1024 (Zdigits2 m + e) - e) as [ | p | p] eqn:En;
    intros H; injection H as <- <-.
  - rewrite shr_record_of_loc_m. lia.
  - assert (Hs : shr_m (SpecFloat.iter_pos shr_1 p (shr_record_of_loc m l)) = m / 2 ^ Zpos p).
    { rewrite iter_shr_m; rewrite shr_record_of_loc_m; auto. }
    rewrite Hs.
    assert (Hp : 0 < 2 ^ Zpos p) by (apply Z.pow_pos_nonneg; lia).
    split; [apply Z.div_pos; lia | ]. split; [lia | ].
    destruct (Z_lt_le_dec (Zdigits2 m) (Zpos p)) as [Hsmall | Hbig].
    + assert (m / 2 ^ Zpos p = 0).
      { apply Z.div_small. split; [lia | ].
        apply Z.lt_le_trans with (2 ^ Zdigits2 m); [lia | ].
        apply Z.pow_le_mono_r; lia. }
      rewrite H. cbn [Zdigits2]. lia.
    + assert (Zdigits2 (m / 2 ^ Zpos p) <= Zdigits2 m - Zpos p).
      { apply Zdigits2_le; [apply Z.div_pos; lia | lia | ].
        apply Z.div_lt_upper_bound; [lia | ].
        rewrite <- Z.pow_add_r by lia.
        replace (Zpos p + (Zdigits2 m - Zpos p)) with (Zdigits2 m) by lia. lia. }
      lia.
  - rewrite shr_record_of_loc_m. lia.
Qed.

Lemma Zdigits2_succ m : 0 <= m -> Zdigits2 (m + 1) <= Zdigits2 m + 1.
Proof.
  intros Hm. pose proof (Zdigits2_gt m Hm). pose proof (Zdigits2_nonneg m).
  apply Zdigits2_le; try lia.
  rewrite Z.pow_add_r by lia. change (2 ^ 1) with 2. lia.
Qed.

Lemma Zdigits2_mono m n : 0 <= m <= n -> Zdigits2 m <= Zdigits2 n.
Proof.
  intros H. pose proof (Zdigits2_gt n ltac:(lia)). pose proof (Zdigits2_nonneg n).
  apply Zdigits2_le; lia.
Qed.

(** Rounding a mantissa whose top bit lies below [2^1023] never gives an
    infinity. *)
Lemma binary_round_aux_finite sx m e l :
  0 <= m -> e <= 0 -> Zdigits2 m + e <= 1023 ->
  forall s, binary_round_aux 53 1024 sx m e l <> S754_infinity s.
Proof.
  intros Hm He Hd s. unfold binary_round_aux.
  destruct (shr_fexp 53 1024 m e l) as [mrs1 e1] eqn:E1.
  destruct (shr_fexp_bounds _ _ _ _ _ Hm E1) as (Hm1 & He1 & Hd1).
  pose proof (round_nearest_even_bounds (shr_m mrs1) (loc_of_shr_record mrs1)) as Hr.
  set (m2 := round_nearest_even (shr_m mrs1) (loc_of_shr_record mrs1)) in *.
  destruct (shr_fexp 53 1024 m2 e1 loc_Exact) as [mrs2 e2] eqn:E2.
  assert (Hm2' : 0 <= m2) by lia.
  destruct (shr_fexp_bounds _ _ _ _ _ Hm2' E2) as (Hm2 & He2 & Hd2).
  assert (Hdm2 : Zdigits2 m2 <= Zdigits2 (shr_m mrs1) + 1).
  { apply Z.le_trans with (Zdigits2 (shr_m mrs1 + 1)).
    - apply Zdigits2_mono. lia.
    - apply Zdigits2_succ. exact Hm1. }
  rewrite fexp64_eq in He1, He2.
  destruct (shr_m mrs2); try discriminate.
  replace (1024 - 53) with 971 by reflexivity.
  destruct (Z.leb_spec e2 971); [discriminate | ]. lia.
Qed.

Lemma SFdiv_core_bounds ma mb q e' l :
  SFdiv_core_binary 53 1024 (Zpos ma) 0 (Zpos mb) 0 = (q, e', l) ->
  0 <= q /\ e' <= 0 /\ Zdigits2 q + e' <= Zdigits2 (Zpos ma).
Proof.
  unfold SFdiv_core_binary.
  set (d1 := Zdigits2 (Zpos ma)). set (d2 := Zdigits2 (Zpos mb)).
  set (e0 := Z.min (fexp 53 1024 (d1 + 0 - (d2 + 0))) (0 - 0)).
  assert (He0 : e0 <= 0) by (unfold e0; lia).
  set (m' := match 0 - 0 - e0 with
             | 0 => Zpos ma
             | Zpos _ => Z.shiftl (Zpos ma) (0 - 0 - e0)
             | Zneg _ => 0
             end).
  assert (Hm' : m' = Zpos ma * 2 ^ (- e0)).
  { unfold m'. replace (0 - 0 - e0) with (- e0) by lia.
    destruct (- e0) as [ | p | p] eqn:E; try lia.
    rewrite Z.shiftl_mul_pow2 by lia. reflexivity. }
  destruct (Z.div_eucl m' (Zpos mb)) as [q0 r0] eqn:Ed.
  intros H. injection H as <- <- <-.
  assert (Hq : q0 = m' / Zpos mb) by (unfold Z.div; rewrite Ed; reflexivity).
  assert (Hpow : 0 < 2 ^ (- e0)) by (apply Z.pow_pos_nonneg; lia).
  assert (Hm'pos : 0 <= m') by (rewrite Hm'; lia).
  assert (Hq0 : 0 <= q0) by (rewrite Hq; apply Z.div_pos; lia).
  split; [exact Hq0 | ]. split; [exact He0 | ].
  pose proof (Zdigits2_gt (Zpos ma) ltac:(lia)) as Hd1. fold d1 in Hd1.
  pose proof (Zdigits2_nonneg (Zpos ma)) as Hd1n. fold d1 in Hd1n.
  assert (Zdigits2 q0 <= d1 - e0); [ | lia].
  apply Zdigits2_le; try lia.
  apply Z.le_lt_trans with m'.
  - rewrite Hq. apply Z.div_le_upper_bound; [lia | ]. nia.
  - rewrite Hm'. replace (d1 - e0) with (d1 + - e0) by lia.
    rewrite Z.pow_add_r by lia. nia.
Qed.

Lemma truediv_returns a b :
  0 < b -> Z.abs a < 2 ^ 1023 -> exists f, Num.truediv a b = Ok f.
Proof.
  intros Hb Ha. unfold Num.truediv.
  destruct (Z.eqb_spec b 0) as [-> | _]; [lia | ].
  destruct b as [ | mb | mb]; try lia.
  assert (Hfin : forall s, SFdiv Num.prec Num.emax (Num.operand a) (Num.operand (Zpos mb))
                           <> S754_infinity s).
  { intro s. destruct a as [ | ma | ma]; cbn [Num.operand SFdiv]; try discriminate.
    - destruct (SFdiv_core_binary _ _ _ _ _ _) as [[q e'] l] eqn:E.
      destruct (SFdiv_core_bounds _ _ _ _ _ E) as (Hq & He & Hd).
      apply binary_round_aux_finite; try assumption.
      assert (Zdigits2 (Zpos ma) <= 1023) by (apply Zdigits2_le; lia). lia.
    - destruct (SFdiv_core_binary _ _ _ _ _ _) as [[q e'] l] eqn:E.
      destruct (SFdiv_core_bounds _ _ _ _ _ E) as (Hq & He & Hd).
      apply binary_round_aux_finite; try assumption.
      assert (Zdigits2 (Zpos ma) <= 1023) by (apply Zdigits2_le; lia). lia. }
  destruct (SFdiv _ _ _ _) as [s | s | | s m e]; eauto.
  exfalso. apply (Hfin s). reflexivity.
Qed.

Lemma avg_returns xs :
  Z.abs (total xs) < 2 ^ 1023 -> exists v, avg xs = Ok v.
Proof.
  intros H. destruct xs as [ | x xs]; [cbn; eauto | ].
  unfold avg, Num.mean, Num.quotient. rewrite sum_total.
  assert (Hlen : 0 < Num.len (x :: xs)) by (unfold Num.len; cbn [List.length]; lia).
  destruct (Z.eqb_spec (Num.len (x :: xs)) 0) as [E | _]; [lia | ].
  destruct (_ mod _ =? 0); [cbn; eauto | ].
  destruct (truediv_returns _ _ Hlen H) as (f & ->). cbn. eauto.
Qed.

Lemma abs_total_bound xs : Z.abs (total xs) <= abs_total xs.
Proof.
  unfold abs_total. induction xs as [ | x xs IH]; cbn [map total]; lia.
Qed.

Lemma abs_total_nonneg xs : 0 <= abs_total xs.
Proof.
  unfold abs_total. induction xs as [ | x xs IH]; cbn [map total]; lia.
Qed.

Lemma abs_total_ages_filter (p : card -> bool) cs :
  abs_total (map age (filter p cs)) <= abs_total (map age cs).
Proof.
  unfold abs_total. induction cs as [ | c cs IH]; cbn [filter map total]; [lia | ].
  destruct (p c); cbn [map total]; lia.
Qed.

Lemma abs_total_prices_filter (p : card -> bool) cs :
  abs_total (price_values (filter p cs)) <= abs_total (price_values cs).
Proof.
  induction cs as [ | c cs IH]; cbn [filter]; [lia | ].
  pose proof (abs_total_nonneg (price_values cs)).
  unfold price_values in *. destruct (p c); cbn [flat_map];
    destruct (price c); cbn [app]; unfold abs_total in *; cbn [map total]; lia.
Qed.

Lemma avg_or_0_returns xs :
  Z.abs (total xs) < 2 ^ 1023 -> exists v, avg_or_0 xs = Ok v.
Proof.
  intros H. destruct xs as [ | x xs]; [cbn; eauto | ]. apply avg_returns, H.
Qed.

Lemma mapM_returns {A B} (f : A -> result B) xs :
  (forall x, exists y, f x = Ok y) -> exists ys, mapM f xs = Ok ys.
Proof.
  intros Hf. induction xs as [ | x xs [ys IH]]; cbn [mapM]; [eauto | ].
  destruct (Hf x) as (y & ->). rewrite IH. cbn. eauto.
Qed.

(** The aggregator returns a report whenever the ages and the prices add
    up, in magnitude, to less than [2^1023]. *)
Theorem build_report_returns cards :
  abs_total (map age cards) < 2 ^ 1023 ->
  abs_total (price_values cards) < 2 ^ 1023 ->
  exists rep, build_report cards = Ok rep.
Proof.
  intros Hages Hprices.
  assert (Hage : forall p, exists v, avg (map age (filter p cards)) = Ok v).
  { intro p. apply avg_returns.
    pose proof (abs_total_bound (map age (filter p cards))).
    pose proof (abs_total_ages_filter p cards). lia. }
  assert (Hage2 : forall p q, exists v,
             avg_or_0 (map age (filter p (filter q cards))) = Ok v).
  { intros p q. apply avg_or_0_returns.
    pose proof (abs_total_bound (map age (filter p (filter q cards)))).
    pose proof (abs_total_ages_filter p (filter q cards)).
    pose proof (abs_total_ages_filter q cards). lia. }
  assert (Hprice : forall p, exists v, avg_or_0 (price_values (filter p cards)) = Ok v).
  { intro p. apply avg_or_0_returns.
    pose proof (abs_total_bound (price_values (filter p cards))).
    pose proof (abs_total_prices_filter p cards). lia. }
  unfold build_report.
  destruct (Hage (fun c => negb (mem (column c) EXCLUDED_COLUMNS_FOR_AGE))) as (a0 & Ha0).
  fold (active_cards cards) in Ha0. rewrite Ha0. cbn [bind].
  destruct (mapM_returns (focused_row (active_cards cards)) FOCUSED_LABELS) as (focused & ->).
  { intro lbl. unfold focused_row, label_ages, active_cards.
    destruct (Hage2 (fun c => Str.contains (Str.to_lower lbl) (Str.to_lower (text c)))
                (fun c => negb (mem (column c) EXCLUDED_COLUMNS_FOR_AGE))) as (v & ->).
    cbn. eauto. }
  cbn [bind].
  assert (Hlanes : forall lanes, exists rows, lane_table cards lanes = Ok rows).
  { induction lanes as [ | lane lanes [rows IH]]; cbn [lane_table]; [eauto | ].
    destruct (lane_ages lane cards) eqn:E; [eauto | ]. rewrite <- E.
    unfold lane_ages. destruct (Hage (fun c => String.eqb (column c) lane)) as (v & ->).
    rewrite IH. cbn. eauto. }
  destruct (Hlanes REQUESTED_LANES) as (lanes & ->). cbn [bind].
  assert (Hq : exists q, quoted_table cards (active_cards cards) = Ok q).
  { unfold quoted_table, active_cards.
    destruct (Hprice (fun c => negb (mem (column c) EXCLUDED_COLUMNS_FOR_AGE))) as (v1 & ->).
    destruct (Hprice (fun c => String.eqb (column c) "Completed")) as (v2 & ->).
    destruct (Hprice (fun c => String.eqb (column c) "Canceled")) as (v3 & ->).
    cbn. eauto. }
  destruct Hq as (q & ->). cbn [bind].
  rewrite label_table_mapM.
  destruct (mapM_returns (label_table_row (active_cards cards)) ALL_LABELS) as (labels & ->).
  { intro lbl. unfold label_table_row, label_ages, active_cards.
    destruct (Hage2 (fun c => Str.contains (Str.to_lower lbl) (Str.to_lower (text c)))
                (fun c => negb (mem (column c) EXCLUDED_COLUMNS_FOR_AGE))) as (v & ->).
    cbn. eauto. }
  cbn. eauto.
Qed.

(* ================================================================== *)
(** ** How close a rounded division is

    The division of two integers held exactly gives the float next below
    or next above the quotient; [round(x, 2)] gives a float next to a
    whole number of hundredths. *)

Lemma digits2_pos_lower p : 2 ^ (Zpos (digits2_pos p) - 1) <= Zpos p.
Proof.
  induction p as [p IH | p IH | ]; cbn [digits2_pos].
  - rewrite Pos2Z.inj_succ. replace (Z.succ (Zpos (digits2_pos p)) - 1)
      with (Z.succ (Zpos (digits2_pos p) - 1)) by lia.
    rewrite Z.pow_succ_r by lia. lia.
  - rewrite Pos2Z.inj_succ. replace (Z.succ (Zpos (digits2_pos p)) - 1)
      with (Z.succ (Zpos (digits2_pos p) - 1)) by lia.
    rewrite Z.pow_succ_r by lia. lia.
  - reflexivity.
Qed.

Lemma Zdigits2_lower m : 0 < m -> 2 ^ (Zdigits2 m - 1) <= m.
Proof.
  intros Hm. destruct m as [ | p | p]; try lia. apply digits2_pos_lower.
Qed.

Lemma Zdigits2_ge m k : 0 <= k -> 2 ^ k <= m -> k + 1 <= Zdigits2 m.
Proof.
  intros Hk H.
  assert (Hm : 0 < m) by (pose proof (Z.pow_pos_nonneg 2 k); lia).
  pose proof (Zdigits2_gt m ltac:(lia)) as Hgt.
  pose proof (Zdigits2_nonneg m) as Hn.
  destruct (Z_lt_le_dec (Zdigits2 m) (k + 1)) as [Hlt | ]; [ | assumption].
  assert (2 ^ Zdigits2 m <= 2 ^ k) by (apply Z.pow_le_mono_r; lia). lia.
Qed.

(** The exponent and the mantissa [shr_fexp] arrives at. *)
Lemma shr_fexp_value m e l mrs e1 :
  0 <= m ->
  shr_fexp 53 1024 m e l = (mrs, e1) ->
  e1 = Z.max e (fexp 53 1024 (Zdigits2 m + e)) /\
  shr_m mrs = m / 2 ^ (e1 - e).
Proof.
  intros Hm. unfold shr_fexp, shr.
  destruct (fexp 53 1024 (Zdigits2 m + e) - e) as [ | p | p] eqn:En;
    intros H; injection H as <- <-.
  - rewrite shr_record_of_loc_m. split; [lia | ].
    replace (e - e) with 0 by lia. rewrite Z.div_1_r. reflexivity.
  - split; [lia | ].
    rewrite iter_shr_m; rewrite shr_record_of_loc_m; [ | exact Hm].
    f_equal. f_equal. lia.
  - rewrite shr_record_of_loc_m. split; [lia | ].
    replace (e - e) with 0 by lia. rewrite Z.div_1_r. reflexivity.
Qed.

(** Shifting a rounded mantissa again loses nothing. *)
Lemma shr_fexp_exact m e mrs e2 :
  0 <= m <= 2 ^ 53 -> -1074 <= e ->
  shr_fexp 53 1024 m e loc_Exact = (mrs, e2) ->
  e <= e2 /\ shr_m mrs * 2 ^ (e2 - e) = m /\ (m < 2 ^ 53 -> e2 = e) /\
  shr_m mrs < 2 ^ 53.
Proof.
  intros Hm He H.
  destruct (Z_lt_le_dec m (2 ^ 53)) as [Hlt | Hge].
  - assert (Hd : Zdigits2 m <= 53) by (apply Zdigits2_le; lia).
    revert H. unfold shr_fexp, shr. rewrite fexp64_eq.
    destruct (Z.max (Zdigits2 m + e - 53) (-1074) - e) as [ | p | p] eqn:En;
      try lia; intros H; injection H as <- <-; cbn [shr_record_of_loc shr_m];
      replace (e - e) with 0 by lia; change (2 ^ 0) with 1; lia.
  - assert (m = 2 ^ 53) by lia. subst m.
    revert H. unfold shr_fexp, shr. rewrite fexp64_eq.
    change (Zdigits2 (2 ^ 53)) with 54.
    replace (Z.max (54 + e - 53) (-1074) - e) with 1 by lia.
    intros H; injection H as <- <-. split; [lia | ].
    replace (e + 1 - e) with 1 by lia. split; [reflexivity | ].
    split; [lia | reflexivity].
Qed.

(** What rounding returns: the mantissa [m] cut down to at most 53 digits
    at exponent [e1], then moved by at most one unit. *)
Lemma binary_round_aux_value sx m e l :
  0 <= m ->
  let e1 := Z.max e (fexp 53 1024 (Zdigits2 m + e)) in
  let m1 := m / 2 ^ (e1 - e) in
  exists m2, m1 <= m2 <= m1 + 1 /\
    match binary_round_aux 53 1024 sx m e l with
    | S754_zero s => s = sx /\ m2 = 0
    | S754_finite s m3 e3 =>
        s = sx /\ e1 <= e3 /\ Zpos m3 * 2 ^ (e3 - e1) = m2 /\
        Zpos m3 < 2 ^ 53 /\ e3 <= 971
    | S754_infinity _ => True
    | S754_nan => False
    end.
Proof.
  intros Hm e1 m1. unfold binary_round_aux.
  destruct (shr_fexp 53 1024 m e l) as [mrs1 e1'] eqn:E1.
  destruct (shr_fexp_value _ _ _ _ _ Hm E1) as (He1 & Hm1).
  destruct (shr_fexp_bounds _ _ _ _ _ Hm E1) as (Hm1n & _ & Hd1).
  fold e1 in He1. subst e1'. fold m1 in Hm1.
  pose proof (round_nearest_even_bounds (shr_m mrs1) (loc_of_shr_record mrs1)) as Hr.
  set (m2 := round_nearest_even (shr_m mrs1) (loc_of_shr_record mrs1)) in *.
  rewrite Hm1 in *.
  assert (He1 : -1074 <= e1) by (unfold e1; rewrite fexp64_eq; lia).
  assert (Hdig : Zdigits2 m1 <= 53).
  { unfold e1 in Hd1 |- *. rewrite fexp64_eq in *.
    pose proof (Zdigits2_nonneg m1). fold e1 in Hd1. unfold e1 in Hd1. lia. }
  assert (Hm1lt : m1 < 2 ^ 53).
  { apply Z.lt_le_trans with (2 ^ Zdigits2 m1); [apply Zdigits2_gt; lia | ].
    apply Z.pow_le_mono_r; lia. }
  destruct (shr_fexp 53 1024 m2 e1 loc_Exact) as [mrs2 e2] eqn:E2.
  destruct (shr_fexp_exact m2 e1 mrs2 e2 ltac:(lia) He1 E2) as (He2 & Hex & _ & Hlt).
  exists m2. split; [lia | ].
  destruct (shr_m mrs2) as [ | m3 | m3] eqn:E3.
  - split; [reflexivity | lia].
  - replace (1024 - 53) with 971 by reflexivity.
    destruct (Z.leb_spec e2 971); [ | exact I].
    split; [reflexivity | ]. split; [exact He2 | ]. split; [exact Hex | ].
    split; [exact Hlt | assumption].
  - assert (0 < 2 ^ (e2 - e1)) by (apply Z.pow_pos_nonneg; lia). nia.
Qed.

Lemma SFdiv_core_value ma mb q e' l :
  SFdiv_core_binary 53 1024 (Zpos ma) 0 (Zpos mb) 0 = (q, e', l) ->
  e' = Z.min (fexp 53 1024 (Zdigits2 (Zpos ma) - Zdigits2 (Zpos mb))) 0 /\
  q = (Zpos ma * 2 ^ (- e')) / Zpos mb /\
  l = new_location (Zpos mb) ((Zpos ma * 2 ^ (- e')) mod Zpos mb).
Proof.
  unfold SFdiv_core_binary.
  set (d1 := Zdigits2 (Zpos ma)). set (d2 := Zdigits2 (Zpos mb)).
  replace (d1 + 0 - (d2 + 0)) with (d1 - d2) by lia.
  replace (0 - 0) with 0 by lia.
  set (e0 := Z.min (fexp 53 1024 (d1 - d2)) 0).
  assert (He0 : e0 <= 0) by (unfold e0; lia).
  set (m' := match 0 - e0 with
             | 0 => Zpos ma
             | Zpos _ => Z.shiftl (Zpos ma) (0 - e0)
             | Zneg _ => 0
             end).
  assert (Hm' : m' = Zpos ma * 2 ^ (- e0)).
  { unfold m'. replace (0 - e0) with (- e0) by lia.
    destruct (- e0) as [ | p | p] eqn:E; try lia.
    rewrite Z.shiftl_mul_pow2 by lia. reflexivity. }
  destruct (Z.div_eucl m' (Zpos mb)) as [q0 r0] eqn:Ed.
  intros H. injection H as <- <- <-.
  split; [reflexivity | ].
  rewrite <- Hm'. unfold Z.div, Z.modulo. rewrite Ed. split; reflexivity.
Qed.

(** The quotient of two positive integers, rounded: the result is the
    mantissa [m2] at exponent [e1 = t - s], and [m2] is within one unit of
    [a * 2^s / (b * 2^t)]; unless [e1] is the least exponent, the quotient
    has at least 53 digits at that exponent. *)
Lemma div_round_value sx ma mb :
  exists s t m2,
    0 <= s /\ 0 <= t /\ 0 <= m2 /\
    Z.abs (m2 * (Zpos mb * 2 ^ t) - Zpos ma * 2 ^ s) <= Zpos mb * 2 ^ t /\
    (2 ^ 52 * (Zpos mb * 2 ^ t) <= Zpos ma * 2 ^ s \/ t - s = -1074) /\
    match SFdiv 53 1024 (S754_finite sx ma 0) (S754_finite false mb 0) with
    | S754_zero s' => s' = sx /\ m2 = 0
    | S754_finite s' m3 e3 =>
        s' = sx /\ t - s <= e3 /\ Zpos m3 * 2 ^ (e3 - (t - s)) = m2 /\
        Zpos m3 < 2 ^ 53 /\ e3 <= 971
    | S754_infinity _ => True
    | S754_nan => False
    end.
Proof.
  cbn [SFdiv]. rewrite Bool.xorb_false_r.
  destruct (SFdiv_core_binary 53 1024 (Zpos ma) 0 (Zpos mb) 0) as [[q e'] l] eqn:E.
  destruct (SFdiv_core_value _ _ _ _ _ E) as (He' & Hq & _).
  destruct (SFdiv_core_bounds _ _ _ _ _ E) as (Hq0 & He'0 & _).
  destruct (binary_round_aux_value sx q e' l Hq0) as (m2 & Hm2 & Hres).
  set (e1 := Z.max e' (fexp 53 1024 (Zdigits2 q + e'))) in *.
  set (m1 := q / 2 ^ (e1 - e')) in *.
  set (a := Zpos ma) in *. set (b := Zpos mb) in *.
  set (s := - e') in *. set (t := e1 - e').
  assert (Hs : 0 <= s) by (unfold s; lia).
  assert (Ht : 0 <= t) by (unfold t, e1; lia).
  assert (Hts : t - s = e1) by (unfold t, s; lia).
  assert (H2s : 0 < 2 ^ s) by (apply Z.pow_pos_nonneg; lia).
  assert (H2t : 0 < 2 ^ t) by (apply Z.pow_pos_nonneg; lia).
  assert (Hb : 0 < b) by (unfold b; lia).
  assert (Ha : 0 < a) by (unfold a; lia).
  set (A := a * 2 ^ s) in *. set (D := b * 2 ^ t).
  assert (HD : 0 < D) by (unfold D; nia).
  assert (HA : 0 < A) by (unfold A; nia).
  assert (Hm1 : m1 = A / D).
  { unfold m1, D. rewrite Hq. fold t. rewrite Z.div_div by lia. reflexivity. }
  assert (Hlo : m1 * D <= A).
  { rewrite Hm1. rewrite Z.mul_comm. apply Z.mul_div_le. exact HD. }
  assert (Hhi : A < (m1 + 1) * D).
  { rewrite Hm1. pose proof (Z.mul_succ_div_gt A D HD). lia. }
  assert (Hm1n : 0 <= m1) by (rewrite Hm1; apply Z.div_pos; lia).
  exists s, t, m2. rewrite Hts.
  split; [exact Hs | ]. split; [exact Ht | ]. split; [lia | ].
  split; [ | split; [ | exact Hres]].
  - fold D. assert (m2 = m1 \/ m2 = m1 + 1) as [-> | ->] by lia; lia.
  - fold D.
    destruct (Z.eq_dec e1 (-1074)) as [Heq | Hne]; [right; exact Heq | left].
    assert (Hbig : 2 ^ 52 <= m1); [ | nia].
    pose proof (Zdigits2_nonneg q) as Hdq.
    set (d1 := Zdigits2 a) in *. set (d2 := Zdigits2 b) in *.
    pose proof (Zdigits2_lower a Ha) as Hd1. fold d1 in Hd1.
    pose proof (Zdigits2_gt b ltac:(lia)) as Hd2. fold d2 in Hd2.
    assert (Hd1p : 1 <= d1) by (unfold d1, a; cbn; lia).
    assert (Hd2p : 1 <= d2) by (unfold d2, b; cbn; lia).
    rewrite fexp64_eq in He'.
    assert (Hq52 : -1074 < e' -> 2 ^ 52 <= q).
    { intros Hgt. rewrite Hq. fold s. fold A.
      apply Z.div_le_lower_bound; [lia | ].
      assert (Hchain : 2 ^ (52 + d2) <= A).
      { unfold A. apply Z.le_trans with (2 ^ (d1 - 1) * 2 ^ s); [ | nia].
        rewrite <- Z.pow_add_r by lia. apply Z.pow_le_mono_r; [lia | ].
        unfold s. lia. }
      rewrite Z.pow_add_r in Hchain by lia.
      rewrite (Z.mul_comm b).
      apply Z.le_trans with (2 ^ 52 * 2 ^ d2); [ | exact Hchain].
      apply Z.mul_le_mono_nonneg_l; [apply Z.pow_nonneg; lia | lia]. }
    assert (Hdq53 : 53 <= Zdigits2 q).
    { destruct (Z_lt_le_dec (-1074) e') as [Hgt | Hle].
      - apply (Zdigits2_ge q 52); [lia | auto].
      - unfold e1 in Hne. rewrite fexp64_eq in Hne. lia. }
    assert (He1 : e1 = Zdigits2 q + e' - 53).
    { unfold e1 in *. rewrite fexp64_eq in *. lia. }
    assert (Htq : t = Zdigits2 q - 53) by (unfold t; lia).
    unfold m1. fold t. apply Z.div_le_lower_bound; [lia | ].
    assert (Hqpos : 0 < q).
    { destruct (Z.eq_dec q 0) as [Hz | ]; [ | lia].
      rewrite Hz in Hdq53. cbn in Hdq53. lia. }
    pose proof (Zdigits2_lower q Hqpos) as Hql.
    replace (Zdigits2 q - 1) with (t + 52) in Hql by lia.
    rewrite Z.pow_add_r in Hql by lia. lia.
Qed.

Lemma Zdigits2_shift m g : 0 < m -> 0 <= g -> Zdigits2 (m * 2 ^ g) = Zdigits2 m + g.
Proof.
  intros Hm Hg.
  pose proof (Zdigits2_lower m Hm) as Hlo.
  pose proof (Zdigits2_gt m ltac:(lia)) as Hhi.
  pose proof (Zdigits2_nonneg m) as Hn.
  assert (H2g : 0 < 2 ^ g) by (apply Z.pow_pos_nonneg; lia).
  assert (Hd1 : 1 <= Zdigits2 m) by (destruct m; cbn; lia).
  apply Z.le_antisymm.
  - apply Zdigits2_le; [nia | lia | ]. rewrite Z.pow_add_r by lia. nia.
  - replace (Zdigits2 m + g) with ((Zdigits2 m - 1 + g) + 1) by lia.
    apply Zdigits2_ge; [lia | ]. rewrite Z.pow_add_r by lia. nia.
Qed.

Lemma shr_1_even m :
  0 <= m ->
  shr_1 {| shr_m := m * 2; shr_r := false; shr_s := false |}
  = {| shr_m := m; shr_r := false; shr_s := false |}.
Proof.
  intros Hm. destruct m as [ | p | p]; try lia; [reflexivity | ].
  rewrite Z.mul_comm. reflexivity.
Qed.

(** Shifting out zeros is exact. *)
Lemma iter_shr_exact p : forall m, 0 <= m ->
  SpecFloat.iter_pos shr_1 p {| shr_m := m * 2 ^ Zpos p; shr_r := false; shr_s := false |}
  = {| shr_m := m; shr_r := false; shr_s := false |}.
Proof.
  assert (Hpos : forall q, 0 < 2 ^ Zpos q) by (intro q; apply Z.pow_pos_nonneg; lia).
  induction p as [p IH | p IH | ]; intros m Hm; cbn [SpecFloat.iter_pos].
  - rewrite pow2_xI.
    replace (m * (2 * (2 ^ Zpos p * 2 ^ Zpos p)))
      with (m * 2 ^ Zpos p * 2 ^ Zpos p * 2) by lia.
    pose proof (Hpos p).
    rewrite shr_1_even by nia. rewrite IH by nia. apply IH. exact Hm.
  - rewrite pow2_xO. rewrite Z.mul_assoc. pose proof (Hpos p).
    rewrite IH by nia. apply IH. exact Hm.
  - change (2 ^ 1) with 2. apply shr_1_even. exact Hm.
Qed.

(** A float times 100, divided by 100, is that float. *)
Lemma SFdiv_hundredths_exact s m e k :
  Zpos m < 2 ^ 53 -> 0 <= e <= 971 ->
  Zpos k = 100 * Zpos m * 2 ^ e ->
  exists m3 e3,
    SFdiv 53 1024 (S754_finite s k 0) (S754_finite false 100 0)
    = S754_finite s m3 e3 /\
    exists g h, 0 <= g /\ 0 <= h /\ e3 + h = e + g /\
                Zpos m3 * 2 ^ g = Zpos m * 2 ^ h.
Proof.
  intros Hm He Hk.
  cbn [SFdiv]. rewrite Bool.xorb_false_r.
  destruct (SFdiv_core_binary 53 1024 (Zpos k) 0 100 0) as [[q e'] l] eqn:E.
  destruct (SFdiv_core_value _ _ _ _ _ E) as (He' & Hq & Hl).
  destruct (SFdiv_core_bounds _ _ _ _ _ E) as (Hq0 & He'0 & _).
  set (sh := - e') in *.
  assert (Hsh : 0 <= sh) by (unfold sh; lia).
  assert (H2sh : 0 < 2 ^ sh) by (apply Z.pow_pos_nonneg; lia).
  assert (H2e : 0 < 2 ^ e) by (apply Z.pow_pos_nonneg; lia).
  set (g := e + sh).
  assert (Hg : 0 <= g) by (unfold g; lia).
  assert (Hnum : Zpos k * 2 ^ sh = (Zpos m * 2 ^ g) * 100).
  { rewrite Hk. unfold g. rewrite Z.pow_add_r by lia. ring. }
  rewrite Hnum in Hq, Hl. rewrite Z.div_mul in Hq by lia.
  rewrite Z.mod_mul in Hl by lia. change (new_location 100 0) with loc_Exact in Hl.
  subst l.
  assert (Hdq : Zdigits2 q = Zdigits2 (Zpos m) + g).
  { rewrite Hq. apply Zdigits2_shift; lia. }
  assert (Hdm : 1 <= Zdigits2 (Zpos m) <= 53).
  { split; [cbn; lia | apply Zdigits2_le; lia]. }
  unfold binary_round_aux.
  set (n := Zdigits2 (Zpos m) + e - 53 + sh).
  assert (Hn : fexp 53 1024 (Zdigits2 q + e') - e' = n).
  { rewrite fexp64_eq, Hdq. unfold n, g, sh. lia. }
  assert (Hstep1 : exists m1 e1,
             shr_fexp 53 1024 q e' loc_Exact
             = ({| shr_m := m1; shr_r := false; shr_s := false |}, e1) /\
             0 < m1 < 2 ^ 53 /\ -1074 <= e1 <= 971 /\
             exists g1 h1, 0 <= g1 /\ 0 <= h1 /\ e1 + h1 = e + g1 /\
                           m1 * 2 ^ g1 = Zpos m * 2 ^ h1).
  { unfold shr_fexp, shr. rewrite Hn. cbn [shr_record_of_loc].
    destruct n as [ | p | p] eqn:En.
    - exists q, e'. split; [reflexivity | ].
      assert (Hq53 : q < 2 ^ 53).
      { apply Z.lt_le_trans with (2 ^ Zdigits2 q); [apply Zdigits2_gt; lia | ].
        apply Z.pow_le_mono_r; lia. }
      assert (0 < q) by (rewrite Hq; nia).
      split; [lia | ]. split; [rewrite fexp64_eq in He'; lia | ].
      exists 0, g. split; [lia | ]. split; [lia | ]. split; [unfold g, sh; lia | ].
      rewrite Hq. change (2 ^ 0) with 1. lia.
    - set (g' := g - Zpos p).
      assert (Hg' : 0 <= g') by (unfold g', g; lia).
      assert (Hsplit : q = (Zpos m * 2 ^ g') * 2 ^ Zpos p).
      { rewrite Hq. unfold g'. rewrite <- Z.mul_assoc, <- Z.pow_add_r by lia.
        f_equal. f_equal. lia. }
      assert (H2g' : 0 < 2 ^ g') by (apply Z.pow_pos_nonneg; lia).
      exists (Zpos m * 2 ^ g'), (e' + Zpos p).
      split; [rewrite Hsplit, iter_shr_exact by nia; reflexivity | ].
      assert (Hd' : Zdigits2 (Zpos m * 2 ^ g') = 53).
      { rewrite Zdigits2_shift by lia. unfold g', g. lia. }
      split.
      { split; [nia | ]. pose proof (Zdigits2_gt (Zpos m * 2 ^ g') ltac:(nia)) as Hgt.
        rewrite Hd' in Hgt. exact Hgt. }
      split; [unfold sh in *; lia | ].
      exists 0, g'. split; [lia | ]. split; [lia | ].
      split; [unfold g', g, sh; lia | ]. change (2 ^ 0) with 1. lia.
    - exists q, e'. split; [reflexivity | ].
      assert (Hq53 : q < 2 ^ 53).
      { apply Z.lt_le_trans with (2 ^ Zdigits2 q); [apply Zdigits2_gt; lia | ].
        apply Z.pow_le_mono_r; lia. }
      assert (0 < q) by (rewrite Hq; nia).
      split; [lia | ]. split; [rewrite fexp64_eq in He'; lia | ].
      exists 0, g. split; [lia | ]. split; [lia | ]. split; [unfold g, sh; lia | ].
      rewrite Hq. change (2 ^ 0) with 1. lia. }
  destruct Hstep1 as (m1 & e1 & -> & Hm1 & He1 & Hval).
  cbn [shr_m loc_of_shr_record round_nearest_even].
  destruct (shr_fexp 53 1024 m1 e1 loc_Exact) as [mrs2 e2] eqn:E2.
  destruct (shr_fexp_exact m1 e1 mrs2 e2 ltac:(lia) ltac:(lia) E2)
    as (_ & Hex & Hsame & _).
  specialize (Hsame ltac:(lia)). subst e2.
  replace (e1 - e1) with 0 in Hex by lia. change (2 ^ 0) with 1 in Hex.
  rewrite Z.mul_1_r in Hex. rewrite Hex.
  destruct m1 as [ | m3 | m3]; try lia.
  replace (1024 - 53) with 971 by reflexivity.
  destruct (Z.leb_spec e1 971); [ | lia].
  exists m3, e1. split; [reflexivity | exact Hval].
Qed.

Lemma div_half_even_near a b :
  0 <= a -> 0 < b ->
  0 <= Num.div_half_even a b /\
  Z.abs (2 * (Num.div_half_even a b * b) - 2 * a) <= b.
Proof.
  intros Ha Hb. unfold Num.div_half_even.
  pose proof (Z.div_mod a b ltac:(lia)) as Hdm.
  pose proof (Z.mod_pos_bound a b Hb) as Hr.
  assert (Hq : 0 <= a / b) by (apply Z.div_pos; lia).
  destruct (Z.compare_spec (2 * (a mod b)) b) as [He | Hl | Hg].
  - destruct (Z.even (a / b)); split; nia.
  - split; nia.
  - split; nia.
Qed.

Section Accuracy.
Local Open Scope Q_scope.

Lemma two_neq_0 : ~ 2 == 0.
Proof. discriminate. Qed.

Lemma pow2_pos (e : Z) : 0 < 2 ^ e.
Proof. apply Qpower_0_lt. reflexivity. Qed.

Lemma inject_pow2 (n : Z) : (0 <= n)%Z -> inject_Z (2 ^ n) == 2 ^ n.
Proof. intros H. rewrite Zpower_Qpower by exact H. reflexivity. Qed.

Lemma Qabs_div_le (n d c : Q) : 0 < d -> Qabs n <= c * d -> Qabs (n / d) <= c.
Proof.
  intros Hd H. unfold Qdiv. rewrite Qabs_Qmult.
  rewrite (Qabs_pos (/ d)) by (apply Qlt_le_weak, Qinv_lt_0_compat; exact Hd).
  apply Qle_shift_div_r; assumption.
Qed.

(** The accuracy of the division of two integers held exactly: the
    result is within one unit [u] of its last place of the quotient, and
    that unit is at most [2^-52] of the quotient unless it is the least
    one, [2^-1074]. *)
Lemma SFdiv_accuracy sx ma mb :
  let f := SFdiv 53 1024 (S754_finite sx ma 0) (S754_finite false mb 0) in
  let x := inject_Z (Zpos ma) / inject_Z (Zpos mb) in
  (forall s, f <> S754_infinity s) ->
  is_finite f /\
  match f with
  | S754_finite _ m e => (Zpos m < 2 ^ 53)%Z /\ (e <= 971)%Z
  | _ => True
  end /\
  exists u, 0 < u /\
    Qabs (float_value f - (if sx then - x else x)) <= u /\
    (u * 2 ^ 52 <= x \/ u == 2 ^ (-1074)).
Proof.
  intros f x Hfin.
  destruct (div_round_value sx ma mb)
    as (s & t & m2 & Hs & Ht & Hm2 & Herr & Hrel & Hres).
  fold f in Hres.
  set (A := inject_Z (Zpos ma)) in *. set (B := inject_Z (Zpos mb)) in *.
  set (M := inject_Z m2). set (T := 2 ^ t). set (S := 2 ^ s).
  assert (HB : 0 < B) by (unfold B; change 0 with (inject_Z 0); rewrite <- Zlt_Qlt; reflexivity).
  assert (HA : 0 < A) by (unfold A; change 0 with (inject_Z 0); rewrite <- Zlt_Qlt; reflexivity).
  assert (HT : 0 < T) by apply pow2_pos.
  assert (HS : 0 < S) by apply pow2_pos.
  assert (HM : 0 <= M) by (unfold M; change 0 with (inject_Z 0); rewrite <- Zle_Qle; exact Hm2).
  set (u := 2 ^ (t - s)).
  assert (Hu : u == T / S) by (unfold u, T, S; apply Qpower_minus, two_neq_0).
  assert (Hupos : 0 < u) by apply pow2_pos.
  (* the integer facts, in Q *)
  assert (HerrQ : Qabs (M * (B * T) - A * S) <= B * T).
  { unfold M, B, T, A, S. rewrite <- (inject_pow2 t Ht), <- (inject_pow2 s Hs).
    rewrite <- !inject_Z_mult. unfold Qminus. rewrite <- inject_Z_opp, <- inject_Z_plus.
    rewrite Qabs_Qle_condition. rewrite <- inject_Z_opp, <- !Zle_Qle. lia. }
  assert (HrelQ : (2 ^ 52 * (B * T) <= A * S \/ u == 2 ^ (-1074))).
  { destruct Hrel as [Hrel | Hrel]; [left | right].
    - unfold B, T, A, S. rewrite <- (inject_pow2 t Ht), <- (inject_pow2 s Hs).
      change (2 ^ 52) with (inject_Z (2 ^ 52)).
      rewrite <- !inject_Z_mult, <- Zle_Qle. exact Hrel.
    - unfold u. rewrite Hrel. reflexivity. }
  (* the value of the result *)
  assert (Hval : float_value f == (if sx then - M else M) * u /\ is_finite f /\
                 match f with
                 | S754_finite _ m e => (Zpos m < 2 ^ 53)%Z /\ (e <= 971)%Z
                 | _ => True
                 end).
  { destruct f as [s' | s' | | s' m3 e3].
    - destruct Hres as (_ & ->). cbn. split; [ | split; exact I].
      unfold M. destruct sx; cbn; ring.
    - exfalso. apply (Hfin s'). reflexivity.
    - destruct Hres.
    - destruct Hres as (-> & He3 & Hm3 & Hfmt). split; [ | split; [exact I | exact Hfmt]].
      cbn [float_value].
      assert (HM3 : M * u == inject_Z (Zpos m3) * 2 ^ e3).
      { unfold M, u. rewrite <- Hm3, inject_Z_mult, inject_pow2 by lia.
        rewrite <- Qmult_assoc, <- Qpower_plus by apply two_neq_0.
        replace (e3 - (t - s) + (t - s))%Z with e3 by lia. reflexivity. }
      destruct sx; [ | symmetry; exact HM3].
      setoid_replace (- inject_Z (Zpos m3) * 2 ^ e3)
        with (- (inject_Z (Zpos m3) * 2 ^ e3)) by ring.
      rewrite <- HM3. ring. }
  destruct Hval as (Hval & Hf & Hfmt). split; [exact Hf | ]. split; [exact Hfmt | ].
  exists u. split; [exact Hupos | ].
  assert (Hx : x == A / B) by reflexivity.
  assert (Hdiff : M * u - x == (M * (B * T) - A * S) / (B * S)).
  { rewrite Hu, Hx. field. split; lra. }
  assert (HBS : 0 < B * S) by nra.
  assert (Hcore : Qabs (M * u - x) <= u).
  { rewrite Hdiff. apply Qabs_div_le; [exact HBS | ].
    setoid_replace (u * (B * S)) with (B * T); [exact HerrQ | ].
    rewrite Hu. field. lra. }
  split.
  - rewrite Hval. destruct sx; [ | exact Hcore].
    setoid_replace (- M * u - - x) with (- (M * u - x)) by ring.
    rewrite Qabs_opp. exact Hcore.
  - destruct HrelQ as [Hr | Hr]; [left | right; exact Hr].
    rewrite Hx. apply Qle_shift_div_l; [exact HB | ].
    setoid_replace (u * 2 ^ 52 * B) with (2 ^ 52 * (B * T) / S).
    + apply Qle_shift_div_r; [exact HS | exact Hr].
    + rewrite Hu. field. lra.
Qed.

Lemma float_value_finite s m e :
  float_value (S754_finite s m e)
  == (if s then -1 else 1) * (inject_Z (Zpos m) * 2 ^ e).
Proof. cbn [float_value]. destruct s; ring. Qed.

(** A value moved between exponents. *)
Lemma scaled_value_eq m3 e3 m e g h :
  (0 <= g)%Z -> (0 <= h)%Z -> (e3 + h = e + g)%Z ->
  (m3 * 2 ^ g = m * 2 ^ h)%Z ->
  inject_Z m3 * 2 ^ e3 == inject_Z m * 2 ^ e.
Proof.
  intros Hg Hh He Hm.
  assert (H1 : inject_Z m3 * 2 ^ g == inject_Z m * 2 ^ h).
  { rewrite <- (inject_pow2 g Hg), <- (inject_pow2 h Hh), <- !inject_Z_mult.
    rewrite Hm. reflexivity. }
  assert (E3 : 2 ^ e3 == 2 ^ e * 2 ^ g / 2 ^ h).
  { replace e3 with (e + g - h)%Z by lia.
    rewrite Qpower_minus, Qpower_plus by apply two_neq_0. reflexivity. }
  pose proof (pow2_pos h) as Hph.
  rewrite E3.
  setoid_replace (inject_Z m3 * (2 ^ e * 2 ^ g / 2 ^ h))
    with ((inject_Z m3 * 2 ^ g) * 2 ^ e / 2 ^ h) by (field; lra).
  rewrite H1. field. lra.
Qed.

(** [round(x, 2)] on a float: the result is within one part in [2^52] of
    [k / 100] for an integer [k] within a half of [100 * x]. *)
Lemma round2_float_accuracy f1 :
  is_finite f1 ->
  match f1 with
  | S754_finite _ m e => (Zpos m < 2 ^ 53)%Z /\ (e <= 971)%Z
  | _ => True
  end ->
  exists k : Z,
    is_finite (Num.round2_float f1) /\
    Qabs (float_value (Num.round2_float f1) - inject_Z k / 100)
      <= Qabs (inject_Z k / 100) / 2 ^ 52 /\
    Qabs (inject_Z k / 100 - float_value f1) <= 1 / 200.
Proof.
  intros Hf Hfmt. destruct f1 as [s | s | | s m e]; try destruct Hf.
  - exists 0%Z. cbn. split; [exact I | ]. split; discriminate.
  - destruct Hfmt as (Hm & He). cbn [Num.round2_float]. unfold Num.prec, Num.emax.
    set (sg := if s then -1 else 1).
    assert (Hsg : Qabs sg == 1) by (unfold sg; destruct s; reflexivity).
    destruct (Z.leb_spec 0 e) as [Hpos | Hneg].
    + (* an integer: nothing to round *)
      assert (H2e : (0 < 2 ^ e)%Z) by (apply Z.pow_pos_nonneg; lia).
      destruct (100 * Zpos m * 2 ^ e)%Z as [ | k | k] eqn:Ek; try lia.
      destruct (SFdiv_hundredths_exact s m e k Hm ltac:(lia) (eq_sym Ek))
        as (m3 & e3 & -> & g & h & Hg & Hh & Heq & Hmant).
      pose proof (scaled_value_eq _ _ _ _ _ _ Hg Hh Heq Hmant) as Hv.
      exists (if s then (- Zpos k) else Zpos k)%Z. split; [exact I | ].
      assert (Hk : inject_Z (if s then (- Zpos k) else Zpos k)%Z / 100
                   == sg * (inject_Z (Zpos m) * 2 ^ e)).
      { rewrite <- Ek. unfold sg. destruct s.
        - rewrite inject_Z_opp, !inject_Z_mult, (inject_pow2 e Hpos).
            change (inject_Z 100) with 100. field.
        - rewrite !inject_Z_mult, (inject_pow2 e Hpos).
            change (inject_Z 100) with 100. field. }
      rewrite !float_value_finite. fold sg. rewrite Hk, Hv.
      setoid_replace (sg * (inject_Z (Zpos m) * 2 ^ e)
                      - sg * (inject_Z (Zpos m) * 2 ^ e)) with 0 by ring.
      split.
      * cbn [Qabs]. apply Qle_shift_div_l; [apply pow2_pos | ].
        rewrite Qmult_0_l. apply Qabs_nonneg.
      * discriminate.
    + (* a fraction: round its hundredths *)
      set (b := (2 ^ (- e))%Z).
      assert (Hb : (0 < b)%Z) by (apply Z.pow_pos_nonneg; lia).
      destruct (div_half_even_near (100 * Zpos m) b ltac:(lia) Hb) as (Hh0 & Hnear).
      set (hd := Num.div_half_even (100 * Zpos m) b) in *.
      (* in Q *)
      assert (HB : inject_Z b == / 2 ^ e).
      { unfold b. rewrite inject_pow2 by lia. apply Qpower_opp. }
      pose proof (pow2_pos e) as Hpe.
      assert (HnearQ : Qabs (inject_Z hd / 100 - inject_Z (Zpos m) * 2 ^ e) <= 1 / 200).
      { assert (H1 : Qabs (2 * (inject_Z hd * inject_Z b) - 2 * (100 * inject_Z (Zpos m)))
                     <= inject_Z b).
        { change 2 with (inject_Z 2). change 100 with (inject_Z 100).
          rewrite <- !inject_Z_mult. unfold Qminus.
          rewrite <- inject_Z_opp, <- inject_Z_plus, Qabs_Qle_condition.
          rewrite <- inject_Z_opp, <- !Zle_Qle. lia. }
        assert (HBpos : 0 < inject_Z b).
        { change 0 with (inject_Z 0). rewrite <- Zlt_Qlt. exact Hb. }
        assert (HP : 2 ^ e == / inject_Z b).
        { rewrite HB. field. lra. }
        set (X := inject_Z hd) in *. set (Mq := inject_Z (Zpos m)) in *.
        set (B := inject_Z b) in *.
        setoid_replace (X / 100 - Mq * 2 ^ e)
          with ((2 * (X * B) - 2 * (100 * Mq)) / (200 * B)).
        2:{ rewrite HP. field. lra. }
        apply Qabs_div_le; [lra | ].
        setoid_replace (1 / 200 * (200 * B)) with B by field. exact H1. }
      destruct hd as [ | k | k] eqn:Ehd; try lia.
      * (* rounds to zero *)
        exists 0%Z. split; [exact I | ]. split.
        -- cbn. discriminate.
        -- rewrite float_value_finite. fold sg.
           setoid_replace (inject_Z 0 / 100 - sg * (inject_Z (Zpos m) * 2 ^ e))
             with (- sg * (inject_Z (Zpos m) * 2 ^ e)) by field.
           rewrite Qabs_Qmult, Qabs_opp, Hsg, Qmult_1_l.
           setoid_replace (inject_Z 0 / 100 - inject_Z (Zpos m) * 2 ^ e)
             with (- (inject_Z (Zpos m) * 2 ^ e)) in HnearQ by field.
           rewrite Qabs_opp in HnearQ. exact HnearQ.
      * (* a positive number of hundredths *)
        assert (Hkbound : (Zpos k < 2 ^ 1023)%Z).
        { assert (Zpos k <= 100 * Zpos m + 1)%Z by nia.
          assert (2 ^ 53 * 101 < 2 ^ 1023)%Z by reflexivity. lia. }
        pose proof (SFdiv_accuracy s k 100%positive) as Hacc. cbv zeta in Hacc.
        destruct Hacc as (Hfin & _ & u & Hu & Herr & Hrel).
        { intros s' Hinf.
          destruct (truediv_returns (if s then Zneg k else Zpos k) 100 ltac:(lia))
            as (f & Hf).
          { destruct s; cbn; lia. }
          unfold Num.truediv in Hf. cbn [Z.eqb] in Hf.
          replace (Num.operand (if s then Zneg k else Zpos k))
            with (S754_finite s k 0) in Hf by (destruct s; reflexivity).
          change (Num.operand 100) with (S754_finite false 100 0) in Hf.
          change Num.prec with 53%Z in Hf. change Num.emax with 1024%Z in Hf.
          rewrite Hinf in Hf. discriminate. }
        exists (if s then Zneg k else Zpos k). split; [exact Hfin | ].
        assert (Hk : inject_Z (if s then Zneg k else Zpos k) / 100
                     == sg * (inject_Z (Zpos k) / 100)).
        { unfold sg. destruct s; [ | field].
          change (Zneg k) with (- Zpos k)%Z. rewrite inject_Z_opp. field. }
        assert (Hkx : (if s then - (inject_Z (Zpos k) / inject_Z 100)
                       else inject_Z (Zpos k) / inject_Z 100)
                      == sg * (inject_Z (Zpos k) / 100)).
        { unfold sg. change (inject_Z 100) with 100. destruct s; field. }
        rewrite Hkx in Herr. rewrite Hk.
        assert (Hkpos : 1 / 100 <= inject_Z (Zpos k) / 100).
        { apply Qle_shift_div_l; [reflexivity | ].
          setoid_replace (1 / 100 * 100) with (inject_Z 1) by reflexivity.
          rewrite <- Zle_Qle. lia. }
        assert (Habs : Qabs (sg * (inject_Z (Zpos k) / 100)) == inject_Z (Zpos k) / 100).
        { rewrite Qabs_Qmult, Hsg, Qmult_1_l. apply Qabs_pos.
          apply Qle_trans with (1 / 100); [discriminate | exact Hkpos]. }
        split.
        -- rewrite Habs. apply Qle_trans with u; [exact Herr | ].
           apply Qle_shift_div_l; [apply pow2_pos | ].
           destruct Hrel as [Hrel | Hrel]; [exact Hrel | ].
           rewrite Hrel.
           apply Qle_trans with (1 / 100); [ | exact Hkpos].
           rewrite <- Qpower_plus by apply two_neq_0.
           apply Qle_trans with (2 ^ (-7)); [ | discriminate].
           apply Qpower_le_compat_l; [lia | discriminate].
        -- rewrite float_value_finite. fold sg.
           setoid_replace (sg * (inject_Z (Zpos k) / 100)
                           - sg * (inject_Z (Zpos m) * 2 ^ e))
             with (sg * (inject_Z (Zpos k) / 100 - inject_Z (Zpos m) * 2 ^ e)) by ring.
           rewrite Qabs_Qmult, Hsg, Qmult_1_l. exact HnearQ.
Qed.

Lemma avg_rounded_mean xs v :
  xs <> [] -> avg xs = Ok v -> rounded_mean (total xs) (Num.len xs) v.
Proof.
  intros Hne H. destruct xs as [ | x0 xs]; [congruence | ].
  unfold avg, Num.mean, Num.quotient in H. rewrite sum_total in H.
  set (t := total (x0 :: xs)) in *. set (n := Num.len (x0 :: xs)) in *.
  assert (Hn : (0 < n)%Z) by (unfold n, Num.len; cbn [List.length]; lia).
  destruct (Z.eqb_spec n 0) as [E | _]; [lia | ].
  destruct (Z.eqb_spec (t mod n) 0) as [Hmod | Hmod].
  - cbn in H. injection H as <-. split; [reflexivity | ].
    intros Hnd. exfalso. apply Hnd. apply Z.mod_divide; [lia | exact Hmod].
  - assert (Hnd : ~ (n | t)%Z).
    { intros Hd. apply Hmod. apply Z.mod_divide; [lia | exact Hd]. }
    split; [intros Hd; contradiction | intros _].
    unfold Num.truediv in H.
    destruct (Z.eqb_spec n 0) as [E | _]; [lia | ].
    assert (Ht0 : t <> 0%Z) by (intros E; apply Hmod; rewrite E; apply Z.mod_0_l; lia).
    destruct n as [ | mb | mb] eqn:En; try lia.
    set (sx := match t with Zneg _ => true | _ => false end).
    assert (Hop : exists ma, Num.operand t = S754_finite sx ma 0 /\
                             t = (if sx then Zneg ma else Zpos ma)).
    { unfold sx. destruct t as [ | ma | ma]; [congruence | | ]; exists ma; split; reflexivity. }
    destruct Hop as (ma & Hop & Ht). rewrite Hop in H.
    change (Num.operand (Zpos mb)) with (S754_finite false mb 0) in H.
    unfold Num.prec, Num.emax in H.
    pose proof (SFdiv_accuracy sx ma mb) as Hacc. cbv zeta in Hacc.
    set (f1 := SFdiv 53 1024 (S754_finite sx ma 0) (S754_finite false mb 0)) in *.
    assert (Hfin : forall s, f1 <> S754_infinity s).
    { intros s E. rewrite E in H. discriminate. }
    destruct (Hacc Hfin) as (Hf1 & Hfmt & u1 & Hu1 & Herr & Hrel).
    assert (Hv : v = PyFloat (Num.round2_float f1)).
    { destruct f1; cbn [bind] in H; try (injection H as <-; reflexivity).
      exfalso. eapply Hfin. reflexivity. }
    destruct (round2_float_accuracy f1 Hf1 Hfmt) as (k & Hfin2 & Hgrid & Hnear).
    exists (Num.round2_float f1), k.
    split; [exact Hv | ]. split; [exact Hfin2 | ]. split; [exact Hgrid | ].
    set (xq := inject_Z (Zpos ma) / inject_Z (Zpos mb)) in *.
    assert (Hxpos : 0 < xq).
    { unfold xq. apply Qlt_shift_div_l.
      - change 0 with (inject_Z 0). rewrite <- Zlt_Qlt. lia.
      - rewrite Qmult_0_l. change 0 with (inject_Z 0). rewrite <- Zlt_Qlt. lia. }
    assert (Hmu : inject_Z t / inject_Z (Zpos mb) == (if sx then - xq else xq)).
    { rewrite Ht. unfold xq. destruct sx; [ | reflexivity].
      change (Zneg ma) with (- Zpos ma)%Z. rewrite inject_Z_opp. field.
      intros E. assert (0 < inject_Z (Zpos mb)); [ | lra].
      change 0 with (inject_Z 0). rewrite <- Zlt_Qlt. lia. }
    assert (Habs : Qabs (inject_Z t / inject_Z (Zpos mb)) == xq).
    { rewrite Hmu. destruct sx; [rewrite Qabs_opp | ]; apply Qabs_pos; lra. }
    rewrite Habs, Hmu.
    assert (Hu : u1 <= (xq + 1) * (1 # 4503599627370496)).
    { destruct Hrel as [Hrel | Hrel]; [lra | ].
      rewrite Hrel. apply Qle_trans with (2 ^ (-52)).
      - apply Qpower_le_compat_l; [lia | discriminate].
      - change (2 ^ (-52)) with (1 # 4503599627370496). lra. }
    unfold Qdiv at 3. change (/ 2 ^ 52) with (1 # 4503599627370496).
    set (K := inject_Z k / 100) in *. set (F := float_value f1) in *.
    set (mu := if sx then - xq else xq) in *.
    rewrite Qabs_Qle_condition in Herr, Hnear |- *.
    change (1 / 200) with (1 # 200) in *. lra.
Qed.

End Accuracy.

Lemma avg_or_0_inv xs a :
  avg_or_0 xs = Ok a ->
  (xs = [] /\ a = PyInt 0) \/
  (xs <> [] /\ rounded_mean (total xs) (Num.len xs) a).
Proof.
  destruct xs as [ | x xs]; cbn [avg_or_0]; intros H.
  - left. split; congruence.
  - right. split; [discriminate | ]. apply avg_rounded_mean; [discriminate | assumption].
Qed.

(** C1.  Row 0 of the Scope table counts the cards whose column is outside
    the excluded set.  Its average is 0.0 when there is none.  Otherwise
    it is the mean of their ages itself when that is a whole number, and
    else the mean rounded to two decimals as binary floating point has it:
    a float next to a whole number [k] of hundredths, [k] being [100] times
    the mean rounded to an integer up to the error of the division that
    gives the mean. *)
Theorem C1_scope_row0 cards rep :
  build_report cards = Ok rep ->
  exists row0 rest,
    scope_rows rep = row0 :: rest /\
    (forall c, In c (cards_outside_excluded cards) <->
               In c cards /\ ~ column_excluded (column c)) /\
    scope_Count row0 = Z.of_nat (List.length (cards_outside_excluded cards)) /\
    (cards_outside_excluded cards = [] ->
       scope_Average_Age row0 = PyFloat (S754_zero false)) /\
    (cards_outside_excluded cards <> [] ->
       rounded_mean (total (map age (cards_outside_excluded cards)))
         (Z.of_nat (List.length (cards_outside_excluded cards)))
         (scope_Average_Age row0)).
Proof.
  intros H. apply build_report_inv in H.
  destruct H as (a0 & focused & lanes & quoted & labels & Ha0 & _ & _ & _ & _ & ->).
  rewrite active_cards_spec in *.
  eexists _, focused. split; [reflexivity | ]. cbn [scope_Count scope_Average_Age].
  split; [intro c; apply In_cards_outside_excluded | ].
  split; [reflexivity | ]. split.
  - intros Hnil. rewrite Hnil in Ha0. apply avg_empty in Ha0. exact Ha0.
  - intros Hne.
    assert (Hm : map age (cards_outside_excluded cards) <> []).
    { destruct (cards_outside_excluded cards); [congruence | discriminate]. }
    pose proof (avg_rounded_mean _ _ Hm Ha0) as Hmean.
    unfold Num.len in Hmean. rewrite length_map in Hmean. exact Hmean.
Qed.

Lemma C1_scope_row0_witness :
  build_report sample_cards = Ok sample_report /\
  exists row0 rest,
    scope_rows sample_report = row0 :: rest /\
    (forall c, In c (cards_outside_excluded sample_cards) <->
               In c sample_cards /\ ~ column_excluded (column c)) /\
    scope_Count row0 = Z.of_nat (List.length (cards_outside_excluded sample_cards)) /\
    (cards_outside_excluded sample_cards = [] ->
       scope_Average_Age row0 = PyFloat (S754_zero false)) /\
    (cards_outside_excluded sample_cards <> [] ->
       rounded_mean (total (map age (cards_outside_excluded sample_cards)))
         (Z.of_nat (List.length (cards_outside_excluded sample_cards)))
         (scope_Average_Age row0)).
Proof.
  split; [vm_compute; reflexivity | ].
  apply (C1_scope_row0 sample_cards sample_report). vm_compute; reflexivity.
Defined.

(** No number of hundredths other than 268 is 2.675 rounded. *)
Lemma hundredths_of_2_675 k : hundredths_rounded 107 40 k -> k = 268.
Proof.
  intros [Hk | (Hk & [He | Ha])]; [lia | | lia].
  assert (k = 267 \/ k = 268) as [-> | ->] by lia; [discriminate He | reflexivity].
Qed.

(** The claim C1 fails where the mean is a tie between two hundredths:
    forty cards, 27 aged 3 days and 13 aged 2, have the mean age 2.675,
    which rounds to 2.68; row 0 shows the float 2.67. *)
Lemma C1_tie_2_675_shown_as_2_67 :
  extract_cards sample_today doc_mean_2_675 = Ok cards_mean_2_675 /\
  cards_outside_excluded cards_mean_2_675 = cards_mean_2_675 /\
  total (map age cards_mean_2_675) = 107 /\
  Z.of_nat (List.length cards_mean_2_675) = 40 /\
  exists rep row0 rest,
    build_report cards_mean_2_675 = Ok rep /\
    scope_rows rep = row0 :: rest /\
    scope_Average_Age row0 = PyFloat (S754_finite false 6012305502539612 (-51)) /\
    ~ mean_rounded_2 107 40 (scope_Average_Age row0).
Proof.
  split; [vm_compute; reflexivity | ]. split; [vm_compute; reflexivity | ].
  split; [vm_compute; reflexivity | ]. split; [vm_compute; reflexivity | ].
  destruct (build_report cards_mean_2_675) as [rep | e] eqn:E;
    [ | vm_compute in E; discriminate E].
  pose proof E as Hinv. apply build_report_inv in Hinv.
  destruct Hinv as (a0 & focused & lanes & quoted & labels & Ha0 & _ & _ & _ & _ & ->).
  vm_compute in Ha0. injection Ha0 as <-.
  eexists _, _, _. split; [reflexivity | ]. split; [reflexivity | ].
  cbn [scope_Average_Age]. split; [reflexivity | ].
  intros (k & Hk & Hv). apply hundredths_of_2_675 in Hk. subst k.
  vm_compute in Hv. apply Hv. reflexivity.
Qed.

(** ** Lane rows are omitted, label rows are not *)

Lemma lane_ages_nonempty lane cards :
  lane_ages lane cards <> [] -> exists c, In c cards /\ column c = lane.
Proof.
  unfold lane_ages. intros H.
  destruct (filter _ cards) as [ | c cs] eqn:E; [contradiction H; reflexivity | ].
  assert (Hin : In c (filter (fun c => String.eqb (column c) lane) cards))
    by (rewrite E; left; reflexivity).
  apply filter_In in Hin. destruct Hin as [Hin Hcol].
  exists c. split; [assumption | apply String.eqb_eq; assumption].
Qed.

Lemma lane_table_rows cards lanes rows :
  lane_table cards lanes = Ok rows ->
  forall r, In r rows ->
    In (Lane r) lanes /\
    lane_ages (Lane r) cards <> [] /\
    lane_Count r = Num.len (lane_ages (Lane r) cards) /\
    avg (lane_ages (Lane r) cards) = Ok (lane_Average_Age r).
Proof.
  revert rows; induction lanes as [ | lane lanes IH]; intros rows H r Hr;
    cbn [lane_table] in H.
  - injection H as <-. destruct Hr.
  - destruct (lane_ages lane cards) as [ | a ages] eqn:E.
    + destruct (IH _ H r Hr) as (? & ? & ? & ?). repeat split; auto. right; auto.
    + bind_ok H. bind_ok H. injection H as <-. destruct Hr as [<- | Hr].
      * cbn [Lane lane_Count lane_Average_Age]. rewrite E.
        repeat split; auto; [left; reflexivity | discriminate].
      * destruct (IH _ eq_refl r Hr) as (? & ? & ? & ?). repeat split; auto. right; auto.
Qed.

Lemma label_table_rows active labels rows :
  label_table active labels = Ok rows ->
  Forall2 (fun lbl r =>
             Label r = lbl /\
             label_Count r = Num.len (label_ages lbl active) /\
             avg_or_0 (label_ages lbl active) = Ok (label_Average_Age r))
          labels rows.
Proof.
  rewrite label_table_mapM. intros H. apply mapM_ok_Forall2 in H.
  induction H as [ | lbl r labels rows Hr _ IH]; constructor; [ | exact IH].
  unfold label_table_row in Hr. bind_ok Hr. injection Hr as <-.
  cbn [Label label_Count label_Average_Age]. auto.
Qed.

Lemma focused_rows active labels rows :
  mapM (focused_row active) labels = Ok rows ->
  Forall2 (fun lbl r =>
             Scope r = lbl /\
             scope_Count r = Num.len (label_ages lbl active) /\
             avg_or_0 (label_ages lbl active) = Ok (scope_Average_Age r))
          labels rows.
Proof.
  intros H. apply mapM_ok_Forall2 in H.
  induction H as [ | lbl r labels rows Hr _ IH]; constructor; [ | exact IH].
  unfold focused_row in Hr. bind_ok Hr. injection Hr as <-.
  cbn [Scope scope_Count scope_Average_Age]. auto.
Qed.

Lemma Forall2_In_l {A B} (R : A -> B -> Prop) xs ys x :
  Forall2 R xs ys -> In x xs -> exists y, In y ys /\ R x y.
Proof.
  induction 1 as [ | x' y xs ys Hxy _ IH]; intros Hin.
  - destruct Hin.
  - destruct Hin as [<- | Hin].
    + exists y; split; [left; reflexivity | assumption].
    + destruct (IH Hin) as (y' & Hy' & HR). exists y'; split; [right | ]; assumption.
Qed.

(** C5.  A configured lane that is the column of no card has no row in the
    Lane table.  The Label table has one row per configured label, in the
    configured order, and so has the Scope table after its first row; a
    label no active card matches keeps its row, with count 0 and
    average 0. *)
Theorem C5_lane_omission_label_inclusion cards rep :
  build_report cards = Ok rep ->
  (forall lane, In lane REQUESTED_LANES ->
     (forall c, In c cards -> column c <> lane) ->
     forall r, In r (lane_rows rep) -> Lane r <> lane) /\
  map Label (all_label_rows rep) = ALL_LABELS /\
  List.length (all_label_rows rep) = List.length ALL_LABELS /\
  (forall lbl, In lbl ALL_LABELS ->
     label_ages lbl (active_cards cards) = [] ->
     In (mk_label_row lbl 0 (PyInt 0)) (all_label_rows rep)) /\
  map Scope (tl (scope_rows rep)) = FOCUSED_LABELS /\
  (forall lbl, In lbl FOCUSED_LABELS ->
     label_ages lbl (active_cards cards) = [] ->
     In (mk_scope_row lbl 0 (PyInt 0)) (tl (scope_rows rep))).
Proof.
  intros H. apply build_report_inv in H.
  destruct H as (a0 & focused & lanes & quoted & labels
                 & _ & Hfocused & Hlanes & _ & Hlabels & ->).
  cbn [lane_rows all_label_rows scope_rows tl].
  apply label_table_rows in Hlabels. apply focused_rows in Hfocused.
  assert (Hmap : map Label labels = ALL_LABELS).
  { rewrite <- (map_id ALL_LABELS).
    apply (Forall2_map_fst _ Label (fun x => x) _ _ Hlabels). intros x y (-> & _). reflexivity. }
  repeat split.
  - intros lane _ Hnone r Hr Heq.
    destruct (lane_table_rows _ _ _ Hlanes r Hr) as (_ & Hne & _).
    destruct (lane_ages_nonempty _ _ Hne) as (c & Hc & Hcol).
    apply (Hnone c Hc). congruence.
  - exact Hmap.
  - rewrite <- Hmap, length_map. reflexivity.
  - intros lbl Hin Hzero.
    destruct (Forall2_In_l _ _ _ lbl Hlabels Hin) as (r & Hr & Hl & Hc & Ha).
    rewrite Hzero in Hc, Ha. cbn in Hc, Ha. injection Ha as Ha.
    destruct r as [l c a]; cbn in *; subst. exact Hr.
  - rewrite <- (map_id FOCUSED_LABELS).
    apply (Forall2_map_fst _ Scope (fun x => x) _ _ Hfocused). intros x y (-> & _). reflexivity.
  - intros lbl Hin Hzero.
    destruct (Forall2_In_l _ _ _ lbl Hfocused Hin) as (r & Hr & Hl & Hc & Ha).
    rewrite Hzero in Hc, Ha. cbn in Hc, Ha. injection Ha as Ha.
    destruct r as [l c a]; cbn in *; subst. exact Hr.
Qed.

Lemma C5_lane_omission_label_inclusion_witness :
  build_report sample_cards = Ok sample_report /\
  ((forall lane, In lane REQUESTED_LANES ->
     (forall c, In c sample_cards -> column c <> lane) ->
     forall r, In r (lane_rows sample_report) -> Lane r <> lane) /\
  map Label (all_label_rows sample_report) = ALL_LABELS /\
  List.length (all_label_rows sample_report) = List.length ALL_LABELS /\
  (forall lbl, In lbl ALL_LABELS ->
     label_ages lbl (active_cards sample_cards) = [] ->
     In (mk_label_row lbl 0 (PyInt 0)) (all_label_rows sample_report)) /\
  map Scope (tl (scope_rows sample_report)) = FOCUSED_LABELS /\
  (forall lbl, In lbl FOCUSED_LABELS ->
     label_ages lbl (active_cards sample_cards) = [] ->
     In (mk_scope_row lbl 0 (PyInt 0)) (tl (scope_rows sample_report)))).
Proof.
  split; [vm_compute; reflexivity | ].
  apply (C5_lane_omission_label_inclusion sample_cards sample_report).
  vm_compute; reflexivity.
Defined.

(** ** The price summary *)

Lemma sum_or_0_total xs : sum_or_0 xs = total xs.
Proof. destruct xs; [reflexivity | apply sum_total]. Qed.

Lemma quoted_table_inv cards active q :
  quoted_table cards active = Ok q ->
  let ap := price_values active in
  let wp := price_values (filter (fun c => String.eqb (column c) "Completed") cards) in
  let lp := price_values (filter (fun c => String.eqb (column c) "Canceled") cards) in
  Total_Value_Count q = Num.len ap /\ Total_Value q = total ap /\
  avg_or_0 ap = Ok (Average_Value q) /\
  Total_Won_Count q = Num.len wp /\ Total_Won q = total wp /\
  avg_or_0 wp = Ok (Average_Won q) /\
  Total_Lost_Count q = Num.len lp /\ Total_Lost q = total lp /\
  avg_or_0 lp = Ok (Average_Lost q).
Proof.
  unfold quoted_table. intros H. bind_ok H. bind_ok H. bind_ok H.
  injection H as <-. cbn. rewrite !sum_or_0_total. repeat split; assumption.
Qed.

Lemma consistent_of_avg xs a :
  avg_or_0 xs = Ok a -> consistent (Num.len xs) (total xs) a.
Proof.
  intros H. destruct (avg_or_0_inv _ _ H) as [[-> ->] | [Hne Hm]]; split.
  - cbn. lia.
  - intros _. split; reflexivity.
  - intros _. exact Hm.
  - intros Hz. apply len_zero_nil in Hz. contradiction.
Qed.

(** C6.  In the price summary, each population's mean is, when the count
    is positive, the sum divided by the count itself if that is a whole
    number and else that quotient rounded to two decimals as binary
    floating point has it; count, sum and mean are the integer 0 when the
    count is 0. *)
Theorem C6_price_summary_consistent cards rep :
  build_report cards = Ok rep ->
  let q := quoted_stats rep in
  consistent (Total_Value_Count q) (Total_Value q) (Average_Value q) /\
  consistent (Total_Won_Count q) (Total_Won q) (Average_Won q) /\
  consistent (Total_Lost_Count q) (Total_Lost q) (Average_Lost q) /\
  0 <= Total_Value_Count q /\ 0 <= Total_Won_Count q /\ 0 <= Total_Lost_Count q.
Proof.
  intros H. apply build_report_inv in H.
  destruct H as (a0 & focused & lanes & quoted & labels & _ & _ & _ & Hq & _ & ->).
  cbn [quoted_stats]. apply quoted_table_inv in Hq. cbv zeta in Hq.
  destruct Hq as (-> & -> & Ha & -> & -> & Hw & -> & -> & Hl).
  split; [exact (consistent_of_avg _ _ Ha) | ].
  split; [exact (consistent_of_avg _ _ Hw) | ].
  split; [exact (consistent_of_avg _ _ Hl) | ].
  repeat split; apply len_nonneg.
Qed.

Lemma C6_price_summary_consistent_witness :
  build_report sample_cards = Ok sample_report /\
  let q := quoted_stats sample_report in
  consistent (Total_Value_Count q) (Total_Value q) (Average_Value q) /\
  consistent (Total_Won_Count q) (Total_Won q) (Average_Won q) /\
  consistent (Total_Lost_Count q) (Total_Lost q) (Average_Lost q) /\
  0 <= Total_Value_Count q /\ 0 <= Total_Won_Count q /\ 0 <= Total_Lost_Count q.
Proof.
  split; [vm_compute; reflexivity | ].
  apply (C6_price_summary_consistent sample_cards sample_report).
  vm_compute; reflexivity.
Defined.

(** The claim C6 fails on either reading of [round(sum/count, 2)].  Read
    as the Python expression: one card priced [2^53 + 1] has the mean
    9007199254740993, an [int], while the expression gives the float
    9007199254740992.0.  Read as arithmetic: forty prices, 27 of 3 and 13
    of 2, have the mean 2.675, which rounds to 2.68, and the summary shows
    the float 2.67. *)
Lemma C6_mean_is_not_round_of_quotient :
  (exists rep,
     build_report [card_priced_2_53_1] = Ok rep /\
     Total_Value_Count (quoted_stats rep) = 1 /\
     Total_Value (quoted_stats rep) = 2 ^ 53 + 1 /\
     Average_Value (quoted_stats rep) = PyInt (2 ^ 53 + 1) /\
     python_round_div (2 ^ 53 + 1) 1 = Ok (PyFloat (S754_finite false 4503599627370496 1)) /\
     ~ (value (Average_Value (quoted_stats rep))
        == value (PyFloat (S754_finite false 4503599627370496 1)))%Q) /\
  (exists rep,
     build_report cards_mean_price_2_675 = Ok rep /\
     Total_Value_Count (quoted_stats rep) = 40 /\
     Total_Value (quoted_stats rep) = 107 /\
     Average_Value (quoted_stats rep)
       = PyFloat (S754_finite false 6012305502539612 (-51)) /\
     ~ mean_rounded_2 107 40 (Average_Value (quoted_stats rep))).
Proof.
  split.
  - destruct (build_report [card_priced_2_53_1]) as [rep | e] eqn:E;
      [ | vm_compute in E; discriminate E].
    exists rep. split; [reflexivity | ].
    apply build_report_inv in E.
    destruct E as (a0 & focused & lanes & quoted & labels & _ & _ & _ & Hq & _ & ->).
    cbn [quoted_stats]. vm_compute in Hq. injection Hq as <-.
    cbn [Total_Value_Count Total_Value Average_Value].
    split; [reflexivity | ]. split; [reflexivity | ]. split; [reflexivity | ].
    split; [vm_compute; reflexivity | ].
    vm_compute. discriminate.
  - destruct (build_report cards_mean_price_2_675) as [rep | e] eqn:E;
      [ | vm_compute in E; discriminate E].
    exists rep. split; [reflexivity | ].
    apply build_report_inv in E.
    destruct E as (a0 & focused & lanes & quoted & labels & _ & _ & _ & Hq & _ & ->).
    cbn [quoted_stats]. vm_compute in Hq. injection Hq as <-.
    cbn [Total_Value_Count Total_Value Average_Value].
    split; [reflexivity | ]. split; [reflexivity | ]. split; [reflexivity | ].
    intros (k & Hk & Hv). apply hundredths_of_2_675 in Hk. subst k.
    vm_compute in Hv. apply Hv. reflexivity.
Qed.

(** ** The figures of the price summary, population by population *)

Lemma active_population_spec c :
  negb (mem (column c) EXCLUDED_COLUMNS_FOR_AGE) = active_population c.
Proof.
  unfold mem, EXCLUDED_COLUMNS_FOR_AGE, active_population. cbn [existsb].
  rewrite Bool.orb_false_r, Bool.orb_assoc. reflexivity.
Qed.

Lemma price_values_count (p : card -> bool) cs :
  Num.len (price_values (filter p cs)) = priced_count p cs.
Proof.
  unfold Num.len, price_values.
  induction cs as [ | c cs IH]; cbn [filter priced_count]; [reflexivity | ].
  rewrite <- IH. destruct (p c); [ | lia]. cbn [flat_map].
  rewrite length_app. destruct (price c); cbn [List.length]; lia.
Qed.

Lemma total_app xs ys : total (xs ++ ys) = total xs + total ys.
Proof. induction xs as [ | x xs IH]; cbn [app total]; lia. Qed.

Lemma price_values_sum (p : card -> bool) cs :
  total (price_values (filter p cs)) = priced_sum p cs.
Proof.
  unfold price_values.
  induction cs as [ | c cs IH]; cbn [filter priced_sum]; [reflexivity | ].
  rewrite <- IH. destruct (p c); [ | lia]. cbn [flat_map].
  rewrite total_app. destruct (price c); cbn [total]; lia.
Qed.

(** The nine figures of the summary: for each population the number of
    its priced cards, the sum of their prices, and their mean. *)
Lemma quoted_figures cards rep :
  build_report cards = Ok rep ->
  let q := quoted_stats rep in
  let figures pop count sum mean :=
    count = priced_count pop cards /\ sum = priced_sum pop cards /\
    consistent (priced_count pop cards) (priced_sum pop cards) mean in
  figures active_population (Total_Value_Count q) (Total_Value q) (Average_Value q) /\
  figures won_population (Total_Won_Count q) (Total_Won q) (Average_Won q) /\
  figures lost_population (Total_Lost_Count q) (Total_Lost q) (Average_Lost q).
Proof.
  intros H. apply build_report_inv in H.
  destruct H as (a0 & focused & lanes & quoted & labels & _ & _ & _ & Hq & _ & ->).
  cbn [quoted_stats]. apply quoted_table_inv in Hq. cbv zeta in *.
  unfold active_cards in Hq.
  rewrite (filter_ext _ active_population active_population_spec) in Hq.
  fold won_population lost_population in Hq.
  change (fun c : card => String.eqb (column c) "Completed") with won_population in Hq.
  change (fun c : card => String.eqb (column c) "Canceled") with lost_population in Hq.
  destruct Hq as (Hc1 & Hs1 & Ha & Hc2 & Hs2 & Hw & Hc3 & Hs3 & Hl).
  apply consistent_of_avg in Ha, Hw, Hl.
  rewrite !price_values_count, !price_values_sum in *.
  split; [split; [exact Hc1 | split; [exact Hs1 | exact Ha]] | ].
  split; [split; [exact Hc2 | split; [exact Hs2 | exact Hw]] | ].
  split; [exact Hc3 | split; [exact Hs3 | exact Hl]].
Qed.

(** C7.  The price summary is computed over the priced cards outside the
    excluded columns (active), the priced cards of column "Completed" (won)
    and the priced cards of column "Canceled" (lost): each count is the
    number of those cards, each total the sum of their prices and each
    mean their mean; and no card is in two of these populations. *)
Theorem C7_price_populations_disjoint cards rep :
  build_report cards = Ok rep ->
  let q := quoted_stats rep in
  (Total_Value_Count q = priced_count active_population cards /\
   Total_Value q = priced_sum active_population cards /\
   consistent (priced_count active_population cards)
     (priced_sum active_population cards) (Average_Value q)) /\
  (Total_Won_Count q = priced_count won_population cards /\
   Total_Won q = priced_sum won_population cards /\
   consistent (priced_count won_population cards)
     (priced_sum won_population cards) (Average_Won q)) /\
  (Total_Lost_Count q = priced_count lost_population cards /\
   Total_Lost q = priced_sum lost_population cards /\
   consistent (priced_count lost_population cards)
     (priced_sum lost_population cards) (Average_Lost q)) /\
  (forall c,
     (active_population c = true <-> ~ column_excluded (column c)) /\
     (won_population c = true <-> column c = "Completed") /\
     (lost_population c = true <-> column c = "Canceled")) /\
  (forall c,
     ~ (active_population c = true /\ won_population c = true) /\
     ~ (active_population c = true /\ lost_population c = true) /\
     ~ (won_population c = true /\ lost_population c = true)).
Proof.
  intros H. cbv zeta.
  destruct (quoted_figures cards rep H) as (Ha & Hw & Hl).
  split; [exact Ha | ]. split; [exact Hw | ]. split; [exact Hl | ].
  assert (Hspec : forall c,
     (active_population c = true <-> ~ column_excluded (column c)) /\
     (won_population c = true <-> column c = "Completed") /\
     (lost_population c = true <-> column c = "Canceled")).
  { intro c. unfold active_population, won_population, lost_population, column_excluded.
    rewrite Bool.negb_true_iff, <- Bool.not_true_iff_false, !Bool.orb_true_iff,
      !String.eqb_eq. tauto. }
  split; [exact Hspec | ].
  intro c. destruct (Hspec c) as (HA & HW & HL). unfold column_excluded in HA.
  rewrite HA, HW, HL. repeat split.
  - tauto.
  - tauto.
  - intros [E1 E2]. rewrite E1 in E2. discriminate.
Qed.

Lemma C7_price_populations_disjoint_witness :
  build_report sample_cards = Ok sample_report /\
  let q := quoted_stats sample_report in
  (Total_Value_Count q = priced_count active_population sample_cards /\
   Total_Value q = priced_sum active_population sample_cards /\
   consistent (priced_count active_population sample_cards)
     (priced_sum active_population sample_cards) (Average_Value q)) /\
  (Total_Won_Count q = priced_count won_population sample_cards /\
   Total_Won q = priced_sum won_population sample_cards /\
   consistent (priced_count won_population sample_cards)
     (priced_sum won_population sample_cards) (Average_Won q)) /\
  (Total_Lost_Count q = priced_count lost_population sample_cards /\
   Total_Lost q = priced_sum lost_population sample_cards /\
   consistent (priced_count lost_population sample_cards)
     (priced_sum lost_population sample_cards) (Average_Lost q)) /\
  (forall c,
     (active_population c = true <-> ~ column_excluded (column c)) /\
     (won_population c = true <-> column c = "Completed") /\
     (lost_population c = true <-> column c = "Canceled")) /\
  (forall c,
     ~ (active_population c = true /\ won_population c = true) /\
     ~ (active_population c = true /\ lost_population c = true) /\
     ~ (won_population c = true /\ lost_population c = true)).
Proof.
  split; [vm_compute; reflexivity | ].
  apply (C7_price_populations_disjoint sample_cards sample_report).
  vm_compute; reflexivity.
Defined.

(** ** Documents without columns *)

Lemma card_of_undated today col cand :
  undated cand -> card_of today col cand = Ok None.
Proof.
  unfold undated, card_of. destruct (Str.is_empty _); [reflexivity | ].
  destruct (search_group1 DATE_PAT _); [ | reflexivity].
  intros ->. reflexivity.
Qed.

Lemma scan_cards_undated today col cands out :
  (forall cand, In cand cands -> undated cand) ->
  scan_cards today col cands out = Ok out.
Proof.
  induction cands as [ | cand cands IH]; intros H; cbn [scan_cards].
  - reflexivity.
  - rewrite card_of_undated by (apply H; left; reflexivity).
    cbn [bind]. apply IH. intros c Hc. apply H. right; exact Hc.
Qed.

Lemma scan_columns_no_cards today outers out :
  (forall outer, In outer outers ->
     Soup.find_div_class "_headerName_" (Soup.descendants outer) = None \/
     forall cand, In cand (candidates outer) -> undated cand) ->
  scan_columns today outers out = Ok out.
Proof.
  induction outers as [ | outer outers IH]; intros H; cbn [scan_columns].
  - reflexivity.
  - assert (Hcol : scan_column today outer out = Ok out).
    { unfold scan_column.
      destruct (H outer (or_introl eq_refl)) as [-> | Hund]; [reflexivity | ].
      destruct (Soup.find_div_class _ _); [ | reflexivity].
      apply scan_cards_undated, Hund. }
    rewrite Hcol. cbn [bind]. apply IH. intros o Ho. apply H. right; exact Ho.
Qed.

Lemma build_report_nil_all_zero :
  exists rep, build_report [] = Ok rep /\ all_zero rep /\ lane_rows rep = [].
Proof.
  eexists. split; [vm_compute; reflexivity | ].
  unfold all_zero, is_zero. cbn.
  repeat split;
    repeat (apply Forall_cons;
            [split; [reflexivity | first [left; reflexivity | right; reflexivity]] | ]);
    apply Forall_nil.
Qed.

(** C8.  When the parser returns a document, and the document has no
    column or card structure (the empty document, one without
    header-bearing column containers, one whose candidates carry no
    readable date), extraction returns the empty card sequence,
    aggregation of it returns tables whose counts, sums and averages are
    all zero, and the pass as a whole returns that report: nothing is
    raised.  When the parser raises, so does the pass. *)
Theorem C8_empty_input_all_zero
    (html_parser : list Byte.byte -> result (list node)) (w : world)
    (html : list Byte.byte) :
  (forall doc,
     BeautifulSoup html_parser html = Ok doc ->
     no_cards doc ->
     (forall today, extract_cards today doc = Ok []) /\
     exists rep,
       build_report [] = Ok rep /\ all_zero rep /\ lane_rows rep = [] /\
       fst (analyze html_parser w html) = Ok rep) /\
  (forall e,
     BeautifulSoup html_parser html = Raise e ->
     fst (analyze html_parser w html) = Raise e).
Proof.
  split.
  - intros doc Hdoc Hno.
    assert (Hex : forall today, extract_cards today doc = Ok []).
    { intro today. unfold extract_cards. apply scan_columns_no_cards. exact Hno. }
    split; [exact Hex | ].
    destruct build_report_nil_all_zero as (rep & Hrep & Hz & Hl).
    exists rep. split; [exact Hrep | split; [exact Hz | split; [exact Hl | ]]].
    unfold analyze, now_utc_date. rewrite Hdoc. cbv beta iota zeta.
    rewrite Hex, Hrep. reflexivity.
  - intros e He. unfold analyze. rewrite He. reflexivity.
Qed.

(** The claim C8 fails on bytes the parser rejects: the five bytes
    [<![x[] hold no column or card, and the pass raises
    [ParserRejectedMarkup] on them whatever the parser does elsewhere. *)
Lemma C8_rejected_markup_raises :
  Markup.rejected markup_unknown_section = true /\
  forall html_parser w,
    no_structure html_parser markup_unknown_section /\
    BeautifulSoup html_parser markup_unknown_section = Raise ParserRejectedMarkup /\
    fst (analyze html_parser w markup_unknown_section) = Raise ParserRejectedMarkup /\
    ~ (exists rep, fst (analyze html_parser w markup_unknown_section) = Ok rep).
Proof.
  split; [vm_compute; reflexivity | ].
  intros html_parser w.
  assert (Hsoup : BeautifulSoup html_parser markup_unknown_section
                  = Raise ParserRejectedMarkup).
  { unfold BeautifulSoup.
    replace (Markup.rejected markup_unknown_section) with true
      by (vm_compute; reflexivity).
    reflexivity. }
  assert (Hpass : fst (analyze html_parser w markup_unknown_section)
                  = Raise ParserRejectedMarkup).
  { unfold analyze. rewrite Hsoup. reflexivity. }
  split; [intros doc Hdoc; rewrite Hsoup in Hdoc; discriminate Hdoc | ].
  split; [exact Hsoup | ]. split; [exact Hpass | ].
  intros (rep & Hrep). rewrite Hpass in Hrep. discriminate Hrep.
Qed.

Lemma C8_empty_input_all_zero_witness :
  let parser := fun _ : list Byte.byte => Ok ([] : list node) in
  let w := mk_world (fun _ => sample_today) 0 None in
  BeautifulSoup parser [] = Ok [] /\
  no_cards [] /\
  (forall today, extract_cards today [] = Ok []) /\
  exists rep,
    build_report [] = Ok rep /\ all_zero rep /\ lane_rows rep = [] /\
    fst (analyze parser w []) = Ok rep.
Proof.
  intros parser w.
  assert (Hsoup : BeautifulSoup parser [] = Ok []) by reflexivity.
  assert (Hno : no_cards []) by (intros outer H; destruct H).
  split; [exact Hsoup | ]. split; [exact Hno | ].
  exact (proj1 (C8_empty_input_all_zero parser w []) [] Hsoup Hno).
Defined.

(** ** The regular-expression matcher finds words of the pattern *)

Lemma string_app_assoc (a b c : string) : ((a ++ b) ++ c)%string = (a ++ (b ++ c))%string.
Proof. induction a as [ | x a IH]; cbn; [reflexivity | rewrite IH; reflexivity]. Qed.

Lemma string_length_app (a b : string) :
  String.length (a ++ b) = (String.length a + String.length b)%nat.
Proof. induction a as [ | x a IH]; cbn; [reflexivity | rewrite IH; reflexivity]. Qed.

Lemma substring_prefix (pre rest : string) :
  substring 0 (String.length pre) (pre ++ rest) = pre.
Proof.
  induction pre as [ | c pre IH]; cbn.
  - destruct rest; reflexivity.
  - rewrite IH. reflexivity.
Qed.

Lemma consumed_app (pre rest : string) : consumed (pre ++ rest) rest = pre.
Proof.
  unfold consumed. rewrite string_length_app.
  replace (String.length pre + String.length rest - String.length rest)%nat
    with (String.length pre) by lia.
  apply substring_prefix.
Qed.

Lemma rep_sound {R} p : forall s lo hi (k : string -> option R) x,
  rep p lo hi s k = Some x ->
  exists pre s',
    s = (pre ++ s')%string /\ re_lang true (Rep p lo hi) pre /\ k s' = Some x.
Proof.
  induction s as [ | c s IH]; intros lo hi k x H; cbn [rep] in H.
  - destruct lo; [ | discriminate]. exists EmptyString, EmptyString.
    cbn. repeat split; auto. destruct hi; [lia | exact I].
  - assert (Hstop : match lo with O => k (String c s) | S _ => None end = Some x ->
                    exists pre s', String c s = (pre ++ s')%string /\
                                   re_lang true (Rep p lo hi) pre /\ k s' = Some x).
    { destruct lo; [ | discriminate]. intros Hk.
      exists EmptyString, (String c s). cbn. repeat split; auto.
      destruct hi; [lia | exact I]. }
    destruct (p c && hi_allows hi) eqn:Hpc; [ | auto].
    destruct (rep p (Nat.pred lo) (hi_pred hi) s k) eqn:Hrec; [ | auto].
    injection H as ->. apply IH in Hrec.
    destruct Hrec as (pre & s' & -> & (Hall & Hlo & Hhi) & Hk).
    apply Bool.andb_true_iff in Hpc. destruct Hpc as [Hp Hallow].
    exists (String c pre), s'. cbn. rewrite Hp, Hall.
    split; [reflexivity | ]. split; [ | exact Hk]. split; [reflexivity | ]. split.
    + lia.
    + destruct hi as [ [ | h] | ]; cbn in *; try discriminate; try lia.
Qed.

Lemma run_sound {R} icase r : forall s cs (k : string -> captures -> option R) x,
  run icase r s cs k = Some x ->
  exists pre s' cs',
    s = (pre ++ s')%string /\ re_lang icase r pre /\ k s' cs' = Some x.
Proof.
  induction r as [ | a | p | r1 IH1 r2 IH2 | r1 IH1 r2 IH2 | p lo hi | name r1 IH1];
    intros s cs k x H; cbn [run] in H.
  - exists EmptyString, s, cs. cbn. auto.
  - destruct s as [ | c s]; [discriminate | ].
    destruct (chr_matches icase a c) eqn:E; [ | discriminate].
    exists (String c EmptyString), s, cs. cbn. split; [reflexivity | ]. split; [ | exact H].
    exists c. auto.
  - destruct s as [ | c s]; [discriminate | ].
    destruct (p c) eqn:E; [ | discriminate].
    exists (String c EmptyString), s, cs. cbn. split; [reflexivity | ]. split; [ | exact H].
    exists c. auto.
  - apply IH1 in H. destruct H as (w1 & s1 & cs1 & -> & H1 & H).
    apply IH2 in H. destruct H as (w2 & s2 & cs2 & -> & H2 & H).
    exists (w1 ++ w2)%string, s2, cs2. rewrite string_app_assoc.
    split; [reflexivity | ]. split; [ | exact H]. cbn. exists w1, w2. auto.
  - destruct (run icase r1 s cs k) eqn:E.
    + injection H as ->. apply IH1 in E. destruct E as (w & s' & cs' & -> & Hw & Hk).
      exists w, s', cs'. cbn. auto.
    + apply IH2 in H. destruct H as (w & s' & cs' & -> & Hw & Hk).
      exists w, s', cs'. cbn. auto.
  - apply rep_sound in H. destruct H as (pre & s' & -> & Hl & Hk).
    exists pre, s', cs. auto.
  - apply IH1 in H. destruct H as (w & s' & cs' & -> & Hw & Hk).
    exists w, s', ((name, consumed (w ++ s') s') :: cs'). cbn. auto.
Qed.

(** The group opened last at the end of a pattern holds a word of its body. *)
Lemma run_group_last icase name body s cs rest cs' :
  run icase (Grp name body) s cs (fun r c => Some (r, c)) = Some (rest, cs') ->
  exists g, s = (g ++ rest)%string /\ group name cs' = Some g /\ re_lang icase body g.
Proof.
  cbn [run]. intros H. apply run_sound in H.
  destruct H as (w & s' & cs1 & -> & Hw & Hk). injection Hk as <- <-.
  exists w. cbn [group]. rewrite String.eqb_refl, consumed_app. auto.
Qed.

(** [search] returns the match at the leftmost position that has one. *)
Lemma search_leftmost icase r : forall s cs,
  search icase r s = Some cs ->
  exists pre s0 rest,
    s = (pre ++ s0)%string /\
    match_ icase r s0 = Some (rest, cs) /\
    forall p1 s1, s = (p1 ++ s1)%string ->
                  (String.length p1 < String.length pre)%nat ->
                  match_ icase r s1 = None.
Proof.
  induction s as [ | c s IH]; intros cs H; cbn [search] in H.
  - destruct (match_ icase r "") as [[rest cs0] | ] eqn:E; [ | discriminate].
    injection H as ->. exists EmptyString, EmptyString, rest.
    split; [reflexivity | ]. split; [exact E | ]. cbn. intros; lia.
  - destruct (match_ icase r (String c s)) as [[rest cs0] | ] eqn:E.
    + injection H as ->. exists EmptyString, (String c s), rest.
      split; [reflexivity | ]. split; [exact E | ]. cbn. intros; lia.
    + destruct (IH _ H) as (pre & s0 & rest & -> & Hm & Hleft).
      exists (String c pre), s0, rest.
      split; [reflexivity | ]. split; [exact Hm | ].
      intros p1 s1 Heq Hlen. destruct p1 as [ | c1 p1]; cbn in Heq.
      * subst s1. exact E.
      * injection Heq as _ Heq. apply (Hleft p1 s1 Heq). cbn in Hlen. lia.
Qed.

(** A literal matches, whatever the case, the words that lower to it. *)
Lemma lit_lang s : forall w,
  re_lang true (lit s) w -> Str.to_lower w = Str.to_lower s.
Proof.
  induction s as [ | a s IH]; intros w; cbn [lit re_lang].
  - intros ->. reflexivity.
  - intros (w1 & w2 & -> & (c & -> & Hc) & Hw2).
    unfold chr_matches in Hc. apply Ascii.eqb_eq in Hc.
    cbn. unfold Str.to_lower in *. cbn [Str.map]. rewrite Hc, (IH _ Hw2). reflexivity.
Qed.

Lemma run_seq {R} icase r1 r2 s cs (k : string -> captures -> option R) x :
  run icase (Seq r1 r2) s cs k = Some x ->
  exists pre s' cs',
    s = (pre ++ s')%string /\ re_lang icase r1 pre /\ run icase r2 s' cs' k = Some x.
Proof. cbn [run]. intros H. apply run_sound in H. exact H. Qed.

(** ** What the two patterns capture *)

(** A match of [DATE_PAT]: the marker in any case, colons or blanks, and
    the captured token; nothing matches further to the left. *)
Lemma date_match_parts txt g :
  search_group1 DATE_PAT txt = Some g ->
  exists pre marker sep rest,
    txt = (pre ++ marker ++ sep ++ g ++ rest)%string /\
    Str.to_lower marker = "received" /\
    Str.forallb colon_or_space sep = true /\ sep <> EmptyString /\
    re_lang true DATE_TOKEN g /\
    forall p1 s1, txt = (p1 ++ s1)%string ->
                  (String.length p1 < String.length pre)%nat ->
                  match_ true DATE_PAT s1 = None.
Proof.
  unfold search_group1. destruct (search true DATE_PAT txt) as [cs | ] eqn:E; [ | discriminate].
  intros Hg. apply search_leftmost in E. destruct E as (pre & s0 & rest & -> & E & Hleft).
  unfold match_, DATE_PAT in E.
  apply run_seq in E. destruct E as (marker & s1 & cs1 & -> & Hmk & E).
  apply run_seq in E. destruct E as (sep & s2 & cs2 & -> & Hsep & E).
  apply run_group_last in E. destruct E as (g' & -> & Hg' & Hl).
  rewrite Hg' in Hg. injection Hg as <-.
  exists pre, marker, sep, rest. split; [reflexivity | ].
  split; [apply lit_lang in Hmk; exact Hmk | ].
  cbn [re_lang] in Hsep. destruct Hsep as (Hall & Hlen & _).
  split; [exact Hall | ]. split; [destruct sep; [cbn in Hlen; lia | discriminate] | ].
  split; [exact Hl | exact Hleft].
Qed.

Lemma date_group_token txt g :
  search_group1 DATE_PAT txt = Some g -> re_lang true DATE_TOKEN g.
Proof.
  intros H. apply date_match_parts in H.
  destruct H as (pre & marker & sep & rest & _ & _ & _ & _ & Hl & _). exact Hl.
Qed.

(** A match of [PRICE_PAT]: the marker in any case, blanks, dollar signs or
    colons, blanks, and the captured run of digits and commas; nothing
    matches further to the left. *)
Lemma price_match_parts txt g :
  search_group1 PRICE_PAT txt = Some g ->
  exists pre marker sp1 dc sp2 rest,
    txt = (pre ++ marker ++ sp1 ++ dc ++ sp2 ++ g ++ rest)%string /\
    Str.to_lower marker = "quoted price" /\
    Str.forallb Str.is_space sp1 = true /\
    Str.forallb dollar_or_colon dc = true /\
    Str.forallb Str.is_space sp2 = true /\
    Str.forallb digit_or_comma g = true /\ g <> EmptyString /\
    forall p1 s1, txt = (p1 ++ s1)%string ->
                  (String.length p1 < String.length pre)%nat ->
                  match_ true PRICE_PAT s1 = None.
Proof.
  unfold search_group1. destruct (search true PRICE_PAT txt) as [cs | ] eqn:E; [ | discriminate].
  intros Hg. apply search_leftmost in E. destruct E as (pre & s0 & rest & -> & E & Hleft).
  unfold match_, PRICE_PAT in E.
  apply run_seq in E. destruct E as (marker & s1 & cs1 & -> & Hmk & E).
  apply run_seq in E. destruct E as (sp1 & s2 & cs2 & -> & (H1 & _) & E).
  apply run_seq in E. destruct E as (dc & s3 & cs3 & -> & (H2 & _) & E).
  apply run_seq in E. destruct E as (sp2 & s4 & cs4 & -> & (H3 & _) & E).
  apply run_group_last in E. destruct E as (g' & -> & Hg' & Hl).
  rewrite Hg' in Hg. injection Hg as <-. cbn in Hl. destruct Hl as (Hall & Hlen & _).
  exists pre, marker, sp1, dc, sp2, rest. split; [reflexivity | ].
  split; [apply lit_lang in Hmk; exact Hmk | ].
  repeat (split; [assumption | ]).
  split; [destruct g'; [cbn in Hlen; lia | discriminate] | exact Hleft].
Qed.

Lemma price_group_digits_commas txt g :
  search_group1 PRICE_PAT txt = Some g ->
  Str.forallb digit_or_comma g = true /\ g <> EmptyString.
Proof.
  intros H. apply price_match_parts in H.
  destruct H as (pre & marker & sp1 & dc & sp2 & rest & _ & _ & _ & _ & _ & Ha & Hne & _).
  split; assumption.
Qed.

Lemma slash_only c : chr_matches true "/" c = true -> c = "/"%char.
Proof.
  destruct c as [b0 b1 b2 b3 b4 b5 b6 b7].
  destruct b0, b1, b2, b3, b4, b5, b6, b7; vm_compute; intros H;
    first [reflexivity | discriminate H].
Qed.

Lemma slash_not_digit : Str.is_digit "/" = false.
Proof. reflexivity. Qed.

(** A date token starts with one or two digits followed by a slash. *)
Lemma date_token_head g :
  re_lang true DATE_TOKEN g ->
  exists a tl_,
    Str.is_digit a = true /\
    (g = String a (String "/" tl_) \/
     exists b, Str.is_digit b = true /\ g = String a (String b (String "/" tl_))).
Proof.
  unfold DATE_TOKEN. cbn [re_lang].
  intros (d1 & w1 & -> & (Hd1 & Hlo & Hhi) & (sl & w2 & -> & (c & -> & Hc) & _)).
  apply slash_only in Hc. subst c.
  destruct d1 as [ | a [ | b [ | x d1]]]; cbn in Hlo, Hhi; try lia.
  - cbn in Hd1. rewrite Bool.andb_true_r in Hd1.
    exists a, w2. split; [exact Hd1 | left; reflexivity].
  - cbn in Hd1. rewrite Bool.andb_true_r in Hd1. apply Bool.andb_true_iff in Hd1.
    destruct Hd1 as [Ha Hb].
    exists a, w2. split; [exact Ha | right]. exists b. split; [exact Hb | reflexivity].
Qed.

(** No date token is in the ISO form: the third format of [parse_date]
    never parses what [DATE_PAT] captures. *)
Lemma date_token_not_iso g :
  re_lang true DATE_TOKEN g -> strptime_date g FMT_iso = Raise ValueError.
Proof.
  intros H. apply date_token_head in H.
  destruct H as (a & tl_ & Ha & [-> | (b & Hb & ->)]);
    unfold strptime_date, match_, FMT_iso, pattern, directive_re, digit;
    cbn [run]; rewrite ?Ha, ?Hb, ?slash_not_digit; reflexivity.
Qed.

(** ** [int] on digit groups *)

Lemma is_digit_value c : Str.is_digit c = true -> 0 <= Z.of_N (Str.code c) - 48 <= 9.
Proof.
  unfold Str.is_digit, Str.between. rewrite Bool.andb_true_iff, !N.leb_le. lia.
Qed.

Lemma digits_value_total s : forall acc,
  Str.forallb Str.is_digit s = true -> 0 <= acc ->
  exists n, digits_value acc s = Some n /\ acc <= n.
Proof.
  induction s as [ | c s IH]; intros acc Hall Hacc; cbn [digits_value].
  - exists acc. split; [reflexivity | lia].
  - cbn in Hall. apply Bool.andb_true_iff in Hall. destruct Hall as [Hc Hs].
    rewrite Hc. pose proof (is_digit_value c Hc) as Hv.
    destruct (IH (10 * acc + (Z.of_N (Str.code c) - 48)) Hs) as (n & Hn & Hle); [lia | ].
    exists n. split; [exact Hn | lia].
Qed.

Lemma remove_commas_digits g :
  Str.forallb digit_or_comma g = true ->
  Str.forallb Str.is_digit (Str.remove "," g) = true.
Proof.
  induction g as [ | c g IH]; cbn; [reflexivity | ].
  rewrite Bool.andb_true_iff. intros [Hc Hg]. unfold digit_or_comma in Hc.
  destruct (Ascii.eqb c ",") eqn:E.
  - apply IH, Hg.
  - rewrite Bool.orb_false_r in Hc. cbn. rewrite Hc. apply IH, Hg.
Qed.

(** The price of a text: absent without a match; the digits of the group
    when it has one; [ValueError] when the group is made of commas only,
    or has more digits than [int] converts. *)
Lemma price_of_text_cases txt :
  (search_group1 PRICE_PAT txt = None /\ price_of_text txt = Ok None) \/
  (exists g,
     search_group1 PRICE_PAT txt = Some g /\
     Str.forallb digit_or_comma g = true /\ g <> EmptyString /\
     ((exists p, ~ unconvertible (Str.remove "," g) /\
                 digits_value 0 (Str.remove "," g) = Some p /\ 0 <= p /\
                 price_of_text txt = Ok (Some p)) \/
      (unconvertible (Str.remove "," g) /\ price_of_text txt = Raise ValueError))).
Proof.
  unfold price_of_text. destruct (search_group1 PRICE_PAT txt) as [g | ] eqn:E.
  - right. exists g. destruct (price_group_digits_commas _ _ E) as [Hall Hne].
    split; [reflexivity | ]. split; [exact Hall | ]. split; [exact Hne | ].
    unfold unconvertible, py_int.
    destruct (Str.remove "," g) as [ | c r] eqn:Er.
    + right. split; [left | ]; reflexivity.
    + destruct (Z.ltb_spec max_str_digits (Z.of_nat (String.length (String c r))))
        as [Hlong | Hshort].
      * right. split; [right; exact Hlong | reflexivity].
      * left. pose proof (remove_commas_digits g Hall) as Hd. rewrite Er in Hd.
        destruct (digits_value_total _ 0 Hd) as (n & Hn & Hle); [lia | ].
        exists n. rewrite Hn. cbn [bind].
        split; [intros [E0 | E0]; [discriminate | lia] | ]. auto.
  - left. split; reflexivity.
Qed.

(** ** Where the emitted cards come from *)

Lemma card_of_inv today col cand c :
  card_of today col cand = Ok (Some c) ->
  column c = col /\ text c = Soup.get_text cand /\ text c <> EmptyString /\
  (exists g, search_group1 DATE_PAT (text c) = Some g /\
             parse_date g = Some (date_ c)) /\
  age c = days_between today (date_ c) /\
  price_of_text (text c) = Ok (price c).
Proof.
  unfold card_of. destruct (Soup.get_text cand) as [ | ch txt] eqn:Et; cbn [Str.is_empty].
  - discriminate.
  - destruct (search_group1 DATE_PAT (String ch txt)) as [g | ] eqn:Eg; [ | discriminate].
    destruct (parse_date g) as [d | ] eqn:Ed; [ | discriminate].
    intros H. bind_ok H. injection H as <-. cbn.
    repeat split; auto; [discriminate | exists g; auto].
Qed.

Lemma scan_cards_from today col : forall cands out out',
  scan_cards today col cands out = Ok out' ->
  forall c, In c out' ->
    In c out \/ exists cand, In cand cands /\ card_of today col cand = Ok (Some c).
Proof.
  induction cands as [ | cand cands IH]; intros out out' H c Hc; cbn [scan_cards] in H.
  - injection H as <-. left; exact Hc.
  - bind_ok H. destruct (IH _ _ H c Hc) as [Hin | (cand' & Hin & Hcard)].
    + destruct a as [c' | ].
      * apply in_app_or in Hin. destruct Hin as [Hin | [<- | []]].
        -- left; exact Hin.
        -- right. exists cand. split; [left; reflexivity | exact E].
      * left; exact Hin.
    + right. exists cand'. split; [right; exact Hin | exact Hcard].
Qed.

Lemma scan_cards_keeps today col : forall cands out out',
  scan_cards today col cands out = Ok out' ->
  (forall c, In c out -> In c out') /\
  (forall cand c, In cand cands -> card_of today col cand = Ok (Some c) -> In c out').
Proof.
  induction cands as [ | cand cands IH]; intros out out' H; cbn [scan_cards] in H.
  - injection H as <-. split; [auto | intros ? ? []].
  - bind_ok H. destruct (IH _ _ H) as [Hkeep Hnew]. split.
    + intros c Hc. apply Hkeep. destruct a; [apply in_or_app; left | ]; exact Hc.
    + intros cand' c [<- | Hin] Hcard.
      * rewrite Hcard in E. injection E as <-. apply Hkeep.
        apply in_or_app. right. left. reflexivity.
      * eapply Hnew; eassumption.
Qed.

Lemma scan_columns_from today : forall outers out out',
  scan_columns today outers out = Ok out' ->
  forall c, In c out' ->
    In c out \/
    exists outer header cand,
      In outer outers /\
      Soup.find_div_class "_headerName_" (Soup.descendants outer) = Some header /\
      In cand (candidates outer) /\
      card_of today (Soup.get_text header) cand = Ok (Some c).
Proof.
  induction outers as [ | outer outers IH]; intros out out' H c Hc; cbn [scan_columns] in H.
  - injection H as <-. left; exact Hc.
  - bind_ok H. destruct (IH _ _ H c Hc) as [Hin | (o & h & cand & Ho & Hh & Hcand & Hcard)].
    + unfold scan_column in E.
      destruct (Soup.find_div_class "_headerName_" (Soup.descendants outer)) as [header | ] eqn:Eh.
      * destruct (scan_cards_from _ _ _ _ _ E c Hin) as [Hold | (cand & Hcand & Hcard)].
        -- left; exact Hold.
        -- right. exists outer, header, cand. repeat split; auto. left; reflexivity.
      * injection E as <-. left; exact Hin.
    + right. exists o, h, cand. repeat split; auto. right; exact Ho.
Qed.

Lemma scan_columns_keeps today : forall outers out out',
  scan_columns today outers out = Ok out' ->
  (forall c, In c out -> In c out') /\
  (forall outer header cand c,
     In outer outers ->
     Soup.find_div_class "_headerName_" (Soup.descendants outer) = Some header ->
     In cand (candidates outer) ->
     card_of today (Soup.get_text header) cand = Ok (Some c) ->
     In c out').
Proof.
  induction outers as [ | outer outers IH]; intros out out' H; cbn [scan_columns] in H.
  - injection H as <-. split; [auto | intros ? ? ? ? []].
  - bind_ok H. destruct (IH _ _ H) as [Hkeep Hnew].
    assert (Hstep : forall c, In c out -> In c a).
    { intros c Hc. unfold scan_column in E.
      destruct (Soup.find_div_class _ _); [ | injection E as <-; exact Hc].
      apply (proj1 (scan_cards_keeps _ _ _ _ _ E)). exact Hc. }
    split.
    + intros c Hc. apply Hkeep, Hstep, Hc.
    + intros o header cand c [<- | Ho] Hh Hcand Hcard.
      * apply Hkeep. unfold scan_column in E. rewrite Hh in E.
        apply (proj2 (scan_cards_keeps _ _ _ _ _ E) cand c Hcand Hcard).
      * eapply Hnew; eassumption.
Qed.

(** Every emitted card was made by [card_of] from a candidate of a column. *)
Lemma extract_cards_from today doc cards c :
  extract_cards today doc = Ok cards -> In c cards ->
  exists col cand, card_of today col cand = Ok (Some c).
Proof.
  unfold extract_cards. intros H Hc.
  destruct (scan_columns_from _ _ _ _ H c Hc) as [[] | (o & h & cand & _ & _ & _ & Hcard)].
  eauto.
Qed.



(** ** When extraction raises *)

Lemma card_of_raise today col cand e :
  card_of today col cand = Raise e ->
  e = ValueError /\
  exists g, search_group1 PRICE_PAT (Soup.get_text cand) = Some g /\
            unconvertible (Str.remove "," g).
Proof.
  unfold card_of. destruct (Str.is_empty _); [discriminate | ].
  destruct (search_group1 DATE_PAT _); [ | discriminate].
  destruct (parse_date _); [ | discriminate].
  destruct (price_of_text_cases (Soup.get_text cand))
    as [[_ Hnone] | (g & Hg & _ & _ & [(q & _ & _ & _ & Hok) | [Hr Hraise]])].
  - rewrite Hnone. discriminate.
  - rewrite Hok. discriminate.
  - rewrite Hraise. cbn [bind]. intros H. injection H as <-. eauto.
Qed.

Lemma scan_cards_raise today col : forall cands out e,
  scan_cards today col cands out = Raise e ->
  exists cand, In cand cands /\ card_of today col cand = Raise e.
Proof.
  induction cands as [ | cand cands IH]; intros out e H; cbn [scan_cards] in H.
  - discriminate.
  - destruct (card_of today col cand) as [r | e'] eqn:E; cbn [bind] in H.
    + destruct (IH _ _ H) as (cand' & Hin & Hc). exists cand'. split; [right | ]; assumption.
    + injection H as <-. exists cand. split; [left; reflexivity | exact E].
Qed.

Lemma scan_columns_raise today : forall outers out e,
  scan_columns today outers out = Raise e ->
  exists outer header cand,
    In outer outers /\
    Soup.find_div_class "_headerName_" (Soup.descendants outer) = Some header /\
    In cand (candidates outer) /\
    card_of today (Soup.get_text header) cand = Raise e.
Proof.
  induction outers as [ | outer outers IH]; intros out e H; cbn [scan_columns] in H.
  - discriminate.
  - destruct (scan_column today outer out) as [out' | e'] eqn:E; cbn [bind] in H.
    + destruct (IH _ _ H) as (o & h & cand & Ho & Hh & Hc & Hr).
      exists o, h, cand. repeat split; auto. right; exact Ho.
    + injection H as <-. unfold scan_column in E.
      destruct (Soup.find_div_class _ _) as [header | ] eqn:Eh; [ | discriminate].
      apply scan_cards_raise in E. destruct E as (cand & Hin & Hr).
      exists outer, header, cand. repeat split; auto. left; reflexivity.
Qed.

(** C2.  Extraction does fail on a whole document because of one card: a
    dated card whose price group has no digit makes [int] raise
    [ValueError], which nothing catches; the same document without that
    card is extracted normally.  Extraction of a parsed document raises
    nothing else, and only so: at a candidate whose price group, the commas
    dropped, is empty or longer than [int] converts. *)
Theorem C2_comma_only_price_raises :
  extract_cards sample_today doc_good =
    Ok [mkcard "Scheduled" "Received: 01/02/23 Quoted Price $1,200"
          (mkdate 2023 1 2) 10 (Some 1200)] /\
  extract_cards sample_today doc_comma_price = Raise ValueError /\
  (forall today doc e,
     extract_cards today doc = Raise e ->
     e = ValueError /\
     exists outer cand g,
       In outer (Soup.find_all_div_class "_outerWrapper_" (Soup.doc_descendants doc)) /\
       In cand (candidates outer) /\
       search_group1 PRICE_PAT (Soup.get_text cand) = Some g /\
       unconvertible (Str.remove "," g)).
Proof.
  split; [vm_compute; reflexivity | ]. split; [vm_compute; reflexivity | ].
  intros today doc e H. unfold extract_cards in H.
  apply scan_columns_raise in H.
  destruct H as (outer & header & cand & Ho & _ & Hc & Hr).
  apply card_of_raise in Hr. destruct Hr as (-> & g & Hg & Hrm).
  split; [reflexivity | ]. exists outer, cand, g. repeat split; auto.
Qed.

(** C3.  [parse_date] tries the three formats in order and returns [None]
    when none parses, and a text without the marker gives no card; but a
    date token in the ISO form, which [parse_date] reads, never reaches it:
    whatever [DATE_PAT] captures is refused by the third format, and a card
    dated "Received: 2023-01-02" is dropped. *)
Theorem C3_iso_token_never_parsed :
  (forall s,
     parse_date s =
       match strptime_date s FMT_mdy with
       | Ok d => Some d
       | Raise _ =>
           match strptime_date s FMT_mdY with
           | Ok d => Some d
           | Raise _ =>
               match strptime_date s FMT_iso with
               | Ok d => Some d
               | Raise _ => None
               end
           end
       end) /\
  (forall today col cand,
     search_group1 DATE_PAT (Soup.get_text cand) = None ->
     card_of today col cand = Ok None) /\
  parse_date "2023-01-02" = Some (mkdate 2023 1 2) /\
  (forall txt g,
     search_group1 DATE_PAT txt = Some g ->
     strptime_date g FMT_iso = Raise ValueError) /\
  search_group1 DATE_PAT "Received: 2023-01-02" = None /\
  extract_cards sample_today doc_iso = Ok [].
Proof.
  split; [intro s; reflexivity | ].
  split.
  { intros today col cand H. unfold card_of. rewrite H.
    destruct (Str.is_empty _); reflexivity. }
  split; [vm_compute; reflexivity | ].
  split.
  { intros txt g H. apply date_token_not_iso. eapply date_group_token. exact H. }
  split; vm_compute; reflexivity.
Qed.

(** C4.  Two passes over the same bytes whose clock reading gives the same
    date return the same report, whatever the earlier requests left behind
    and whatever the clock gives later. *)
Theorem C4_same_input_same_report
    (html_parser : list Byte.byte -> result (list node)) (w1 w2 : world)
    (html1 html2 : list Byte.byte) :
  html1 = html2 ->
  clock w1 (reads w1) = clock w2 (reads w2) ->
  fst (analyze html_parser w1 html1) = fst (analyze html_parser w2 html2).
Proof.
  intros <- Hclock. unfold analyze, now_utc_date.
  destruct (BeautifulSoup html_parser html1) as [doc | e]; [ | reflexivity].
  cbv beta iota zeta. rewrite Hclock.
  destruct (extract_cards _ _) as [cards | e]; [ | reflexivity].
  destruct (build_report cards); reflexivity.
Qed.

Lemma C4_same_input_same_report_witness :
  let parser := fun _ : list Byte.byte => Ok doc_good in
  let w1 := mk_world (fun n => match n with O => sample_today | _ => mkdate 1999 12 31 end)
              0 None in
  let w2 := mk_world (fun _ => sample_today) 5
              (Some (mk_workbook sample_report true)) in
  ([] : list Byte.byte) = [] /\
  clock w1 (reads w1) = clock w2 (reads w2) /\
  fst (analyze parser w1 []) = fst (analyze parser w2 []).
Proof.
  intros parser w1 w2.
  split; [reflexivity | ]. split; [reflexivity | ].
  apply (C4_same_input_same_report parser w1 w2 [] []); reflexivity.
Defined.

(** ** The fallback scan *)

Lemma find_div_class_In p below h :
  Soup.find_div_class p below = Some h ->
  In h below /\ Soup.is_tag "div" h = true.
Proof.
  unfold Soup.find_div_class, Soup.find_all_div_class. intros H.
  destruct (filter _ below) as [ | x xs] eqn:E; [discriminate | ].
  injection H as ->.
  assert (Hin : In h (filter (fun n => Soup.is_tag "div" n && Soup.class_startswith p n) below))
    by (rewrite E; left; reflexivity).
  apply filter_In in Hin. destruct Hin as [Hin Hp].
  apply Bool.andb_true_iff in Hp. tauto.
Qed.

Lemma candidates_fallback outer :
  Soup.select_div_card (Soup.descendants outer) = [] ->
  candidates outer = Soup.find_all_div (Soup.descendants outer).
Proof. unfold candidates. intros ->. reflexivity. Qed.

Lemma descendants_wrap_S k n :
  Soup.descendants (wrap (S k) n) = wrap k n :: Soup.descendants (wrap k n).
Proof. cbn [wrap Soup.descendants flat_map]. apply app_nil_r. Qed.

Lemma get_text_wrap k n : Soup.get_text (wrap k n) = Soup.get_text n.
Proof.
  unfold Soup.get_text. f_equal.
  induction k as [ | k IH]; [reflexivity | ].
  cbn [wrap Soup.stripped_strings flat_map]. rewrite app_nil_r. exact IH.
Qed.

Lemma card_of_same_text today col n1 n2 :
  Soup.get_text n1 = Soup.get_text n2 ->
  card_of today col n1 = card_of today col n2.
Proof. unfold card_of. intros ->. reflexivity. Qed.

Lemma filter_step {A} (P : A -> bool) x l :
  filter P (x :: l) = if P x then x :: filter P l else filter P l.
Proof. reflexivity. Qed.

Lemma wrap_plain_div k t : exists cs, wrap k (plain_div t) = Elem "div" [] cs.
Proof. destruct k; unfold plain_div; cbn [wrap]; eauto. Qed.

Lemma filter_chain (P : node -> bool) k t :
  (forall cs, P (Elem "div" [] cs) = false) ->
  (forall s, P (Text s) = false) ->
  filter P (wrap k (plain_div t) :: Soup.descendants (wrap k (plain_div t))) = [].
Proof.
  intros Hdiv Htext. induction k as [ | k IH].
  - unfold plain_div. cbn. rewrite Hdiv, Htext. reflexivity.
  - rewrite descendants_wrap_S, filter_step, IH.
    destruct (wrap_plain_div (S k) t) as (cs & ->). rewrite Hdiv. reflexivity.
Qed.

Lemma find_all_div_chain k t :
  Soup.find_all_div
    (wrap k (plain_div t) :: Soup.descendants (wrap k (plain_div t)))
  = wraps k (plain_div t).
Proof.
  unfold Soup.find_all_div. induction k as [ | k IH].
  - reflexivity.
  - rewrite descendants_wrap_S, filter_step, IH. cbn [wraps].
    destruct (wrap_plain_div (S k) t) as (cs & E). rewrite E at 1.
    reflexivity.
Qed.

Lemma scan_cards_wraps today col t c : forall k out,
  card_of today col (plain_div t) = Ok (Some c) ->
  scan_cards today col (wraps k (plain_div t)) out = Ok (out ++ repeat c (S k))%list.
Proof.
  induction k as [ | k IH]; intros out Hc; cbn [wraps scan_cards].
  - rewrite Hc. reflexivity.
  - rewrite (card_of_same_text today col _ (plain_div t)) by apply get_text_wrap.
    rewrite Hc. cbn [bind]. rewrite IH by exact Hc.
    rewrite <- app_assoc. reflexivity.
Qed.

Lemma extract_nested today k h t c :
  card_of today (Soup.get_text (header_div h)) (header_div h) = Ok None ->
  card_of today (Soup.get_text (header_div h)) (plain_div t) = Ok (Some c) ->
  extract_cards today [column_div (header_div h) [wrap k (plain_div t)]]
  = Ok (repeat c (S k)).
Proof.
  intros Hh Hc.
  set (chain := wrap k (plain_div t) :: Soup.descendants (wrap k (plain_div t))).
  assert (Hdesc : Soup.descendants (column_div (header_div h) [wrap k (plain_div t)])
                  = header_div h :: Text h :: chain).
  { unfold column_div. cbn [Soup.descendants flat_map]. rewrite app_nil_r. reflexivity. }
  assert (Houters :
    Soup.find_all_div_class "_outerWrapper_"
      (Soup.doc_descendants [column_div (header_div h) [wrap k (plain_div t)]])
    = [column_div (header_div h) [wrap k (plain_div t)]]).
  { unfold Soup.doc_descendants. cbn [flat_map]. rewrite app_nil_r, Hdesc.
    unfold Soup.find_all_div_class. cbn [filter].
    replace (filter _ chain) with (@nil node); [reflexivity | ].
    symmetry. apply filter_chain; reflexivity. }
  unfold extract_cards. rewrite Houters. cbn [scan_columns]. unfold scan_column.
  rewrite Hdesc.
  assert (Hfind : Soup.find_div_class "_headerName_" (header_div h :: Text h :: chain)
                  = Some (header_div h)) by reflexivity.
  rewrite Hfind.
  assert (Hcands : candidates (column_div (header_div h) [wrap k (plain_div t)])
                   = header_div h :: wraps k (plain_div t)).
  { unfold candidates. rewrite Hdesc. unfold Soup.select_div_card. cbn [filter].
    replace (filter _ chain) with (@nil node)
      by (symmetry; apply filter_chain; reflexivity).
    unfold Soup.find_all_div. cbn [filter].
    fold (Soup.find_all_div chain). unfold chain. rewrite find_all_div_chain. reflexivity. }
  rewrite Hcands. cbn [scan_cards]. rewrite Hh. cbn [bind].
  rewrite (scan_cards_wraps _ _ _ c) by exact Hc. reflexivity.
Qed.

(** C9.  In a column container without any [div.card] descendant the
    candidates are all the descendant [div]s.  The header is one of them,
    and when its own text carries a parseable "Received" date it is emitted
    as a card of the column it names.  A dated card that lies inside [k]
    more [div]s is emitted [k + 1] times, each record with the same text. *)
Theorem C9_fallback_scans_every_div today outer :
  Soup.select_div_card (Soup.descendants outer) = [] ->
  (forall n, In n (candidates outer) <->
             In n (Soup.descendants outer) /\ Soup.is_tag "div" n = true) /\
  (forall header,
     Soup.find_div_class "_headerName_" (Soup.descendants outer) = Some header ->
     In header (candidates outer) /\
     forall doc c cards,
       In outer (Soup.find_all_div_class "_outerWrapper_" (Soup.doc_descendants doc)) ->
       card_of today (Soup.get_text header) header = Ok (Some c) ->
       extract_cards today doc = Ok cards ->
       In c cards /\
       column c = Soup.get_text header /\ text c = Soup.get_text header) /\
  (forall k h t c,
     card_of today (Soup.get_text (header_div h)) (header_div h) = Ok None ->
     card_of today (Soup.get_text (header_div h)) (plain_div t) = Ok (Some c) ->
     extract_cards today [column_div (header_div h) [wrap k (plain_div t)]]
     = Ok (repeat c (S k))).
Proof.
  intros Hnone.
  assert (Hcands : forall n, In n (candidates outer) <->
             In n (Soup.descendants outer) /\ Soup.is_tag "div" n = true).
  { intro n. rewrite (candidates_fallback _ Hnone). unfold Soup.find_all_div.
    apply filter_In. }
  split; [exact Hcands | ]. split.
  - intros header Hfind.
    assert (Hin : In header (candidates outer)).
    { apply Hcands. apply find_div_class_In in Hfind. exact Hfind. }
    split; [exact Hin | ].
    intros doc c cards Houter Hcard Hex. unfold extract_cards in Hex.
    split.
    + apply (proj2 (scan_columns_keeps _ _ _ _ Hex) outer header header c);
        assumption.
    + apply card_of_inv in Hcard. destruct Hcard as (Hcol & Htxt & _). auto.
  - intros k h t c. apply extract_nested.
Qed.

Lemma C9_fallback_scans_every_div_witness :
  let outer :=
    column_div (header_div "Todo Received 1/1/23")
      [wrap 1 (plain_div "Received: 01/02/23 Install")] in
  Soup.select_div_card (Soup.descendants outer) = [] /\
  extract_cards sample_today [outer] =
    Ok [mkcard "Todo Received 1/1/23" "Todo Received 1/1/23" (mkdate 2023 1 1) 11 None;
        mkcard "Todo Received 1/1/23" "Received: 01/02/23 Install" (mkdate 2023 1 2) 10 None;
        mkcard "Todo Received 1/1/23" "Received: 01/02/23 Install" (mkdate 2023 1 2) 10 None] /\
  (forall n, In n (candidates outer) <->
             In n (Soup.descendants outer) /\ Soup.is_tag "div" n = true) /\
  (forall header,
     Soup.find_div_class "_headerName_" (Soup.descendants outer) = Some header ->
     In header (candidates outer) /\
     forall doc c cards,
       In outer (Soup.find_all_div_class "_outerWrapper_" (Soup.doc_descendants doc)) ->
       card_of sample_today (Soup.get_text header) header = Ok (Some c) ->
       extract_cards sample_today doc = Ok cards ->
       In c cards /\
       column c = Soup.get_text header /\ text c = Soup.get_text header) /\
  (forall k h t c,
     card_of sample_today (Soup.get_text (header_div h)) (header_div h) = Ok None ->
     card_of sample_today (Soup.get_text (header_div h)) (plain_div t) = Ok (Some c) ->
     extract_cards sample_today [column_div (header_div h) [wrap k (plain_div t)]]
     = Ok (repeat c (S k))).
Proof.
  intro outer.
  split; [vm_compute; reflexivity | ].
  split; [vm_compute; reflexivity | ].
  apply (C9_fallback_scans_every_div sample_today outer).
  vm_compute; reflexivity.
Defined.

(* ================================================================== *)
(** ** The scenarios of the specification, run on the model *)

(** One column "Completed" with the card
    "Received: 01/02/23 Quoted Price $1,200", on 2023-01-12: nothing in
    Scope row 0, one won card of sum 1200 and mean 1200. *)
Example scenario_completed_card :
  let doc := [column_div (header_div "Completed")
                [card_div "Received: 01/02/23 Quoted Price $1,200"]] in
  exists cards rep,
    extract_cards sample_today doc = Ok cards /\
    build_report cards = Ok rep /\
    map age cards = [10] /\
    map scope_Count (firstn 1 (scope_rows rep)) = [0] /\
    Total_Won_Count (quoted_stats rep) = 1 /\
    Total_Won (quoted_stats rep) = 1200 /\
    Average_Won (quoted_stats rep) = PyInt 1200 /\
    Total_Value_Count (quoted_stats rep) = 0.
Proof.
  intro doc. eexists. eexists.
  split; [vm_compute; reflexivity | ].
  split; [vm_compute; reflexivity | ].
  repeat split.
Qed.

(** A card naming two focused labels counts in the row of each. *)
Example scenario_two_labels :
  let cards := [mkcard "Scheduled" "Received: 01/02/23 demand repair and INSTALL"
                  (mkdate 2023 1 2) 10 None] in
  exists rep,
    build_report cards = Ok rep /\
    map (fun r => (Scope r, scope_Count r)) (tl (scope_rows rep)) =
      [("Demand Repair", 1); ("Install", 1); ("Dispatch", 0);
       ("NOT COOLING/HEATING", 0); ("Warranty", 0); ("Comfort Shield Warranty", 0)].
Proof.
  intro cards. eexists. split; vm_compute; reflexivity.
Qed.

(** A card whose date cannot be read is not in the card sequence. *)
Example scenario_unparseable_date :
  extract_cards sample_today
    [column_div (header_div "Scheduled") [card_div "Received: not-a-date"]]
  = Ok [].
Proof. vm_compute; reflexivity. Qed.

(** [round(statistics.mean(xs), 2)] on a few lists: 1.5; the integer 2;
    0.33; and 0.125, a tie between 0.12 and 0.13, which goes to the even
    0.12. *)
Example avg_values :
  avg [1; 2] = Ok (PyFloat (S754_finite false 6755399441055744 (-52))) /\
  avg [1; 2; 3] = Ok (PyInt 2) /\
  avg [1; 0; 0] = Ok (PyFloat (S754_finite false 5944751508129055 (-54))) /\
  avg [1; 0; 0; 0; 0; 0; 0; 0] =
    Ok (PyFloat (S754_finite false 8646911284551352 (-56))) /\
  avg [] = Ok (PyFloat (S754_zero false)).
Proof. repeat split; vm_compute; reflexivity. Qed.

(* ================================================================== *)
(** * Further properties *)

(** ** Dates: validity, order and ages *)

Lemma parse_with_ok fmts s d :
  parse_with fmts s = Some d -> exists fmt, In fmt fmts /\ strptime_date s fmt = Ok d.
Proof.
  induction fmts as [ | fmt fmts IH]; cbn [parse_with]; [discriminate | ].
  destruct (strptime_date s fmt) as [d' | e] eqn:E.
  - intros H. injection H as ->. exists fmt. split; [left; reflexivity | exact E].
  - intros H. destruct (IH H) as (f & Hin & Hf). exists f. split; [right | ]; assumption.
Qed.

Lemma make_date_ok y m d dt : make_date y m d = Ok dt -> date_ok dt /\ dt = mkdate y m d.
Proof.
  unfold make_date, date_ok. destruct (valid_date y m d) eqn:E; [ | discriminate].
  intros H. injection H as <-. split; [exact E | reflexivity].
Qed.

Lemma strptime_date_ok s fmt d : strptime_date s fmt = Ok d -> date_ok d.
Proof.
  unfold strptime_date. destruct (match_ true (pattern fmt) s) as [[rest cs] | ]; [ | discriminate].
  destruct (Str.is_empty rest); [ | discriminate].
  intros H. apply make_date_ok in H. apply H.
Qed.

Lemma parse_date_ok s d : parse_date s = Some d -> date_ok d.
Proof.
  unfold parse_date. intros H. apply parse_with_ok in H.
  destruct H as (fmt & _ & H). eapply strptime_date_ok, H.
Qed.

Lemma date_ok_bounds d :
  date_ok d ->
  1 <= year d <= 9999 /\ 1 <= month d <= 12 /\
  1 <= day d <= days_in_month (year d) (month d).
Proof.
  unfold date_ok, valid_date. rewrite !Bool.andb_true_iff, !Z.leb_le. lia.
Qed.

Lemma days_in_month_bounds y m : 28 <= days_in_month y m <= 31.
Proof.
  unfold days_in_month.
  destruct (m =? 2); [destruct (is_leap y); lia | ].
  destruct (_ || _); lia.
Qed.

Lemma is_leap_spec y :
  is_leap y = true <-> (y mod 4 = 0 /\ (y mod 100 <> 0 \/ y mod 400 = 0)).
Proof.
  unfold is_leap.
  rewrite Bool.andb_true_iff, Bool.orb_true_iff, Bool.negb_true_iff,
    !Z.eqb_eq, Z.eqb_neq. reflexivity.
Qed.

(** A year adds 365 days, a leap year 366. *)
Lemma days_before_year_succ y :
  days_before_year (y + 1) = days_before_year y + (if is_leap y then 366 else 365).
Proof.
  unfold days_before_year. cbv zeta.
  replace (y + 1 - 1) with y by lia.
  destruct (is_leap y) eqn:E.
  - apply is_leap_spec in E. Z.to_euclidean_division_equations. lia.
  - assert (H : ~ (y mod 4 = 0 /\ (y mod 100 <> 0 \/ y mod 400 = 0))).
    { rewrite <- is_leap_spec. congruence. }
    Z.to_euclidean_division_equations. lia.
Qed.

Lemma days_before_year_mono y1 y2 :
  y1 <= y2 -> days_before_year y1 <= days_before_year y2.
Proof.
  intros H. replace y2 with (y1 + (y2 - y1)) by lia.
  assert (Hn : 0 <= y2 - y1) by lia. revert Hn.
  generalize (y2 - y1). intros n Hn. pattern n.
  apply natlike_ind; [ | | exact Hn].
  - rewrite Z.add_0_r. lia.
  - intros k Hk IH. replace (y1 + Z.succ k) with (y1 + k + 1) by lia.
    rewrite days_before_year_succ. destruct (is_leap _); lia.
Qed.

(** The day of the year: between 1 and the length of the year, and
    growing with the month and the day. *)
Lemma day_of_year_bounds y m d :
  1 <= m <= 12 -> 1 <= d <= days_in_month y m ->
  1 <= days_before_month y m + d <= (if is_leap y then 366 else 365).
Proof.
  intros Hm Hd. unfold days_before_month, days_in_month in *.
  assert (Hcases : m = 1 \/ m = 2 \/ m = 3 \/ m = 4 \/ m = 5 \/ m = 6 \/
                   m = 7 \/ m = 8 \/ m = 9 \/ m = 10 \/ m = 11 \/ m = 12) by lia.
  destruct (is_leap y);
    repeat (destruct Hcases as [-> | Hcases]); try subst m;
    cbv [nth Z.to_nat Pos.to_nat Pos.iter_op Nat.add Z.ltb Z.eqb Z.compare
         Pos.compare Pos.compare_cont Pos.eqb andb orb] in *; lia.
Qed.

Lemma day_of_year_mono y m1 d1 m2 d2 :
  1 <= m1 <= 12 -> 1 <= d1 <= days_in_month y m1 ->
  1 <= m2 <= 12 -> 1 <= d2 <= days_in_month y m2 ->
  m1 < m2 ->
  days_before_month y m1 + d1 < days_before_month y m2 + d2.
Proof.
  intros Hm1 Hd1 Hm2 Hd2 Hlt. unfold days_before_month, days_in_month in *.
  assert (Hc1 : m1 = 1 \/ m1 = 2 \/ m1 = 3 \/ m1 = 4 \/ m1 = 5 \/ m1 = 6 \/
                m1 = 7 \/ m1 = 8 \/ m1 = 9 \/ m1 = 10 \/ m1 = 11 \/ m1 = 12) by lia.
  assert (Hc2 : m2 = 1 \/ m2 = 2 \/ m2 = 3 \/ m2 = 4 \/ m2 = 5 \/ m2 = 6 \/
                m2 = 7 \/ m2 = 8 \/ m2 = 9 \/ m2 = 10 \/ m2 = 11 \/ m2 = 12) by lia.
  destruct (is_leap y);
    repeat (destruct Hc1 as [-> | Hc1]); try subst m1;
    repeat (destruct Hc2 as [-> | Hc2]); try subst m2;
    try lia;
    cbv [nth Z.to_nat Pos.to_nat Pos.iter_op Nat.add Z.ltb Z.eqb Z.compare
         Pos.compare Pos.compare_cont Pos.eqb andb orb] in *; lia.
Qed.

Lemma toordinal_lt a b :
  date_ok a -> date_ok b -> date_lt a b -> toordinal a < toordinal b.
Proof.
  intros Ha Hb Hlt.
  apply date_ok_bounds in Ha, Hb.
  destruct Ha as (Hya & Hma & Hda), Hb as (Hyb & Hmb & Hdb).
  pose proof (day_of_year_bounds _ _ _ Hma Hda) as Ba.
  pose proof (day_of_year_bounds _ _ _ Hmb Hdb) as Bb.
  unfold toordinal. destruct Hlt as [Hy | [Hy [Hm | [Hm Hd]]]].
  - pose proof (days_before_year_succ (year a)) as Hs.
    pose proof (days_before_year_mono (year a + 1) (year b) ltac:(lia)).
    destruct (is_leap (year a)); lia.
  - rewrite Hy in *. pose proof (day_of_year_mono _ _ _ _ _ Hma Hda Hmb Hdb Hm). lia.
  - rewrite Hy, Hm. lia.
Qed.

Lemma date_trichotomy a b : date_lt a b \/ a = b \/ date_lt b a.
Proof.
  destruct a as [ya ma da], b as [yb mb db]. unfold date_lt. cbn.
  destruct (Z.lt_trichotomy ya yb) as [? | [-> | ?]]; [left; lia | | right; right; lia].
  destruct (Z.lt_trichotomy ma mb) as [? | [-> | ?]]; [left; lia | | right; right; lia].
  destruct (Z.lt_trichotomy da db) as [? | [-> | ?]]; [left; lia | | right; right; lia].
  right; left; reflexivity.
Qed.

(** X1.  Ages follow the calendar.  For dates the [date] constructor accepts,
    the day count grows strictly with the calendar order; so of two
    received dates the earlier has the larger age, equal ages mean equal
    dates, and an age is negative exactly when the received date is after
    the reference date. *)
Theorem ages_follow_calendar today a b :
  date_ok today -> date_ok a -> date_ok b ->
  (date_lt a b <-> days_between today b < days_between today a) /\
  (days_between today a = days_between today b <-> a = b) /\
  (days_between today a < 0 <-> date_lt today a).
Proof.
  intros Ht Ha Hb. unfold days_between.
  assert (Hmono : forall x y, date_ok x -> date_ok y ->
            (date_lt x y <-> toordinal x < toordinal y)).
  { intros x y Hx Hy. split; [apply toordinal_lt; assumption | ].
    intros Hlt. destruct (date_trichotomy x y) as [H | [-> | H]]; [exact H | lia | ].
    pose proof (toordinal_lt _ _ Hy Hx H). lia. }
  split; [rewrite (Hmono a b Ha Hb); lia | ].
  split; [ | rewrite (Hmono today a Ht Ha); lia].
  split; [ | intros ->; reflexivity].
  intros Heq. destruct (date_trichotomy a b) as [H | [-> | H]]; [ | reflexivity | ].
  - apply (Hmono a b Ha Hb) in H. lia.
  - apply (Hmono b a Hb Ha) in H. lia.
Qed.

Lemma ages_follow_calendar_witness :
  let today := mkdate 2023 1 12 in
  let a := mkdate 2022 12 31 in
  let b := mkdate 2024 2 29 in
  (date_lt a b <-> days_between today b < days_between today a) /\
  (days_between today a = days_between today b <-> a = b) /\
  (days_between today a < 0 <-> date_lt today a).
Proof.
  intros today a b.
  apply (ages_follow_calendar today a b); reflexivity.
Defined.

Lemma toordinal_bounds d : date_ok d -> 1 <= toordinal d <= 3652059.
Proof.
  intros Hd. apply date_ok_bounds in Hd. destruct Hd as (Hy & Hm & Hdd).
  pose proof (day_of_year_bounds _ _ _ Hm Hdd) as B.
  pose proof (days_before_year_succ (year d)) as Hs.
  pose proof (days_before_year_mono 1 (year d) ltac:(lia)) as H1.
  pose proof (days_before_year_mono (year d + 1) 10000 ltac:(lia)) as H2.
  change (days_before_year 1) with 0 in H1.
  change (days_before_year 10000) with 3652059 in H2.
  unfold toordinal. destruct (is_leap (year d)); lia.
Qed.

(** ** What [parse_date] reads *)

Lemma run_caps_sound {R} icase r : forall s cs (k : string -> captures -> option R) x,
  run icase r s cs k = Some x ->
  exists pre s' gs,
    s = (pre ++ s')%string /\ re_caps icase r pre gs /\ k s' (gs ++ cs)%list = Some x.
Proof.
  induction r as [ | a | p | r1 IH1 r2 IH2 | r1 IH1 r2 IH2 | p lo hi | name r1 IH1];
    intros s cs k x H; cbn [run] in H.
  - exists EmptyString, s, []. cbn. auto.
  - destruct s as [ | c s]; [discriminate | ].
    destruct (chr_matches icase a c) eqn:E; [ | discriminate].
    exists (String c EmptyString), s, []. cbn. split; [reflexivity | ].
    split; [ | exact H]. split; [exists c; auto | reflexivity].
  - destruct s as [ | c s]; [discriminate | ].
    destruct (p c) eqn:E; [ | discriminate].
    exists (String c EmptyString), s, []. cbn. split; [reflexivity | ].
    split; [ | exact H]. split; [exists c; auto | reflexivity].
  - apply IH1 in H. destruct H as (w1 & s1 & g1 & -> & H1 & H).
    apply IH2 in H. destruct H as (w2 & s2 & g2 & -> & H2 & H).
    exists (w1 ++ w2)%string, s2, (g2 ++ g1)%list. rewrite string_app_assoc.
    split; [reflexivity | ]. split; [ | rewrite <- app_assoc; exact H].
    cbn. exists w1, w2, g1, g2. auto.
  - destruct (run icase r1 s cs k) eqn:E.
    + injection H as ->. apply IH1 in E. destruct E as (w & s' & gs & -> & Hw & Hk).
      exists w, s', gs. cbn. auto.
    + apply IH2 in H. destruct H as (w & s' & gs & -> & Hw & Hk).
      exists w, s', gs. cbn. auto.
  - apply rep_sound in H. destruct H as (pre & s' & -> & Hl & Hk).
    exists pre, s', []. cbn in *. auto.
  - apply IH1 in H. destruct H as (w & s' & g1 & -> & Hw & Hk).
    rewrite consumed_app in Hk.
    exists w, s', ((name, w) :: g1). cbn. split; [reflexivity | ].
    split; [exists g1; auto | exact Hk].
Qed.

Lemma string_app_empty_r (s : string) : (s ++ "")%string = s.
Proof. induction s as [ | c s IH]; cbn; [reflexivity | rewrite IH; reflexivity]. Qed.

(** A successful [strptime]: the whole string is a word of the format's
    pattern, and the date is made of the fields its groups hold. *)
Lemma strptime_date_inv s fmt d :
  strptime_date s fmt = Ok d ->
  exists gs,
    re_caps true (pattern fmt) s gs /\
    d = mkdate (year_of gs) (field_or "m" gs 1) (field_or "d" gs 1) /\
    date_ok d.
Proof.
  unfold strptime_date, match_.
  destruct (run true (pattern fmt) s [] _) as [[rest cs] | ] eqn:E; [ | discriminate].
  destruct rest; cbn [Str.is_empty]; [ | discriminate].
  intros H. apply run_caps_sound in E.
  destruct E as (pre & s' & gs & -> & Hcaps & Hk). injection Hk as Hs Hc.
  subst s' cs. rewrite app_nil_r in H. rewrite string_app_empty_r.
  apply make_date_ok in H. destruct H as [Hok ->].
  exists gs. auto.
Qed.

Ltac chr_only :=
  let c := fresh "c" in
  intros c; destruct c as [[] [] [] [] [] [] [] []]; vm_compute; intros H;
  first [reflexivity | discriminate H].

Lemma dash_only c : chr_matches true "-" c = true -> c = "-"%char.
Proof. revert c. chr_only. Qed.

Lemma zero_only c : chr_matches true "0" c = true -> c = "0"%char.
Proof. revert c. chr_only. Qed.

Lemma one_only c : chr_matches true "1" c = true -> c = "1"%char.
Proof. revert c. chr_only. Qed.

Lemma three_only c : chr_matches true "3" c = true -> c = "3"%char.
Proof. revert c. chr_only. Qed.

Lemma space_only c : chr_matches true " " c = true -> c = " "%char.
Proof. revert c. chr_only. Qed.

Lemma between_digit lo hi c :
  Str.between lo hi c = true -> (48 <= lo)%N -> (hi <= 57)%N -> Str.is_digit c = true.
Proof.
  unfold Str.is_digit, Str.between. rewrite !Bool.andb_true_iff, !N.leb_le. lia.
Qed.

Lemma digit_not_space c : Str.is_digit c = true -> Str.is_space c = false.
Proof.
  unfold Str.is_digit, Str.is_space, Str.between.
  rewrite !Bool.andb_true_iff, !N.leb_le. intros [H1 H2].
  repeat (apply Bool.orb_false_iff; split);
    first [apply Bool.andb_false_iff; rewrite !N.leb_gt; lia | apply N.eqb_neq; lia].
Qed.

(** What the groups of the four directives hold. *)
Lemma month_group w gs :
  re_caps true (directive_re Pm) w gs ->
  gs = [("m", w)] /\ Str.forallb Str.is_digit w = true /\ w <> EmptyString.
Proof.
  cbn [directive_re re_caps d_0_2 d_1_9].
  intros (g1 & H & ->).
  destruct H as [H | [H | H]].
  - destruct H as (w1 & w2 & ga & gb & -> & ((c1 & -> & H1) & ->) & ((c2 & -> & H2) & ->) & ->).
    apply one_only in H1. subst c1. cbn.
    assert (D : Str.is_digit _ = true) by (apply (between_digit _ _ _ H2); lia). rewrite D.
    repeat split; discriminate.
  - destruct H as (w1 & w2 & ga & gb & -> & ((c1 & -> & H1) & ->) & ((c2 & -> & H2) & ->) & ->).
    apply zero_only in H1. subst c1. cbn.
    assert (D : Str.is_digit _ = true) by (apply (between_digit _ _ _ H2); lia). rewrite D.
    repeat split; discriminate.
  - destruct H as ((c1 & -> & H1) & ->). cbn.
    assert (D : Str.is_digit _ = true) by (apply (between_digit _ _ _ H1); lia). rewrite D.
    repeat split; discriminate.
Qed.

Ltac bool_crunch :=
  unfold digit_or_space;
  repeat (cbn;
          repeat match goal with
                 | H : ?b = true |- context [?b] => rewrite H
                 | H : ?b = false |- context [?b] => rewrite H
                 end).

Lemma day_group w gs :
  re_caps true (directive_re Pd) w gs ->
  gs = [("d", w)] /\ Str.forallb Str.is_digit (Str.lstrip w) = true /\
  Str.lstrip w <> EmptyString /\ Str.forallb digit_or_space w = true.
Proof.
  cbn [directive_re re_caps d_0_1 d_1_2 d_1_9 digit].
  intros (g1 & H & ->).
  destruct H as [H | [H | [H | [H | H]]]].
  - destruct H as (w1 & w2 & ga & gb & -> & ((c1 & -> & H1) & ->) & ((c2 & -> & H2) & ->) & ->).
    apply three_only in H1. subst c1.
    assert (D2 : Str.is_digit c2 = true) by (apply (between_digit _ _ _ H2); lia).
    bool_crunch. repeat split; discriminate.
  - destruct H as (w1 & w2 & ga & gb & -> & ((c1 & -> & H1) & ->) & ((c2 & -> & H2) & ->) & ->).
    assert (D1 : Str.is_digit c1 = true) by (apply (between_digit _ _ _ H1); lia).
    pose proof (digit_not_space _ D1) as S1.
    bool_crunch. repeat split; discriminate.
  - destruct H as (w1 & w2 & ga & gb & -> & ((c1 & -> & H1) & ->) & ((c2 & -> & H2) & ->) & ->).
    apply zero_only in H1. subst c1.
    assert (D2 : Str.is_digit c2 = true) by (apply (between_digit _ _ _ H2); lia).
    bool_crunch. repeat split; discriminate.
  - destruct H as ((c1 & -> & H1) & ->).
    assert (D1 : Str.is_digit c1 = true) by (apply (between_digit _ _ _ H1); lia).
    pose proof (digit_not_space _ D1) as S1.
    bool_crunch. repeat split; discriminate.
  - destruct H as (w1 & w2 & ga & gb & -> & ((c1 & -> & H1) & ->) & ((c2 & -> & H2) & ->) & ->).
    apply space_only in H1. subst c1.
    assert (D2 : Str.is_digit c2 = true) by (apply (between_digit _ _ _ H2); lia).
    pose proof (digit_not_space _ D2) as S2.
    bool_crunch. repeat split; discriminate.
Qed.

Lemma year2_group w gs :
  re_caps true (directive_re Py) w gs ->
  gs = [("y", w)] /\ Str.forallb Str.is_digit w = true /\ String.length w = 2%nat.
Proof.
  cbn [directive_re re_caps digit].
  intros (g1 & H & ->).
  destruct H as (w1 & w2 & ga & gb & -> & ((c1 & -> & H1) & ->) & ((c2 & -> & H2) & ->) & ->).
  cbn. rewrite H1, H2. repeat split.
Qed.

Lemma year4_group w gs :
  re_caps true (directive_re PY) w gs ->
  gs = [("Y", w)] /\ Str.forallb Str.is_digit w = true /\ String.length w = 4%nat.
Proof.
  cbn [directive_re re_caps digit].
  intros (g1 & H & ->).
  destruct H as (w1 & w2 & ga & gb & -> & ((c1 & -> & H1) & ->) & H & ->).
  destruct H as (w3 & w4 & gc & gd & -> & ((c2 & -> & H2) & ->) & H & ->).
  destruct H as (w5 & w6 & ge & gf & -> & ((c3 & -> & H3) & ->) & ((c4 & -> & H4) & ->) & ->).
  cbn. rewrite H1, H2, H3, H4. repeat split.
Qed.




Lemma plit_caps c w gs :
  re_caps true (directive_re (Plit c)) w gs ->
  gs = [] /\ exists c', w = String c' EmptyString /\ chr_matches true c c' = true.
Proof. cbn. intros [H ->]. auto. Qed.

(** The fields a word of one of the three formats gives. *)
Lemma fields_mdy s gs :
  re_caps true (pattern FMT_mdy) s gs ->
  exists ms ds ys,
    s = (ms ++ "/" ++ ds ++ "/" ++ ys)%string /\
    gs = [("y", ys); ("d", ds); ("m", ms)] /\
    Str.forallb Str.is_digit ms = true /\
    Str.forallb Str.is_digit (Str.lstrip ds) = true /\
    Str.forallb digit_or_space ds = true /\
    Str.forallb Str.is_digit ys = true /\ String.length ys = 2%nat.
Proof.
  unfold FMT_mdy. cbn [pattern re_caps].
  intros (ms & r1 & gm & g1 & -> & Hm & H & ->).
  destruct H as (sl1 & r2 & gs1 & g2 & -> & Hs1 & H & ->).
  destruct H as (ds & r3 & gd & g3 & -> & Hd & H & ->).
  destruct H as (sl2 & r4 & gs2 & g4 & -> & Hs2 & H & ->).
  destruct H as (ys & r5 & gy & g5 & -> & Hy & (-> & ->) & ->).
  apply month_group in Hm. destruct Hm as (-> & Hmd & _).
  apply day_group in Hd. destruct Hd as (-> & Hdd & _ & Hds).
  apply year2_group in Hy. destruct Hy as (-> & Hyd & Hyl).
  apply plit_caps in Hs1, Hs2.
  destruct Hs1 as (-> & c1 & -> & Hc1), Hs2 as (-> & c2 & -> & Hc2).
  apply slash_only in Hc1, Hc2. subst c1 c2.
  exists ms, ds, ys. rewrite string_app_empty_r. cbn. repeat split; assumption.
Qed.

Lemma fields_mdY s gs :
  re_caps true (pattern FMT_mdY) s gs ->
  exists ms ds ys,
    s = (ms ++ "/" ++ ds ++ "/" ++ ys)%string /\
    gs = [("Y", ys); ("d", ds); ("m", ms)] /\
    Str.forallb Str.is_digit ms = true /\
    Str.forallb Str.is_digit (Str.lstrip ds) = true /\
    Str.forallb digit_or_space ds = true /\
    Str.forallb Str.is_digit ys = true /\ String.length ys = 4%nat.
Proof.
  unfold FMT_mdY. cbn [pattern re_caps].
  intros (ms & r1 & gm & g1 & -> & Hm & H & ->).
  destruct H as (sl1 & r2 & gs1 & g2 & -> & Hs1 & H & ->).
  destruct H as (ds & r3 & gd & g3 & -> & Hd & H & ->).
  destruct H as (sl2 & r4 & gs2 & g4 & -> & Hs2 & H & ->).
  destruct H as (ys & r5 & gy & g5 & -> & Hy & (-> & ->) & ->).
  apply month_group in Hm. destruct Hm as (-> & Hmd & _).
  apply day_group in Hd. destruct Hd as (-> & Hdd & _ & Hds).
  apply year4_group in Hy. destruct Hy as (-> & Hyd & Hyl).
  apply plit_caps in Hs1, Hs2.
  destruct Hs1 as (-> & c1 & -> & Hc1), Hs2 as (-> & c2 & -> & Hc2).
  apply slash_only in Hc1, Hc2. subst c1 c2.
  exists ms, ds, ys. rewrite string_app_empty_r. cbn. repeat split; assumption.
Qed.

Lemma fields_iso s gs :
  re_caps true (pattern FMT_iso) s gs ->
  exists ms ds ys,
    s = (ys ++ "-" ++ ms ++ "-" ++ ds)%string /\
    gs = [("d", ds); ("m", ms); ("Y", ys)] /\
    Str.forallb Str.is_digit ms = true /\
    Str.forallb Str.is_digit (Str.lstrip ds) = true /\
    Str.forallb digit_or_space ds = true /\
    Str.forallb Str.is_digit ys = true /\ String.length ys = 4%nat.
Proof.
  unfold FMT_iso. cbn [pattern re_caps].
  intros (ys & r1 & gy & g1 & -> & Hy & H & ->).
  destruct H as (sl1 & r2 & gs1 & g2 & -> & Hs1 & H & ->).
  destruct H as (ms & r3 & gm & g3 & -> & Hm & H & ->).
  destruct H as (sl2 & r4 & gs2 & g4 & -> & Hs2 & H & ->).
  destruct H as (ds & r5 & gd & g5 & -> & Hd & (-> & ->) & ->).
  apply month_group in Hm. destruct Hm as (-> & Hmd & _).
  apply day_group in Hd. destruct Hd as (-> & Hdd & _ & Hds).
  apply year4_group in Hy. destruct Hy as (-> & Hyd & Hyl).
  apply plit_caps in Hs1, Hs2.
  destruct Hs1 as (-> & c1 & -> & Hc1), Hs2 as (-> & c2 & -> & Hc2).
  apply dash_only in Hc1, Hc2. subst c1 c2.
  exists ms, ds, ys. rewrite string_app_empty_r. cbn. repeat split; assumption.
Qed.






(** ** The three formats never compete *)

Lemma forallb_app p (a b : string) :
  Str.forallb p (a ++ b) = Str.forallb p a && Str.forallb p b.
Proof.
  induction a as [ | c a IH]; cbn; [reflexivity | ].
  rewrite IH, Bool.andb_assoc. reflexivity.
Qed.

(** A string splits in one way only at its first slash. *)
Lemma split_at_slash p : forall a a' r r',
  p "/"%char = false ->
  Str.forallb p a = true -> Str.forallb p a' = true ->
  (a ++ String "/" r)%string = (a' ++ String "/" r')%string ->
  a = a' /\ r = r'.
Proof.
  induction a as [ | c a IH]; intros a' r r' Hp Ha Ha' Heq.
  - destruct a' as [ | c' a']; cbn in Heq.
    + injection Heq as ->. auto.
    + injection Heq as <- _. cbn in Ha'. rewrite Hp in Ha'. discriminate.
  - destruct a' as [ | c' a']; cbn in Heq.
    + injection Heq as -> _. cbn in Ha. rewrite Hp in Ha. discriminate.
    + injection Heq as -> Heq. cbn in Ha, Ha'.
      apply Bool.andb_true_iff in Ha, Ha'.
      destruct (IH a' r r' Hp (proj2 Ha) (proj2 Ha') Heq) as [-> ->]. auto.
Qed.

Lemma digits_are_digit_or_space w :
  Str.forallb Str.is_digit w = true -> Str.forallb digit_or_space w = true.
Proof.
  induction w as [ | c w IH]; cbn; [reflexivity | ].
  rewrite !Bool.andb_true_iff. intros [Hc Hw]. unfold digit_or_space.
  rewrite Hc. auto.
Qed.

Lemma two_formats_disagree s f1 f2 d1 d2 :
  In f1 [FMT_mdy; FMT_mdY; FMT_iso] -> In f2 [FMT_mdy; FMT_mdY; FMT_iso] ->
  strptime_date s f1 = Ok d1 -> strptime_date s f2 = Ok d2 -> f1 = f2.
Proof.
  assert (Hslash : digit_or_space "/" = false) by reflexivity.
  assert (Hno : forall ms ds ys ms' ds' ys',
            Str.forallb Str.is_digit ms = true -> Str.forallb digit_or_space ds = true ->
            Str.forallb Str.is_digit ms' = true -> Str.forallb digit_or_space ds' = true ->
            (ms ++ "/" ++ ds ++ "/" ++ ys)%string = (ms' ++ "/" ++ ds' ++ "/" ++ ys')%string ->
            ys = ys').
  { intros ms ds ys ms' ds' ys' Hm Hd Hm' Hd' Heq.
    apply digits_are_digit_or_space in Hm, Hm'.
    destruct (split_at_slash _ _ _ _ _ Hslash Hm Hm' Heq) as [_ Heq2].
    destruct (split_at_slash _ _ _ _ _ Hslash Hd Hd' Heq2) as [_ Heq3]. exact Heq3. }
  assert (Hiso : forall ms ds ys ms' ds' ys',
            Str.forallb Str.is_digit ms' = true -> Str.forallb digit_or_space ds' = true ->
            Str.forallb Str.is_digit ys' = true ->
            (ms ++ "/" ++ ds ++ "/" ++ ys)%string = (ys' ++ "-" ++ ms' ++ "-" ++ ds')%string ->
            False).
  { intros ms ds ys ms' ds' ys' Hm' Hd' Hy' Heq.
    set (p := fun c => digit_or_space c || Ascii.eqb c "-").
    assert (Hw : forall w, Str.forallb digit_or_space w = true -> Str.forallb p w = true).
    { induction w as [ | c w IH]; cbn; [reflexivity | ].
      rewrite !Bool.andb_true_iff. intros [Hc Hw]. unfold p. rewrite Hc. auto. }
    assert (Hall : Str.forallb p (ys' ++ "-" ++ ms' ++ "-" ++ ds') = true).
    { rewrite !forallb_app.
      rewrite (Hw _ (digits_are_digit_or_space _ Hy')),
              (Hw _ (digits_are_digit_or_space _ Hm')), (Hw _ Hd'). reflexivity. }
    rewrite <- Heq in Hall. rewrite !forallb_app in Hall.
    cbn in Hall. rewrite !Bool.andb_false_r in Hall. discriminate. }
  intros H1 H2 E1 E2.
  apply strptime_date_inv in E1, E2.
  destruct E1 as (g1 & C1 & _), E2 as (g2 & C2 & _).
  destruct H1 as [<- | [<- | [<- | []]]]; destruct H2 as [<- | [<- | [<- | []]]];
    try reflexivity; exfalso;
    first [apply fields_mdy in C1 | apply fields_mdY in C1 | apply fields_iso in C1];
    first [apply fields_mdy in C2 | apply fields_mdY in C2 | apply fields_iso in C2];
    destruct C1 as (ms & ds & ys & E1 & _ & Hm & _ & Hd & Hy & Hl);
    destruct C2 as (ms' & ds' & ys' & E2 & _ & Hm' & _ & Hd' & Hy' & Hl');
    rewrite E1 in E2.
  - pose proof (Hno _ _ _ _ _ _ Hm Hd Hm' Hd' E2). subst ys'. rewrite Hl in Hl'. discriminate.
  - exact (Hiso _ _ _ _ _ _ Hm' Hd' Hy' E2).
  - pose proof (Hno _ _ _ _ _ _ Hm Hd Hm' Hd' E2). subst ys'. rewrite Hl in Hl'. discriminate.
  - exact (Hiso _ _ _ _ _ _ Hm' Hd' Hy' E2).
  - symmetry in E2. exact (Hiso _ _ _ _ _ _ Hm Hd Hy E2).
  - symmetry in E2. exact (Hiso _ _ _ _ _ _ Hm Hd Hy E2).
Qed.

Lemma parse_with_some_iff fmts s d :
  (forall f1 f2 d1 d2, In f1 fmts -> In f2 fmts ->
     strptime_date s f1 = Ok d1 -> strptime_date s f2 = Ok d2 -> d1 = d2) ->
  (parse_with fmts s = Some d <-> exists fmt, In fmt fmts /\ strptime_date s fmt = Ok d).
Proof.
  intros Hex. split; [apply parse_with_ok | ].
  intros (fmt & Hin & Hf). induction fmts as [ | f fmts IH]; [destruct Hin | ].
  cbn [parse_with]. destruct (strptime_date s f) as [d' | e] eqn:E.
  - f_equal. apply (Hex f fmt d' d); auto. left; reflexivity.
  - destruct Hin as [-> | Hin]; [congruence | ].
    apply IH; [ | exact Hin].
    intros f1 f2 d1 d2 H1 H2. apply Hex; right; assumption.
Qed.

(** X3.  No string is read by two of the three formats, so the order in
    which [parse_date] tries them does not matter: tried in any order they
    give the same result. *)
Theorem parse_date_order_irrelevant fmts s :
  Permutation fmts [FMT_mdy; FMT_mdY; FMT_iso] ->
  parse_with fmts s = parse_date s.
Proof.
  intros Hperm.
  assert (Hex : forall l, (forall f, In f l -> In f [FMT_mdy; FMT_mdY; FMT_iso]) ->
            forall f1 f2 d1 d2, In f1 l -> In f2 l ->
              strptime_date s f1 = Ok d1 -> strptime_date s f2 = Ok d2 -> d1 = d2).
  { intros l Hl f1 f2 d1 d2 H1 H2 E1 E2.
    pose proof (two_formats_disagree s f1 f2 d1 d2 (Hl _ H1) (Hl _ H2) E1 E2) as ->.
    congruence. }
  assert (Hsub : forall f, In f fmts -> In f [FMT_mdy; FMT_mdY; FMT_iso]).
  { intros f Hf. eapply Permutation_in; eassumption. }
  unfold parse_date.
  destruct (parse_with [FMT_mdy; FMT_mdY; FMT_iso] s) as [d | ] eqn:E.
  - apply (parse_with_some_iff _ _ _ (Hex _ (fun f H => H))) in E.
    destruct E as (fmt & Hin & Hf).
    apply (parse_with_some_iff _ _ _ (Hex _ Hsub)).
    exists fmt. split; [ | exact Hf].
    eapply Permutation_in; [apply Permutation_sym; eassumption | exact Hin].
  - destruct (parse_with fmts s) as [d | ] eqn:E'; [ | reflexivity].
    apply (parse_with_some_iff _ _ _ (Hex _ Hsub)) in E'.
    destruct E' as (fmt & Hin & Hf).
    assert (E2 : parse_with [FMT_mdy; FMT_mdY; FMT_iso] s = Some d).
    { apply (parse_with_some_iff _ _ _ (Hex _ (fun f H => H))).
      exists fmt. split; [apply Hsub, Hin | exact Hf]. }
    congruence.
Qed.

Lemma parse_date_order_irrelevant_witness :
  Permutation [FMT_iso; FMT_mdY; FMT_mdy] [FMT_mdy; FMT_mdY; FMT_iso] /\
  parse_with [FMT_iso; FMT_mdY; FMT_mdy] "12/31/1999" = parse_date "12/31/1999".
Proof.
  assert (P : Permutation [FMT_iso; FMT_mdY; FMT_mdy] [FMT_mdy; FMT_mdY; FMT_iso]).
  { apply Permutation_trans with [FMT_mdY; FMT_iso; FMT_mdy].
    - apply perm_swap.
    - apply Permutation_trans with [FMT_mdY; FMT_mdy; FMT_iso].
      + apply perm_skip, perm_swap.
      + apply perm_swap. }
  split; [exact P | ].
  apply (parse_date_order_irrelevant [FMT_iso; FMT_mdY; FMT_mdy] "12/31/1999" P).
Defined.

(** ** What extraction returns *)









(** ** From extraction to the report *)

Lemma abs_total_le_each (f : card -> Z) (B : Z) cs :
  (forall c, In c cs -> Z.abs (f c) <= B) ->
  abs_total (map f cs) <= Z.of_nat (List.length cs) * B.
Proof.
  unfold abs_total. induction cs as [ | c cs IH]; intros H; cbn [map total List.length].
  - lia.
  - assert (Hc : Z.abs (f c) <= B) by (apply H; left; reflexivity).
    assert (Hcs : total (map Z.abs (map f cs)) <= Z.of_nat (List.length cs) * B).
    { apply IH. intros c' Hc'. apply H. right; exact Hc'. }
    lia.
Qed.

(** X6.  The cards extraction returns can always be aggregated unless the
    prices are astronomical: with a reference date of the calendar every
    age is below 3652059 in magnitude, and [build_report] returns a report
    as soon as the prices add up to less than [2^1023] (the cards being
    fewer than [2^1000]). *)
Theorem extracted_cards_aggregate today doc cards :
  date_ok today ->
  extract_cards today doc = Ok cards ->
  (forall c, In c cards -> Z.abs (age c) < 3652059) /\
  (Z.of_nat (List.length cards) < 2 ^ 1000 ->
   abs_total (price_values cards) < 2 ^ 1023 ->
   exists rep, build_report cards = Ok rep).
Proof.
  intros Ht Hex.
  assert (Hage : forall c, In c cards -> Z.abs (age c) < 3652059).
  { intros c Hc.
    destruct (extract_cards_from _ _ _ _ Hex Hc) as (col & cand & Hcard).
    apply card_of_inv in Hcard.
    destruct Hcard as (_ & _ & _ & (g & _ & Hparse) & Ha & _).
    pose proof (parse_date_ok _ _ Hparse) as Hok. unfold days_between in Ha.
    pose proof (toordinal_bounds _ Ht). pose proof (toordinal_bounds _ Hok). lia. }
  split; [exact Hage | ].
  intros Hlen Hprices. apply build_report_returns; [ | exact Hprices].
  assert (H : abs_total (map age cards) <= Z.of_nat (List.length cards) * 3652059).
  { apply abs_total_le_each. intros c Hc. specialize (Hage c Hc). lia. }
  assert (H2 : 3652059 < 2 ^ 23) by reflexivity.
  assert (H3 : 2 ^ 1000 * 2 ^ 23 = 2 ^ 1023) by (rewrite <- Z.pow_add_r by lia; reflexivity).
  assert (H4 : 0 < 2 ^ 1000) by (apply Z.pow_pos_nonneg; lia).
  nia.
Qed.

Lemma extracted_cards_aggregate_witness :
  date_ok sample_today /\
  extract_cards sample_today doc_good =
    Ok [mkcard "Scheduled" "Received: 01/02/23 Quoted Price $1,200"
          (mkdate 2023 1 2) 10 (Some 1200)] /\
  (forall c,
     In c [mkcard "Scheduled" "Received: 01/02/23 Quoted Price $1,200"
             (mkdate 2023 1 2) 10 (Some 1200)] ->
     Z.abs (age c) < 3652059) /\
  (Z.of_nat (List.length
     [mkcard "Scheduled" "Received: 01/02/23 Quoted Price $1,200"
        (mkdate 2023 1 2) 10 (Some 1200)]) < 2 ^ 1000 ->
   abs_total (price_values
     [mkcard "Scheduled" "Received: 01/02/23 Quoted Price $1,200"
        (mkdate 2023 1 2) 10 (Some 1200)]) < 2 ^ 1023 ->
   exists rep,
     build_report
       [mkcard "Scheduled" "Received: 01/02/23 Quoted Price $1,200"
          (mkdate 2023 1 2) 10 (Some 1200)] = Ok rep).
Proof.
  split; [reflexivity | ]. split; [vm_compute; reflexivity | ].
  apply (extracted_cards_aggregate sample_today doc_good).
  - reflexivity.
  - vm_compute; reflexivity.
Defined.

(** ** The aggregator does not look at the order of the cards *)

Lemma Permutation_filter' {A} (p : A -> bool) l l' :
  Permutation l l' -> Permutation (filter p l) (filter p l').
Proof.
  induction 1 as [ | x l l' _ IH | x y l | l l' l'' _ IH1 _ IH2]; cbn [filter].
  - constructor.
  - destruct (p x); [constructor | ]; exact IH.
  - destruct (p x), (p y); first [apply perm_swap | apply Permutation_refl].
  - eapply Permutation_trans; eassumption.
Qed.

Lemma total_perm xs ys : Permutation xs ys -> total xs = total ys.
Proof.
  induction 1 as [ | x l l' _ IH | x y l | l l' l'' _ IH1 _ IH2]; cbn [total]; lia.
Qed.

Lemma avg_perm xs ys : Permutation xs ys -> avg xs = avg ys.
Proof.
  intros P. pose proof (Permutation_length P) as Hl. pose proof (total_perm _ _ P) as Ht.
  destruct xs as [ | x xs], ys as [ | y ys]; try discriminate; [reflexivity | ].
  unfold avg, Num.mean, Num.len. rewrite !sum_total, Ht, Hl. reflexivity.
Qed.

Lemma avg_or_0_perm xs ys : Permutation xs ys -> avg_or_0 xs = avg_or_0 ys.
Proof.
  intros P. pose proof (Permutation_length P) as Hl.
  destruct xs as [ | x xs], ys as [ | y ys]; try discriminate; [reflexivity | ].
  apply avg_perm, P.
Qed.

Lemma sum_or_0_perm xs ys : Permutation xs ys -> sum_or_0 xs = sum_or_0 ys.
Proof. intros P. rewrite !sum_or_0_total. apply total_perm, P. Qed.

Lemma len_perm {A} (xs ys : list A) : Permutation xs ys -> Num.len xs = Num.len ys.
Proof. intros P. unfold Num.len. rewrite (Permutation_length P). reflexivity. Qed.

Lemma price_values_perm cs cs' :
  Permutation cs cs' -> Permutation (price_values cs) (price_values cs').
Proof. unfold price_values. apply Permutation_flat_map. Qed.

Lemma mapM_ext {A B} (f g : A -> result B) xs :
  (forall x, f x = g x) -> mapM f xs = mapM g xs.
Proof.
  intros H. induction xs as [ | x xs IH]; cbn [mapM]; [reflexivity | ].
  rewrite H, IH. reflexivity.
Qed.

Lemma label_ages_perm lbl cs cs' :
  Permutation cs cs' -> Permutation (label_ages lbl cs) (label_ages lbl cs').
Proof. intros P. unfold label_ages. apply Permutation_map, Permutation_filter', P. Qed.

Lemma lane_ages_perm lane cs cs' :
  Permutation cs cs' -> Permutation (lane_ages lane cs) (lane_ages lane cs').
Proof. intros P. unfold lane_ages. apply Permutation_map, Permutation_filter', P. Qed.

Lemma lane_table_perm cs cs' lanes :
  Permutation cs cs' -> lane_table cs lanes = lane_table cs' lanes.
Proof.
  intros P. induction lanes as [ | lane lanes IH]; cbn [lane_table]; [reflexivity | ].
  pose proof (lane_ages_perm lane _ _ P) as Pa.
  pose proof (Permutation_length Pa) as Hl.
  rewrite IH.
  destruct (lane_ages lane cs) as [ | a ages] eqn:E1,
           (lane_ages lane cs') as [ | a' ages'] eqn:E2; try discriminate; [reflexivity | ].
  rewrite (avg_perm _ _ Pa), (len_perm _ _ Pa). reflexivity.
Qed.

(** X7.  The report does not depend on the order of the cards: two card
    sequences that are rearrangements of each other give the same four
    tables (or the same exception). *)
Theorem build_report_order_irrelevant cards cards' :
  Permutation cards cards' -> build_report cards = build_report cards'.
Proof.
  intros P. unfold build_report.
  assert (Pa : Permutation (active_cards cards) (active_cards cards'))
    by (apply Permutation_filter', P).
  rewrite (avg_perm _ _ (Permutation_map age Pa)), (len_perm _ _ Pa).
  rewrite (mapM_ext (focused_row (active_cards cards)) (focused_row (active_cards cards'))).
  2:{ intro lbl. unfold focused_row.
      pose proof (label_ages_perm lbl _ _ Pa) as Pl.
      rewrite (avg_or_0_perm _ _ Pl), (len_perm _ _ Pl). reflexivity. }
  rewrite (lane_table_perm _ _ _ P).
  assert (Hq : quoted_table cards (active_cards cards)
               = quoted_table cards' (active_cards cards')).
  { unfold quoted_table.
    pose proof (price_values_perm _ _ Pa) as P1.
    pose proof (price_values_perm _ _
      (Permutation_filter' (fun c => String.eqb (column c) "Completed") _ _ P)) as P2.
    pose proof (price_values_perm _ _
      (Permutation_filter' (fun c => String.eqb (column c) "Canceled") _ _ P)) as P3.
    rewrite (avg_or_0_perm _ _ P1), (avg_or_0_perm _ _ P2), (avg_or_0_perm _ _ P3),
      (len_perm _ _ P1), (len_perm _ _ P2), (len_perm _ _ P3),
      (sum_or_0_perm _ _ P1), (sum_or_0_perm _ _ P2), (sum_or_0_perm _ _ P3).
    reflexivity. }
  rewrite Hq.
  rewrite !label_table_mapM.
  rewrite (mapM_ext (label_table_row (active_cards cards))
             (label_table_row (active_cards cards'))).
  2:{ intro lbl. unfold label_table_row.
      pose proof (label_ages_perm lbl _ _ Pa) as Pl.
      rewrite (avg_or_0_perm _ _ Pl), (len_perm _ _ Pl). reflexivity. }
  reflexivity.
Qed.

Lemma build_report_order_irrelevant_witness :
  Permutation sample_cards (rev sample_cards) /\
  build_report sample_cards = build_report (rev sample_cards).
Proof.
  split; [apply Permutation_rev | ].
  apply (build_report_order_irrelevant sample_cards (rev sample_cards)).
  apply Permutation_rev.
Defined.

(** ** The Lane table *)



Lemma NoDup_REQUESTED_LANES : NoDup REQUESTED_LANES.
Proof.
  unfold REQUESTED_LANES.
  repeat (constructor;
          [cbn [In]; intros H;
           repeat (destruct H as [H | H]; [discriminate H | ]); exact H | ]).
  constructor.
Qed.



(** ** Counts against each other *)

Lemma Forall2_In_r' {A B} (R : A -> B -> Prop) xs ys y :
  Forall2 R xs ys -> In y ys -> exists x, In x xs /\ R x y.
Proof.
  induction 1 as [ | x y' xs ys Hxy _ IH]; intros Hin.
  - destruct Hin.
  - destruct Hin as [<- | Hin].
    + exists x; split; [left; reflexivity | assumption].
    + destruct (IH Hin) as (x' & Hx' & HR). exists x'; split; [right | ]; assumption.
Qed.


Lemma filter_length_le' {A} (p : A -> bool) xs :
  (List.length (filter p xs) <= List.length xs)%nat.
Proof.
  induction xs as [ | x xs IH]; cbn [filter List.length]; [lia | ].
  destruct (p x); cbn [List.length]; lia.
Qed.

Lemma filter_length_mono {A} (p q : A -> bool) xs :
  (forall x, p x = true -> q x = true) ->
  (List.length (filter p xs) <= List.length (filter q xs))%nat.
Proof.
  intros H. induction xs as [ | x xs IH]; cbn [filter List.length]; [lia | ].
  destruct (p x) eqn:E.
  - rewrite (H x E). cbn [List.length]. lia.
  - destruct (q x); cbn [List.length]; lia.
Qed.

Lemma lane_table_count_sum cards lanes rows :
  lane_table cards lanes = Ok rows ->
  total (map lane_Count rows) =
  total (map (fun lane => Num.len (lane_ages lane cards)) lanes).
Proof.
  revert rows; induction lanes as [ | lane lanes IH]; intros rows H;
    cbn [lane_table map total] in *.
  - injection H as <-. reflexivity.
  - destruct (lane_ages lane cards) as [ | a ages] eqn:E.
    + rewrite (IH _ H). reflexivity.
    + bind_ok H. bind_ok H. injection H as <-.
      cbn [map total lane_Count]. rewrite (IH _ eq_refl). reflexivity.
Qed.

Lemma lanes_partition cards lanes :
  NoDup lanes ->
  total (map (fun lane => Num.len (lane_ages lane cards)) lanes) =
  Num.len (filter (fun c => mem (column c) lanes) cards).
Proof.
  unfold Num.len, lane_ages.
  induction 1 as [ | lane lanes Hnotin _ IH]; cbn [map total].
  - induction cards as [ | c cs IHc]; cbn; [reflexivity | exact IHc].
  - rewrite IH, length_map. clear IH.
    induction cards as [ | c cs IHc]; cbn [filter List.length]; [reflexivity | ].
    unfold mem in *. cbn [existsb] in *.
    destruct (String.eqb (column c) lane) eqn:E; cbn [orb List.length].
    + assert (Hn : existsb (String.eqb (column c)) lanes = false).
      { destruct (existsb _ lanes) eqn:Ee; [ | reflexivity].
        apply existsb_exists in Ee. destruct Ee as (l & Hl & He).
        apply String.eqb_eq in E, He. subst. contradiction. }
      rewrite Hn. lia.
    + destruct (existsb _ lanes); cbn [List.length]; lia.
Qed.

Lemma lanes_not_excluded col :
  mem col REQUESTED_LANES = true -> mem col EXCLUDED_COLUMNS_FOR_AGE = false.
Proof.
  unfold mem at 1. intros H. apply existsb_exists in H.
  destruct H as (lane & Hin & He). apply String.eqb_eq in He. subst lane.
  unfold REQUESTED_LANES in Hin. cbn [In] in Hin.
  repeat (destruct Hin as [<- | Hin]; [reflexivity | ]). destruct Hin.
Qed.

(** X9.  In every report the first Scope row bounds the others: no
    focused-label row and no row of the Label table counts more cards
    than it, the counts of the Lane table add up to at most its count, and
    its count is at most the number of cards. *)
Theorem scope_row0_bounds_counts cards rep :
  build_report cards = Ok rep ->
  exists row0 rest,
    scope_rows rep = row0 :: rest /\
    0 <= scope_Count row0 <= Z.of_nat (List.length cards) /\
    (forall r, In r rest -> 0 <= scope_Count r <= scope_Count row0) /\
    (forall r, In r (all_label_rows rep) -> 0 <= label_Count r <= scope_Count row0) /\
    total (map lane_Count (lane_rows rep)) <= scope_Count row0.
Proof.
  intros H. apply build_report_inv in H.
  destruct H as (a0 & focused & lanes & quoted & labels
                 & _ & Hfocused & Hlanes & _ & Hlabels & ->).
  cbn [scope_rows all_label_rows lane_rows].
  eexists _, focused. split; [reflexivity | ]. cbn [scope_Count].
  assert (Hlbl : forall lbl, 0 <= Num.len (label_ages lbl (active_cards cards))
                               <= Num.len (active_cards cards)).
  { intro lbl. unfold label_ages, Num.len. rewrite length_map.
    pose proof (filter_length_le'
      (fun c => Str.contains (Str.to_lower lbl) (Str.to_lower (text c)))
      (active_cards cards)). lia. }
  split.
  { unfold Num.len, active_cards.
    pose proof (filter_length_le'
      (fun c => negb (mem (column c) EXCLUDED_COLUMNS_FOR_AGE)) cards). lia. }
  split.
  { intros r Hr. apply focused_rows in Hfocused.
    destruct (Forall2_In_r' _ _ _ r Hfocused Hr) as (lbl & _ & _ & -> & _). apply Hlbl. }
  split.
  { intros r Hr. apply label_table_rows in Hlabels.
    destruct (Forall2_In_r' _ _ _ r Hlabels Hr) as (lbl & _ & _ & -> & _). apply Hlbl. }
  rewrite (lane_table_count_sum _ _ _ Hlanes),
    (lanes_partition _ _ NoDup_REQUESTED_LANES).
  unfold Num.len, active_cards.
  pose proof (filter_length_mono
    (fun c => mem (column c) REQUESTED_LANES)
    (fun c => negb (mem (column c) EXCLUDED_COLUMNS_FOR_AGE)) cards) as Hm.
  assert (Himp : forall c : card, mem (column c) REQUESTED_LANES = true ->
                   negb (mem (column c) EXCLUDED_COLUMNS_FOR_AGE) = true).
  { intros c Hc. rewrite (lanes_not_excluded _ Hc). reflexivity. }
  specialize (Hm Himp). lia.
Qed.

Lemma scope_row0_bounds_counts_witness :
  build_report sample_cards = Ok sample_report /\
  exists row0 rest,
    scope_rows sample_report = row0 :: rest /\
    0 <= scope_Count row0 <= Z.of_nat (List.length sample_cards) /\
    (forall r, In r rest -> 0 <= scope_Count r <= scope_Count row0) /\
    (forall r, In r (all_label_rows sample_report) ->
               0 <= label_Count r <= scope_Count row0) /\
    total (map lane_Count (lane_rows sample_report)) <= scope_Count row0.
Proof.
  split; [vm_compute; reflexivity | ].
  apply (scope_row0_bounds_counts sample_cards sample_report).
  vm_compute; reflexivity.
Defined.

(** ** Labels inside labels *)

Lemma prefix_app p : forall s,
  String.prefix p s = true <-> exists r, s = (p ++ r)%string.
Proof.
  induction p as [ | a p IH]; intros s; cbn [String.prefix].
  - destruct s; cbn; split; eauto.
  - destruct s as [ | b s]; cbn [String.prefix].
    + split; [discriminate | intros (r & H); discriminate H].
    + destruct (ascii_dec a b) as [<- | Hne].
      * rewrite IH. split; intros (r & H); exists r.
        -- cbn. rewrite H. reflexivity.
        -- cbn in H. injection H as H. exact H.
      * split; [discriminate | ]. intros (r & H). cbn in H. injection H as H _.
        congruence.
Qed.

Lemma contains_spec p : forall s,
  Str.contains p s = true <-> exists a b, s = (a ++ p ++ b)%string.
Proof.
  induction s as [ | c s IH]; cbn [Str.contains].
  - rewrite Bool.orb_false_r, prefix_app. split.
    + intros (r & H). exists EmptyString, r. exact H.
    + intros (a & b & H). destruct a; cbn in H; [eauto | discriminate].
  - rewrite Bool.orb_true_iff, prefix_app, IH. split.
    + intros [(r & H) | (a & b & H)].
      * exists EmptyString, r. exact H.
      * exists (String c a), b. cbn. rewrite H. reflexivity.
    + intros (a & b & H). destruct a as [ | c' a]; cbn in H.
      * left. eauto.
      * right. injection H as _ H. eauto.
Qed.

Lemma contains_trans p q s :
  Str.contains p q = true -> Str.contains q s = true -> Str.contains p s = true.
Proof.
  rewrite !contains_spec. intros (a & b & ->) (a' & b' & ->).
  exists (a' ++ a)%string, (b ++ b')%string.
  rewrite !string_app_assoc. reflexivity.
Qed.

Lemma label_ages_nested lbl1 lbl2 active :
  Str.contains (Str.to_lower lbl1) (Str.to_lower lbl2) = true ->
  Num.len (label_ages lbl2 active) <= Num.len (label_ages lbl1 active).
Proof.
  intros H. unfold label_ages, Num.len. rewrite !length_map.
  apply Nat2Z.inj_le. apply filter_length_mono.
  intros c Hc. eapply contains_trans; eassumption.
Qed.

(** X10.  A label that contains another one, whatever the case of the
    letters, never counts more cards than it: every card that matches
    "Comfort Shield Warranty" also matches "Warranty".  This holds between
    any two rows of the Label table and between any two focused-label rows
    of the Scope table. *)
Theorem nested_labels_nested_counts cards rep :
  build_report cards = Ok rep ->
  (forall r1 r2, In r1 (all_label_rows rep) -> In r2 (all_label_rows rep) ->
     Str.contains (Str.to_lower (Label r1)) (Str.to_lower (Label r2)) = true ->
     label_Count r2 <= label_Count r1) /\
  (forall r1 r2, In r1 (tl (scope_rows rep)) -> In r2 (tl (scope_rows rep)) ->
     Str.contains (Str.to_lower (Scope r1)) (Str.to_lower (Scope r2)) = true ->
     scope_Count r2 <= scope_Count r1).
Proof.
  intros H. apply build_report_inv in H.
  destruct H as (a0 & focused & lanes & quoted & labels
                 & _ & Hfocused & _ & _ & Hlabels & ->).
  cbn [scope_rows all_label_rows tl].
  apply label_table_rows in Hlabels. apply focused_rows in Hfocused.
  split; intros r1 r2 H1 H2 Hc.
  - destruct (Forall2_In_r' _ _ _ r1 Hlabels H1) as (l1 & _ & E1 & -> & _).
    destruct (Forall2_In_r' _ _ _ r2 Hlabels H2) as (l2 & _ & E2 & -> & _).
    rewrite E1, E2 in Hc. apply label_ages_nested, Hc.
  - destruct (Forall2_In_r' _ _ _ r1 Hfocused H1) as (l1 & _ & E1 & -> & _).
    destruct (Forall2_In_r' _ _ _ r2 Hfocused H2) as (l2 & _ & E2 & -> & _).
    rewrite E1, E2 in Hc. apply label_ages_nested, Hc.
Qed.

Lemma nested_labels_nested_counts_witness :
  build_report sample_cards = Ok sample_report /\
  Str.contains (Str.to_lower "Warranty") (Str.to_lower "Comfort Shield Warranty") = true /\
  (forall r1 r2,
     In r1 (all_label_rows sample_report) -> In r2 (all_label_rows sample_report) ->
     Str.contains (Str.to_lower (Label r1)) (Str.to_lower (Label r2)) = true ->
     label_Count r2 <= label_Count r1) /\
  (forall r1 r2,
     In r1 (tl (scope_rows sample_report)) -> In r2 (tl (scope_rows sample_report)) ->
     Str.contains (Str.to_lower (Scope r1)) (Str.to_lower (Scope r2)) = true ->
     scope_Count r2 <= scope_Count r1).
Proof.
  split; [vm_compute; reflexivity | ]. split; [vm_compute; reflexivity | ].
  apply (nested_labels_nested_counts sample_cards sample_report).
  vm_compute; reflexivity.
Defined.

(** ** The priced cards the summary leaves out *)

Lemma column_cases (col : string) :
  let b1 := String.eqb col "Completed" in
  let b2 := String.eqb col "Canceled" in
  let b3 := String.eqb col "New Parts Request" in
  (b1 = true /\ b2 = false /\ b3 = false) \/
  (b1 = false /\ b2 = true /\ b3 = false) \/
  (b1 = false /\ b2 = false /\ b3 = true) \/
  (b1 = false /\ b2 = false /\ b3 = false).
Proof.
  cbv zeta.
  destruct (String.eqb_spec col "Completed") as [-> | _]; [left; repeat split | ].
  destruct (String.eqb_spec col "Canceled") as [-> | _]; [right; left; repeat split | ].
  destruct (String.eqb col "New Parts Request"); tauto.
Qed.

Lemma priced_partition cards :
  let anywhere := fun _ : card => true in
  let parts_request := fun c => String.eqb (column c) "New Parts Request" in
  priced_count anywhere cards =
    priced_count active_population cards + priced_count won_population cards
    + priced_count lost_population cards + priced_count parts_request cards /\
  priced_sum anywhere cards =
    priced_sum active_population cards + priced_sum won_population cards
    + priced_sum lost_population cards + priced_sum parts_request cards.
Proof.
  cbv zeta. unfold active_population, won_population, lost_population.
  induction cards as [ | c cs [IHl IHt]]; [split; reflexivity | ].
  cbn [priced_count priced_sum].
  destruct (column_cases (column c)) as [(E1 & E2 & E3) | [(E1 & E2 & E3) |
                                         [(E1 & E2 & E3) | (E1 & E2 & E3)]]];
    rewrite E1, E2, E3; cbn [orb negb];
    destruct (price c); split; lia.
Qed.

(** X11.  The price summary leaves out exactly the priced cards of the
    column "New Parts Request": the cards that have a price are the
    active, the won and the lost ones and those, in number and in
    value. *)
Theorem price_summary_accounting cards rep :
  build_report cards = Ok rep ->
  let q := quoted_stats rep in
  let anywhere := fun _ : card => true in
  let parts_request := fun c => String.eqb (column c) "New Parts Request" in
  priced_count anywhere cards =
    Total_Value_Count q + Total_Won_Count q + Total_Lost_Count q
    + priced_count parts_request cards /\
  priced_sum anywhere cards =
    Total_Value q + Total_Won q + Total_Lost q + priced_sum parts_request cards.
Proof.
  intros H. cbv zeta.
  destruct (quoted_figures cards rep H)
    as ((-> & -> & _) & (-> & -> & _) & (-> & -> & _)).
  exact (priced_partition cards).
Qed.

Lemma price_summary_accounting_witness :
  build_report sample_cards = Ok sample_report /\
  let q := quoted_stats sample_report in
  let anywhere := fun _ : card => true in
  let parts_request := fun c => String.eqb (column c) "New Parts Request" in
  priced_count anywhere sample_cards =
    Total_Value_Count q + Total_Won_Count q + Total_Lost_Count q
    + priced_count parts_request sample_cards /\
  priced_sum anywhere sample_cards =
    Total_Value q + Total_Won q + Total_Lost q
    + priced_sum parts_request sample_cards.
Proof.
  split; [vm_compute; reflexivity | ].
  apply (price_summary_accounting sample_cards sample_report).
  vm_compute; reflexivity.
Defined.

(** ** The routes and the workbook they keep *)






(** Upload, download, download: the second download finds the buffer
    closed. *)
Example scenario_second_download_fails :
  let parser := fun _ : list Byte.byte => Ok doc_good in
  let w := mk_world (fun _ => sample_today) 0 None in
  let up := Some (mk_upload "board.html" []) in
  exists page name,
    fst (serve parser w [PostAnalyze up; GetDownload sample_today; GetDownload sample_today])
    = [page; Attachment sample_report_good name; ServerError ValueError].
Proof. vm_compute. eexists _, _. reflexivity. Qed.

(** ** Dates written out are read back *)

Lemma consumed1 a r : consumed (String a r) r = String a EmptyString.
Proof. exact (consumed_app (String a EmptyString) r). Qed.
Lemma consumed2 a b r : consumed (String a (String b r)) r = String a (String b EmptyString).
Proof. exact (consumed_app (String a (String b EmptyString)) r). Qed.
Lemma consumed4 a b c d r :
  consumed (String a (String b (String c (String d r)))) r
  = String a (String b (String c (String d EmptyString))).
Proof. exact (consumed_app (String a (String b (String c (String d EmptyString)))) r). Qed.

Ltac compute_pad :=
  repeat match goal with
         | |- context [pad2 ?n] =>
             let s := eval vm_compute in (pad2 n) in change (pad2 n) with s
         end.

Ltac eval_tests :=
  repeat match goal with
         | |- context [chr_matches true ?a ?b] =>
             let v := eval vm_compute in (chr_matches true a b) in
             match v with
             | true => change (chr_matches true a b) with true
             | false => change (chr_matches true a b) with false
             end
         | |- context [Str.between ?lo ?hi ?b] =>
             let v := eval vm_compute in (Str.between lo hi b) in
             match v with
             | true => change (Str.between lo hi b) with true
             | false => change (Str.between lo hi b) with false
             end
         | |- context [Str.is_digit ?b] =>
             let v := eval vm_compute in (Str.is_digit b) in
             match v with
             | true => change (Str.is_digit b) with true
             | false => change (Str.is_digit b) with false
             end
         end.

Ltac crunch_run :=
  cbn [run directive_re d_0_1 d_0_2 d_1_2 d_1_9 digit append];
  rewrite ?consumed1, ?consumed2;
  eval_tests; cbv iota;
  repeat match goal with
         | |- context [match ?x with Some _ => _ | None => _ end] => destruct x
         end;
  reflexivity.

Lemma run_month_then {R} m sep (r : regex) rest cs (k : string -> captures -> option R) :
  1 <= m <= 12 -> sep = "/"%char \/ sep = "-"%char ->
  run true (Seq (directive_re Pm) (Seq (Chr sep) r)) (pad2 m ++ String sep rest) cs k
  = run true r rest (("m", pad2 m) :: cs) k.
Proof.
  intros Hm Hsep.
  assert (Hc : m = 1 \/ m = 2 \/ m = 3 \/ m = 4 \/ m = 5 \/ m = 6 \/
               m = 7 \/ m = 8 \/ m = 9 \/ m = 10 \/ m = 11 \/ m = 12) by lia.
  destruct Hsep as [-> | ->];
    repeat (destruct Hc as [-> | Hc]); try subst m; compute_pad; crunch_run.
Qed.


Ltac day_cases d H :=
  assert (Hc : d = 1 \/ d = 2 \/ d = 3 \/ d = 4 \/ d = 5 \/ d = 6 \/ d = 7 \/
               d = 8 \/ d = 9 \/ d = 10 \/ d = 11 \/ d = 12 \/ d = 13 \/ d = 14 \/
               d = 15 \/ d = 16 \/ d = 17 \/ d = 18 \/ d = 19 \/ d = 20 \/ d = 21 \/
               d = 22 \/ d = 23 \/ d = 24 \/ d = 25 \/ d = 26 \/ d = 27 \/ d = 28 \/
               d = 29 \/ d = 30 \/ d = 31) by lia;
  repeat (destruct Hc as [-> | Hc]); try subst d.

Lemma run_day_then {R} d sep (r : regex) rest cs (k : string -> captures -> option R) :
  1 <= d <= 31 -> sep = "/"%char \/ sep = "-"%char ->
  run true (Seq (directive_re Pd) (Seq (Chr sep) r)) (pad2 d ++ String sep rest) cs k
  = run true r rest (("d", pad2 d) :: cs) k.
Proof.
  intros Hd Hsep.
  destruct Hsep as [-> | ->]; day_cases d Hd; compute_pad; crunch_run.
Qed.

Lemma run_day_end d cs :
  1 <= d <= 31 ->
  run true (Seq (directive_re Pd) Eps) (pad2 d) cs (fun rest cs => Some (rest, cs))
  = Some (EmptyString, ("d", pad2 d) :: cs).
Proof.
  intros Hd. day_cases d Hd; compute_pad;
    cbn [run directive_re d_0_1 d_0_2 d_1_2 d_1_9 digit append];
    rewrite ?consumed1, ?consumed2; eval_tests; cbv iota; reflexivity.
Qed.

Lemma run_year2_end a b cs :
  Str.is_digit a = true -> Str.is_digit b = true ->
  run true (Seq (directive_re Py) Eps) (String a (String b EmptyString)) cs
    (fun rest cs => Some (rest, cs))
  = Some (EmptyString, ("y", String a (String b EmptyString)) :: cs).
Proof.
  intros Ha Hb. cbn [run directive_re digit]. rewrite Ha, Hb, consumed2. reflexivity.
Qed.

Lemma run_year4_end a b c d cs :
  Str.is_digit a = true -> Str.is_digit b = true ->
  Str.is_digit c = true -> Str.is_digit d = true ->
  run true (Seq (directive_re PY) Eps)
    (String a (String b (String c (String d EmptyString)))) cs
    (fun rest cs => Some (rest, cs))
  = Some (EmptyString, ("Y", String a (String b (String c (String d EmptyString)))) :: cs).
Proof.
  intros Ha Hb Hc Hd. cbn [run directive_re digit].
  rewrite Ha, Hb, Hc, Hd, consumed4. reflexivity.
Qed.

Lemma run_year4_then {R} a b c d (r : regex) rest cs (k : string -> captures -> option R) :
  Str.is_digit a = true -> Str.is_digit b = true ->
  Str.is_digit c = true -> Str.is_digit d = true ->
  run true (Seq (directive_re PY) (Seq (Chr "-") r))
    (String a (String b (String c (String d (String "-" rest))))) cs k
  = run true r rest (("Y", String a (String b (String c (String d EmptyString)))) :: cs) k.
Proof.
  intros Ha Hb Hc Hd. cbn [run directive_re digit].
  rewrite Ha, Hb, Hc, Hd, consumed4. eval_tests. cbv iota. reflexivity.
Qed.

Lemma code_digit_char n : Str.code (digit_char n) = Z.to_N (48 + n mod 10).
Proof.
  unfold Str.code, digit_char. apply N_ascii_embedding.
  pose proof (Z.mod_pos_bound n 10 ltac:(lia)). lia.
Qed.

Lemma is_digit_digit_char n : Str.is_digit (digit_char n) = true.
Proof.
  unfold Str.is_digit, Str.between. rewrite code_digit_char.
  pose proof (Z.mod_pos_bound n 10 ltac:(lia)).
  rewrite Bool.andb_true_iff, !N.leb_le. lia.
Qed.

Lemma value_digit_char n : Z.of_N (Str.code (digit_char n)) - 48 = n mod 10.
Proof.
  rewrite code_digit_char. pose proof (Z.mod_pos_bound n 10 ltac:(lia)). lia.
Qed.

Lemma pad2_value n : 0 <= n <= 99 -> digits_value 0 (pad2 n) = Some n.
Proof.
  intros H. unfold pad2. cbn [digits_value].
  rewrite !is_digit_digit_char, !value_digit_char. f_equal.
  Z.to_euclidean_division_equations. lia.
Qed.

Lemma pad4_value n : 0 <= n <= 9999 -> digits_value 0 (pad4 n) = Some n.
Proof.
  intros H. unfold pad4, pad2. cbn [digits_value].
  rewrite !is_digit_digit_char, !value_digit_char. f_equal.
  Z.to_euclidean_division_equations. lia.
Qed.

Lemma pad2_lstrip n : Str.lstrip (pad2 n) = pad2 n.
Proof.
  unfold pad2. cbn [Str.lstrip].
  rewrite (digit_not_space _ (is_digit_digit_char (n / 10))). reflexivity.
Qed.

Lemma pad4_lstrip n : Str.lstrip (pad4 n) = pad4 n.
Proof.
  unfold pad4. cbn [Str.lstrip].
  rewrite (digit_not_space _ (is_digit_digit_char (n / 1000))). reflexivity.
Qed.

Lemma run_pad2_year_end n cs :
  run true (Seq (directive_re Py) Eps) (pad2 n) cs (fun rest cs => Some (rest, cs))
  = Some (EmptyString, ("y", pad2 n) :: cs).
Proof. unfold pad2. apply run_year2_end; apply is_digit_digit_char. Qed.

Lemma run_pad4_year_end n cs :
  run true (Seq (directive_re PY) Eps) (pad4 n) cs (fun rest cs => Some (rest, cs))
  = Some (EmptyString, ("Y", pad4 n) :: cs).
Proof. unfold pad4, pad2. apply run_year4_end; apply is_digit_digit_char. Qed.

Lemma run_pad4_year_then {R} n (r : regex) rest cs (k : string -> captures -> option R) :
  run true (Seq (directive_re PY) (Seq (Chr "-") r)) (pad4 n ++ String "-" rest) cs k
  = run true r rest (("Y", pad4 n) :: cs) k.
Proof.
  unfold pad4, pad2. cbn [append]. apply run_year4_then; apply is_digit_digit_char.
Qed.

Lemma parse_date_of_format s fmt d :
  In fmt [FMT_mdy; FMT_mdY; FMT_iso] -> strptime_date s fmt = Ok d ->
  parse_date s = Some d.
Proof.
  intros Hin H. unfold parse_date. apply parse_with_some_iff; [ | eauto].
  intros f1 f2 d1 d2 H1 H2 E1 E2.
  pose proof (two_formats_disagree s f1 f2 d1 d2 H1 H2 E1 E2) as ->. congruence.
Qed.

Ltac finish_date Hok :=
  unfold year_of, field_or, int_group;
  cbn [group String.eqb Ascii.eqb Bool.eqb];
  rewrite ?pad2_lstrip, ?pad4_lstrip;
  rewrite ?pad2_value, ?pad4_value by lia.

(** X13.  Dates written out are read back: for every date of the
    calendar, [parse_date] returns the date itself from its
    month/day/four-digit-year form and from its ISO form, and from its
    month/day/two-digit-year form when the year is one of 1969..2068. *)
Theorem written_dates_read_back d :
  date_ok d ->
  parse_date (render_mdY d) = Some d /\
  parse_date (isoformat d) = Some d /\
  (1969 <= year d <= 2068 -> parse_date (render_mdy d) = Some d).
Proof.
  intros Hok. pose proof (date_ok_bounds _ Hok) as (Hy & Hm & Hd).
  pose proof (days_in_month_bounds (year d) (month d)) as Hdim.
  assert (Hmk : make_date (year d) (month d) (day d) = Ok d).
  { unfold make_date. unfold date_ok in Hok. rewrite Hok. destruct d; reflexivity. }
  split; [ | split].
  - apply (parse_date_of_format _ FMT_mdY); [right; left; reflexivity | ].
    unfold strptime_date, match_, FMT_mdY, render_mdY. cbn [pattern append].
    change (directive_re (Plit "/")) with (Chr "/").
    rewrite run_month_then by (auto; lia). rewrite run_day_then by (auto; lia).
    rewrite run_pad4_year_end. cbn [Str.is_empty].
    finish_date Hok. exact Hmk.
  - apply (parse_date_of_format _ FMT_iso); [right; right; left; reflexivity | ].
    unfold strptime_date, match_, FMT_iso, isoformat. cbn [pattern append].
    change (directive_re (Plit "-")) with (Chr "-").
    rewrite run_pad4_year_then. rewrite run_month_then by (auto; lia).
    rewrite run_day_end by lia. cbn [Str.is_empty].
    finish_date Hok. exact Hmk.
  - intros Hrange.
    apply (parse_date_of_format _ FMT_mdy); [left; reflexivity | ].
    unfold strptime_date, match_, FMT_mdy, render_mdy. cbn [pattern append].
    change (directive_re (Plit "/")) with (Chr "/").
    rewrite run_month_then by (auto; lia). rewrite run_day_then by (auto; lia).
    rewrite run_pad2_year_end. cbn [Str.is_empty].
    pose proof (Z.mod_pos_bound (year d) 100 ltac:(lia)).
    finish_date Hok.
    replace (if year d mod 100 <=? 68 then year d mod 100 + 2000 else year d mod 100 + 1900)
      with (year d); [exact Hmk | ].
    destruct (Z.leb_spec (year d mod 100) 68);
      Z.to_euclidean_division_equations; lia.
Qed.

Lemma written_dates_read_back_witness :
  date_ok (mkdate 2024 2 29) /\
  parse_date (render_mdY (mkdate 2024 2 29)) = Some (mkdate 2024 2 29) /\
  parse_date (isoformat (mkdate 2024 2 29)) = Some (mkdate 2024 2 29) /\
  (1969 <= year (mkdate 2024 2 29) <= 2068 ->
   parse_date (render_mdy (mkdate 2024 2 29)) = Some (mkdate 2024 2 29)).
Proof.
  split; [vm_compute; reflexivity | ].
  apply (written_dates_read_back (mkdate 2024 2 29)).
  vm_compute; reflexivity.
Defined.

(** ** Texts are trimmed *)

Lemma rstrip_cons c s :
  Str.rstrip (String c s) =
  match Str.rstrip s with
  | EmptyString => if Str.is_space c then EmptyString else String c EmptyString
  | r => String c r
  end.
Proof. reflexivity. Qed.

Lemma rstrip_idem s : Str.rstrip (Str.rstrip s) = Str.rstrip s.
Proof.
  induction s as [ | c s IH]; [reflexivity | ].
  rewrite rstrip_cons. destruct (Str.rstrip s) as [ | a r] eqn:E.
  - destruct (Str.is_space c) eqn:Ec; [reflexivity | ].
    rewrite rstrip_cons. cbn [Str.rstrip]. rewrite Ec. reflexivity.
  - rewrite rstrip_cons, IH. reflexivity.
Qed.

Lemma lstrip_head s : Str.lstrip s = EmptyString \/
  exists c r, Str.lstrip s = String c r /\ Str.is_space c = false.
Proof.
  induction s as [ | c s IH]; [left; reflexivity | ].
  cbn [Str.lstrip]. destruct (Str.is_space c) eqn:Ec; [exact IH | ].
  right. exists c, s. split; [reflexivity | exact Ec].
Qed.

Lemma rstrip_head c s :
  Str.is_space c = false -> exists r, Str.rstrip (String c s) = String c r.
Proof.
  intros Ec. rewrite rstrip_cons. destruct (Str.rstrip s) as [ | a r].
  - rewrite Ec. eauto.
  - eauto.
Qed.

(** A stripped string is empty, or begins and ends with a character that
    is not whitespace. *)
Lemma strip_fixed s :
  Str.lstrip (Str.strip s) = Str.strip s /\ Str.rstrip (Str.strip s) = Str.strip s.
Proof.
  unfold Str.strip. split; [ | apply rstrip_idem].
  destruct (lstrip_head s) as [-> | (c & r & -> & Ec)]; [reflexivity | ].
  destruct (rstrip_head c r Ec) as (r' & ->). cbn [Str.lstrip]. rewrite Ec. reflexivity.
Qed.

Lemma rstrip_app x z :
  z <> EmptyString -> Str.rstrip z = z -> Str.rstrip (x ++ z) = x ++ z.
Proof.
  intros Hz Ez. induction x as [ | c x IH]; [exact Ez | ].
  cbn [append]. rewrite rstrip_cons, IH.
  destruct (x ++ z) as [ | a r] eqn:E; [ | reflexivity].
  destruct x; [cbn in E; congruence | discriminate].
Qed.

Lemma lstrip_app x z :
  x <> EmptyString -> Str.lstrip x = x -> Str.lstrip (x ++ z) = x ++ z.
Proof.
  intros Hx Ex. destruct x as [ | c x]; [congruence | ].
  cbn [append Str.lstrip] in *. destruct (Str.is_space c) eqn:Ec; [ | reflexivity].
  exfalso. assert (L : forall t, (String.length (Str.lstrip t) <= String.length t)%nat).
  { induction t as [ | a t IHt]; cbn [Str.lstrip]; [lia | ].
    destruct (Str.is_space a); cbn [String.length]; lia. }
  pose proof (L x) as Hl. rewrite Ex in Hl. cbn [String.length] in Hl. lia.
Qed.

Lemma join_trimmed xs :
  (forall x, In x xs ->
     x <> EmptyString /\ Str.lstrip x = x /\ Str.rstrip x = x) ->
  xs <> [] ->
  Str.join " " xs <> EmptyString /\
  Str.lstrip (Str.join " " xs) = Str.join " " xs /\
  Str.rstrip (Str.join " " xs) = Str.join " " xs.
Proof.
  induction xs as [ | x xs IH]; intros Hall Hne; [congruence | ].
  destruct (Hall x (or_introl eq_refl)) as (Hx & Lx & Rx).
  destruct xs as [ | y ys]; [cbn [Str.join]; auto | ].
  destruct IH as (Jn & Jl & Jr); [intros z Hz; apply Hall; right; exact Hz | discriminate | ].
  change (Str.join " " (x :: y :: ys)) with (x ++ " " ++ Str.join " " (y :: ys)).
  set (j := Str.join " " (y :: ys)) in *.
  split; [destruct x; [congruence | discriminate] | ].
  split; [apply lstrip_app; assumption | ].
  apply rstrip_app.
  - discriminate.
  - apply (rstrip_app " " j); assumption.
Qed.

Lemma stripped_strings_trimmed : forall n x,
  In x (Soup.stripped_strings n) ->
  x <> EmptyString /\ Str.lstrip x = x /\ Str.rstrip x = x.
Proof.
  fix IH 1. intros [s | name cls cs] x.
  - cbn [Soup.stripped_strings].
    destruct (Str.strip s) as [ | a r] eqn:E; cbn [Str.is_empty In]; [tauto | ].
    intros [<- | []]. split; [discriminate | ]. rewrite <- E. apply strip_fixed.
  - cbn [Soup.stripped_strings].
    induction cs as [ | c cs IHcs]; cbn [flat_map]; [intros [] | ].
    rewrite in_app_iff. intros [H | H]; [exact (IH c x H) | exact (IHcs H)].
Qed.

Lemma get_text_trimmed n : Str.strip (Soup.get_text n) = Soup.get_text n.
Proof.
  unfold Soup.get_text, Str.strip.
  destruct (Soup.stripped_strings n) as [ | x xs] eqn:E; [reflexivity | ].
  destruct (join_trimmed (x :: xs)) as (_ & Hl & Hr).
  - intros y Hy. apply (stripped_strings_trimmed n). rewrite E. exact Hy.
  - discriminate.
  - rewrite Hl. exact Hr.
Qed.

(** X14.  The text and the column name of every card extraction returns
    are trimmed: stripping them changes nothing, so neither begins or ends
    with whitespace, and the text is not empty. *)
Theorem extracted_texts_trimmed today doc cards c :
  extract_cards today doc = Ok cards -> In c cards ->
  text c <> EmptyString /\
  Str.strip (text c) = text c /\ Str.strip (column c) = column c.
Proof.
  unfold extract_cards. intros H Hc.
  destruct (scan_columns_from _ _ _ _ H c Hc)
    as [[] | (o & h & cand & _ & _ & _ & Hcard)].
  apply card_of_inv in Hcard. destruct Hcard as (Ecol & Etxt & Hne & _).
  split; [exact Hne | ]. rewrite Ecol, Etxt. split; apply get_text_trimmed.
Qed.

Lemma extracted_texts_trimmed_witness :
  let c := mkcard "Scheduled" "Received: 01/02/23 Quoted Price $1,200"
             (mkdate 2023 1 2) 10 (Some 1200) in
  extract_cards sample_today doc_good = Ok [c] /\ In c [c] /\
  text c <> EmptyString /\
  Str.strip (text c) = text c /\ Str.strip (column c) = column c.
Proof.
  intro c. split; [vm_compute; reflexivity | ]. split; [left; reflexivity | ].
  apply (extracted_texts_trimmed sample_today doc_good [c] c).
  - vm_compute; reflexivity.
  - left; reflexivity.
Defined.

(** ** The aggregator raises nothing but [OverflowError] *)

Lemma avg_raises xs e : avg xs = Raise e -> e = OverflowError.
Proof.
  destruct xs as [ | x xs]; [discriminate | ].
  unfold avg, Num.mean, Num.quotient.
  assert (Hlen : 0 < Num.len (x :: xs)) by (unfold Num.len; cbn [List.length]; lia).
  destruct (Z.eqb_spec (Num.len (x :: xs)) 0) as [E | _]; [lia | ].
  destruct (_ mod _ =? 0); [discriminate | ].
  unfold Num.truediv. destruct (Z.eqb_spec (Num.len (x :: xs)) 0) as [E | _]; [lia | ].
  destruct (SpecFloat.SFdiv _ _ _ _); cbn; congruence.
Qed.

Lemma avg_or_0_raises xs e : avg_or_0 xs = Raise e -> e = OverflowError.
Proof.
  destruct xs as [ | x xs]; [discriminate | ]. apply avg_raises.
Qed.

Lemma mapM_raises {A B} (f : A -> result B) xs e :
  (forall x e', f x = Raise e' -> e' = OverflowError) ->
  mapM f xs = Raise e -> e = OverflowError.
Proof.
  intros Hf. induction xs as [ | x xs IH]; cbn [mapM]; [discriminate | ].
  destruct (f x) as [y | e'] eqn:E; cbn [bind].
  - destruct (mapM f xs); cbn [bind]; [discriminate | ].
    intros H. apply IH. exact H.
  - intros H. injection H as <-. exact (Hf _ _ E).
Qed.

Lemma lane_table_raises cards lanes e :
  lane_table cards lanes = Raise e -> e = OverflowError.
Proof.
  induction lanes as [ | lane lanes IH]; cbn [lane_table]; [discriminate | ].
  destruct (lane_ages lane cards) as [ | a ages] eqn:E; [exact IH | ].
  destruct (avg (a :: ages)) as [v | e'] eqn:Ea; cbn [bind].
  - destruct (lane_table cards lanes); cbn [bind]; [discriminate | exact IH].
  - intros H. injection H as <-. exact (avg_raises _ _ Ea).
Qed.

Lemma row_raises {R} (mk : pynum -> R) xs e :
  (a <- avg_or_0 xs ;; Ok (mk a)) = Raise e -> e = OverflowError.
Proof.
  destruct (avg_or_0 xs) as [v | e'] eqn:E; cbn [bind]; [discriminate | ].
  intros H. injection H as <-. exact (avg_or_0_raises _ _ E).
Qed.

Lemma quoted_table_raises cards active e :
  quoted_table cards active = Raise e -> e = OverflowError.
Proof.
  unfold quoted_table.
  repeat match goal with
  | |- context [avg_or_0 ?xs] =>
      let E := fresh "E" in
      destruct (avg_or_0 xs) eqn:E; cbn [bind];
      [ | intros H; injection H as <-; exact (avg_or_0_raises _ _ E)]
  end.
  discriminate.
Qed.

(** X15.  Computing the tables of the report raises no exception but
    [OverflowError], and that one only when the ages, or the prices, of the
    cards add up in magnitude to [2^1023] or more. *)
Theorem build_report_raises_only_overflow cards e :
  build_report cards = Raise e ->
  e = OverflowError /\
  (2 ^ 1023 <= abs_total (map age cards) \/
   2 ^ 1023 <= abs_total (price_values cards)).
Proof.
  intros H. split.
  - revert H. unfold build_report.
    destruct (avg _) as [a0 | e'] eqn:E0; cbn [bind];
      [ | intros H; injection H as <-; exact (avg_raises _ _ E0)].
    destruct (mapM _ _) as [focused | e'] eqn:E1; cbn [bind].
    2:{ intros H; injection H as <-. apply (mapM_raises _ _ _ (fun lbl e2 => row_raises _ _ e2) E1). }
    destruct (lane_table _ _) as [lanes | e'] eqn:E2; cbn [bind];
      [ | intros H; injection H as <-; exact (lane_table_raises _ _ _ E2)].
    destruct (quoted_table _ _) as [quoted | e'] eqn:E3; cbn [bind];
      [ | intros H; injection H as <-; exact (quoted_table_raises _ _ _ E3)].
    destruct (label_table _ _) as [labels | e'] eqn:E4; cbn [bind]; [discriminate | ].
    intros H; injection H as <-. revert E4. unfold label_table.
    destruct ALL_LABELS; [discriminate | ].
    apply mapM_raises. intros lbl e2. apply row_raises.
  - destruct (Z.lt_ge_cases (abs_total (map age cards)) (2 ^ 1023)) as [Ha | Ha];
      [ | left; lia].
    destruct (Z.lt_ge_cases (abs_total (price_values cards)) (2 ^ 1023)) as [Hp | Hp];
      [ | right; lia].
    destruct (build_report_returns cards Ha Hp) as (rep & Hrep). congruence.
Qed.

Lemma build_report_raises_only_overflow_witness :
  build_report huge_price_cards = Raise OverflowError /\
  OverflowError = OverflowError /\
  (2 ^ 1023 <= abs_total (map age huge_price_cards) \/
   2 ^ 1023 <= abs_total (price_values huge_price_cards)).
Proof.
  split; [vm_compute; reflexivity | ].
  apply (build_report_raises_only_overflow huge_price_cards OverflowError).
  vm_compute; reflexivity.
Defined.
